(** * City map engine: the graph store, its reversible commands, the
    history engine and the persistence codec of [ProgramEngineering/2/2.py].

    The Python code is embedded shallowly:
    - a Python [dict] is an insertion-ordered association list with unique
      keys ([dict_get], [dict_set], [dict_del]);
    - methods that mutate [self] are computations in a small state and
      exception monad [M], so that a [KeyError] raised half-way through a
      method leaves the mutations made so far in place, as in Python;
    - costs are integers ([Z]), names are strings. *)

From Stdlib Require Import ZArith Lia.
From stdpp Require Import base option list strings.

Set Default Proof Using "Type".
#[local] Set Warnings "-register-all,-clear-no-such-hyp".

(** ** Insertion-ordered dictionaries *)

Definition dict (V : Type) : Type := list (string * V).

Section dict_ops.
Context {V : Type}.

(** [d.get(k)]: the value stored under [k], if any. *)
Fixpoint dict_get (k : string) (d : dict V) : option V :=
  match d with
  | [] => None
  | (k', v) :: d' => if decide (k = k') then Some v else dict_get k d'
  end.

(** [k in d]. *)
Definition dict_mem (k : string) (d : dict V) : bool :=
  match dict_get k d with Some _ => true | None => false end.

(** [d[k] = v]: an existing key keeps its position, a new key goes last. *)
Fixpoint dict_set (k : string) (v : V) (d : dict V) : dict V :=
  match d with
  | [] => [(k, v)]
  | (k', v') :: d' =>
      if decide (k = k') then (k', v) :: d' else (k', v') :: dict_set k v d'
  end.

(** [del d[k]] for a key that is present (keys are unique, so at most one
    entry goes). *)
Fixpoint dict_del (k : string) (d : dict V) : dict V :=
  match d with
  | [] => []
  | (k', v') :: d' =>
      if decide (k = k') then dict_del k d' else (k', v') :: dict_del k d'
  end.

(** [list(d.keys())]. *)
Definition dict_keys (d : dict V) : list string := map fst d.

(** [for k in d: d[k] = f(d[k])], for a body that only touches the value. *)
Definition dict_map_values (f : V → V) (d : dict V) : dict V :=
  map (λ kv, (kv.1, f kv.2)) d.
End dict_ops.

(** ** Python list primitives on cost lists *)

(** [x in l]. *)
Definition py_in (x : Z) (l : list Z) : bool := bool_decide (x ∈ l).

(** [l.remove(x)]: drops the first element equal to [x]; [None] stands for
    the [ValueError] of an absent element. *)
Fixpoint py_remove (x : Z) (l : list Z) : option (list Z) :=
  match l with
  | [] => None
  | y :: l' => if decide (x = y) then Some l' else cons y <$> py_remove x l'
  end.

(** [l.index(x)]: position of the first element equal to [x]. *)
Fixpoint py_index (x : Z) (l : list Z) : option nat :=
  match l with
  | [] => None
  | y :: l' => if decide (x = y) then Some 0 else S <$> py_index x l'
  end.

(** ** State and exception monad *)

(** The exceptions the code can raise. [OutOfModel] is not one of them: it
    marks a run that would store a value of the wrong type in a typed field
    (a cost that is not an integer, a name that is not a string), which
    Python allows and this typed embedding does not follow. *)
Inductive exn :=
  | KeyError | ValueError | IndexError | TypeError | AttributeError
  | JSONDecodeError | OutOfModel.

Inductive res (A : Type) : Type :=
  | Ok (a : A)
  | Raised (e : exn).
Arguments Ok {A} a.
Arguments Raised {A} e.

(** A method of an object with state [S]: it returns or raises, and in both
    cases leaves a state behind. *)
Definition M (S A : Type) : Type := S → res A * S.

Definition ret {S A} (a : A) : M S A := λ s, (Ok a, s).
Definition bind {S A B} (m : M S A) (f : A → M S B) : M S B := λ s,
  match m s with
  | (Ok a, s') => f a s'
  | (Raised e, s') => (Raised e, s')
  end.

Declare Scope py_scope.
Delimit Scope py_scope with py.
Bind Scope py_scope with M.
Notation "x ← y ; z" := (bind y (λ x : _, z))
  (at level 20, y at level 100, z at level 200, only parsing) : py_scope.
Notation "' x ← y ; z" := (bind y (λ x : _, z))
  (at level 20, x pattern, y at level 100, z at level 200, only parsing) : py_scope.
Notation "x ;; z" := (bind x (λ _, z))
  (at level 100, z at level 200, only parsing, right associativity) : py_scope.
Local Open Scope py_scope.

Definition raise {S A} (e : exn) : M S A := λ s, (Raised e, s).
Definition get_st {S} : M S S := λ s, (Ok s, s).
Definition modify {S} (f : S → S) : M S unit := λ s, (Ok tt, f s).

(** [for x in l: body(x)], the value of the body being dropped. *)
Fixpoint for_ {S A B} (l : list A) (body : A → M S B) : M S unit :=
  match l with
  | [] => ret tt
  | x :: l' => body x;; for_ l' body
  end.

(** [try: c except Exception: handler]. [OutOfModel] is not a Python
    exception and passes through every handler. *)
Definition try_except {S A} (c : M S A) (handler : M S A) : M S A := λ s,
  match c s with
  | (Ok a, s') => (Ok a, s')
  | (Raised OutOfModel, s') => (Raised OutOfModel, s')
  | (Raised _, s') => handler s'
  end.

(** ** Graph store: class [CityMap] *)

(** [self.cities : Dict[str, Dict[str, List[int]]]]. *)
Definition CityMap : Type := dict (dict (list Z)).

Definition empty_map : CityMap := [].

Section primitives.
(** [name in self.cities] *)
Definition has_city (name : string) : M CityMap bool :=
  cs ← get_st; ret (dict_mem name cs).

(** [self.cities[a]] *)
Definition getitem (a : string) : M CityMap (dict (list Z)) :=
  cs ← get_st;
  match dict_get a cs with Some d => ret d | None => raise KeyError end.

(** [self.cities[a] = d] *)
Definition setitem (a : string) (d : dict (list Z)) : M CityMap unit :=
  modify (dict_set a d).

(** [del self.cities[a]] *)
Definition delitem (a : string) : M CityMap unit :=
  cs ← get_st;
  if dict_mem a cs then modify (dict_del a) else raise KeyError.

(** [self.cities.pop(a)] *)
Definition popitem (a : string) : M CityMap (dict (list Z)) :=
  d ← getitem a; delitem a;; ret d.

(** [self.cities[a][b]] *)
Definition getitem2 (a b : string) : M CityMap (list Z) :=
  d ← getitem a;
  match dict_get b d with Some l => ret l | None => raise KeyError end.

(** [self.cities[a][b] = l] *)
Definition setitem2 (a b : string) (l : list Z) : M CityMap unit :=
  d ← getitem a; setitem a (dict_set b l d).

(** [del self.cities[a][b]] *)
Definition delitem2 (a b : string) : M CityMap unit :=
  d ← getitem a;
  if dict_mem b d then setitem a (dict_del b d) else raise KeyError.

(** [self.cities[a][b].append(cost)] *)
Definition append2 (a b : string) (cost : Z) : M CityMap unit :=
  l ← getitem2 a b; setitem2 a b (l ++ [cost]).

(** [self.cities[a][b].remove(cost)] *)
Definition remove2 (a b : string) (cost : Z) : M CityMap unit :=
  l ← getitem2 a b;
  match py_remove cost l with
  | Some l' => setitem2 a b l'
  | None => raise ValueError
  end.

(** [self.cities[a][b][index] = cost] *)
Definition setindex2 (a b : string) (index : nat) (cost : Z) : M CityMap unit :=
  l ← getitem2 a b;
  if bool_decide (index < length l)%nat
  then setitem2 a b (<[index := cost]> l)
  else raise IndexError.

(** [for city in self.cities: body(self.cities[city])] where the body
    rewrites the neighbour map of [city] and nothing else. *)
Definition for_each_city (body : dict (list Z) → dict (list Z)) : M CityMap unit :=
  modify (dict_map_values body).
End primitives.

Definition add_city (name : string) : M CityMap bool :=
  present ← has_city name;
  if present then ret false else
  setitem name [];;
  ret true.

Definition remove_city (name : string) : M CityMap bool :=
  present ← has_city name;
  if negb present then ret false else
  for_each_city (λ nbrs,
    if dict_mem name nbrs then dict_del name nbrs else nbrs);;
  delitem name;;
  ret true.

Definition rename_city (old_name new_name : string) : M CityMap bool :=
  has_old ← has_city old_name;
  has_new ← has_city new_name;
  if negb has_old || has_new then ret false else
  moved ← popitem old_name;
  setitem new_name moved;;
  for_each_city (λ nbrs,
    match dict_get old_name nbrs with
    | Some costs => dict_set new_name costs (dict_del old_name nbrs)
    | None => nbrs
    end);;
  ret true.

Definition add_road (city1 city2 : string) (cost : Z) : M CityMap bool :=
  has1 ← has_city city1;
  has2 ← has_city city2;
  if negb has1 || negb has2 then ret false else
  nbrs ← getitem city1;
  (if negb (dict_mem city2 nbrs)
   then setitem2 city1 city2 [];; setitem2 city2 city1 []
   else ret tt);;
  append2 city1 city2 cost;;
  append2 city2 city1 cost;;
  ret true.

Definition remove_road (city1 city2 : string) (cost : option Z) : M CityMap bool :=
  has1 ← has_city city1;
  has2 ← has_city city2;
  if negb has1 || negb has2 then ret false else
  nbrs ← getitem city1;
  if negb (dict_mem city2 nbrs) then ret false else
  match cost with
  | None =>
      delitem2 city1 city2;;
      delitem2 city2 city1;;
      ret true
  | Some cost =>
      costs ← getitem2 city1 city2;
      (if py_in cost costs then
         remove2 city1 city2 cost;;
         remove2 city2 city1 cost;;
         rest ← getitem2 city1 city2;
         match rest with
         | [] => delitem2 city1 city2;; delitem2 city2 city1
         | _ :: _ => ret tt
         end
       else ret tt);;
      ret true
  end.

Definition update_road_cost (city1 city2 : string) (old_cost new_cost : Z)
  : M CityMap bool :=
  has1 ← has_city city1;
  has2 ← has_city city2;
  if negb has1 || negb has2 then ret false else
  nbrs ← getitem city1;
  if negb (dict_mem city2 nbrs) then ret false else
  costs ← getitem2 city1 city2;
  if negb (py_in old_cost costs) then ret false else
  match py_index old_cost costs with
  | None => raise ValueError
  | Some index =>
      setindex2 city1 city2 index new_cost;;
      setindex2 city2 city1 index new_cost;;
      ret true
  end.

(** Read operations. *)

Definition get_cities (m : CityMap) : list string := dict_keys m.

Definition get_roads_from_city (city : string) (m : CityMap)
  : list (string * list Z) :=
  match dict_get city m with
  | None => []
  | Some nbrs => nbrs
  end.

(** The cost list stored under [a → b], when both the city and the
    neighbour entry exist. *)
Definition costs_from (m : CityMap) (a b : string) : option (list Z) :=
  dict_get a m ≫= dict_get b.

(** [get_all_roads]: the Python [set] of pairs is kept in first-insertion
    order here; Python leaves the iteration order of a set unspecified. *)
Definition get_all_roads (m : CityMap) : list (string * string * list Z) :=
  let roads :=
    foldl (λ roads city1,
      foldl (λ roads city2,
        if bool_decide ((city2, city1) ∈ roads) then roads
        else if bool_decide ((city1, city2) ∈ roads) then roads
        else roads ++ [(city1, city2)])
        roads (dict_keys (default [] (dict_get city1 m))))
      [] (dict_keys m) in
  omap (λ p, pair p <$> costs_from m p.1 p.2) roads.


(** ** Command set *)

(** One constructor per command class; the arguments are the fields of the
    object. The field [roads] of a [RemoveCityCommand] is a Python list, the
    one object of the program that is shared and changed in place:
    [execute] appends to it, [_command_to_dict] puts the list itself into
    the record it builds, and [_deserialize_commands] gives the command the
    list of the record it reads. [R] is how that field is held: by its
    contents ([Command]) where one command runs on a map, by the address of
    the list ([CommandRef]) where the engine keeps commands next to the
    records that share their lists. *)
Inductive Command_ (R : Type) :=
  | AddCityCommand (name : string)
  | RemoveCityCommand (name : string) (roads : R)
  | RenameCityCommand (old_name new_name : string)
  | AddRoadCommand (city1 city2 : string) (cost : Z)
  | RemoveRoadCommand (city1 city2 : string) (cost : Z)
  | UpdateRoadCommand (city1 city2 : string) (old_cost new_cost : Z).
Arguments AddCityCommand {R} name.
Arguments RemoveCityCommand {R} name roads.
Arguments RenameCityCommand {R} old_name new_name.
Arguments AddRoadCommand {R} city1 city2 cost.
Arguments RemoveRoadCommand {R} city1 city2 cost.
Arguments UpdateRoadCommand {R} city1 city2 old_cost new_cost.

(** The address of a list object. *)
Abbreviation addr := nat.

Abbreviation Command := (Command_ (list (string * string * list Z))).
Abbreviation CommandRef := (Command_ addr).

(** [command.execute()], run on the map the command points to. The result
    comes with the command object as the call leaves it: only
    [RemoveCityCommand] changes its own fields. *)
Definition execute (self : Command) : M CityMap (bool * Command) :=
  match self with
  | AddCityCommand name =>
      result ← add_city name; ret (result, self)
  | RemoveCityCommand name roads =>
      present ← has_city name;
      if negb present then ret (false, self) else
      nbrs ← getitem name;
      let roads := roads ++ map (λ item, (name, item.1, item.2)) nbrs in
      result ← remove_city name;
      ret (result, RemoveCityCommand name roads)
  | RenameCityCommand old_name new_name =>
      result ← rename_city old_name new_name; ret (result, self)
  | AddRoadCommand city1 city2 cost =>
      result ← add_road city1 city2 cost; ret (result, self)
  | RemoveRoadCommand city1 city2 cost =>
      result ← remove_road city1 city2 (Some cost); ret (result, self)
  | UpdateRoadCommand city1 city2 old_cost new_cost =>
      result ← update_road_cost city1 city2 old_cost new_cost; ret (result, self)
  end.

(** [command.undo()]. *)
Definition undo (self : Command) : M CityMap bool :=
  match self with
  | AddCityCommand name => remove_city name
  | RemoveCityCommand name roads =>
      added ← add_city name;
      if negb added then ret false else
      for_ roads (λ road,
        let '(city1, city2, costs) := road in
        for_ costs (λ cost, add_road city1 city2 cost));;
      ret true
  | RenameCityCommand old_name new_name => rename_city new_name old_name
  | AddRoadCommand city1 city2 cost => remove_road city1 city2 (Some cost)
  | RemoveRoadCommand city1 city2 cost => add_road city1 city2 cost
  | UpdateRoadCommand city1 city2 old_cost new_cost =>
      update_road_cost city1 city2 new_cost old_cost
  end.

(** ** JSON-compatible values *)

(** What [json.load] returns and what the history holds. A Python tuple is
    written as the array [json.dump] turns it into. Floating-point numbers
    are not represented. *)
Inductive json :=
  | JNull
  | JBool (b : bool)
  | JInt (n : Z)
  | JStr (s : string)
  | JList (l : list json)
  | JDict (d : list (string * json)).

(** [data.get(key, default)] on a value that should be a dict. *)
Definition json_get {S} (data : json) (key : string) (default : json) : M S json :=
  match data with
  | JDict d => ret (from_option id default (dict_get key d))
  | _ => raise AttributeError
  end.

(** [data[key]] for a string key: only a dict can be subscripted that way. *)
Definition json_index {S} (data : json) (key : string) : M S json :=
  match data with
  | JDict d =>
      match dict_get key d with Some v => ret v | None => raise KeyError end
  | _ => raise TypeError
  end.

(** [data.items()]. *)
Definition json_items {S} (data : json) : M S (list (string * json)) :=
  match data with
  | JDict d => ret d
  | _ => raise AttributeError
  end.

(** The one-character strings of a string, as [for ch in s] yields them. *)
Fixpoint string_chars (s : string) : list string :=
  match s with
  | EmptyString => []
  | String a s' => String a EmptyString :: string_chars s'
  end.

(** [for x in data]: what iterating a value yields. *)
Definition json_iter {S} (data : json) : M S (list json) :=
  match data with
  | JList l => ret l
  | JDict d => ret (JStr <$> dict_keys d)
  | JStr s => ret (JStr <$> string_chars s)
  | _ => raise TypeError
  end.

(** [value == s] for a string literal [s]. *)
Definition json_is_str (value : json) (s : string) : bool :=
  match value with
  | JStr s' => bool_decide (s' = s)
  | _ => false
  end.

(** Reading a document value into a typed field. *)
Definition as_int {S} (v : json) : M S Z :=
  match v with JInt n => ret n | _ => raise OutOfModel end.

Definition as_str {S} (v : json) : M S string :=
  match v with JStr s => ret s | _ => raise OutOfModel end.

Definition as_list {S} (v : json) : M S (list json) :=
  match v with JList l => ret l | _ => raise OutOfModel end.

Fixpoint map_m {S A B} (f : A → M S B) (l : list A) : M S (list B) :=
  match l with
  | [] => ret []
  | x :: l' => y ← f x; ys ← map_m f l'; ret (y :: ys)
  end.

(** [list(costs) if isinstance(costs, list) else [costs]] *)
Definition as_costs {S} (costs : json) : M S (list Z) :=
  match costs with
  | JList l => map_m as_int l
  | _ => cost ← as_int costs; ret [cost]
  end.

(** One captured road [(city1, city2, costs)] of a [RemoveCityCommand]. *)
Definition as_road {S} (road : json) : M S (string * string * list Z) :=
  match road with
  | JList [city1; city2; JList costs] =>
      city1 ← as_str city1;
      city2 ← as_str city2;
      costs ← map_m as_int costs;
      ret (city1, city2, costs)
  | _ => raise OutOfModel
  end.

(** [CityMap.from_dict] *)
Definition load_neighbors (city : string) (neighbors : list (string * json))
  : M CityMap unit :=
  for_ neighbors (λ item,
    costs ← as_costs item.2;
    setitem2 city item.1 costs).

Definition from_dict (data : json) : M CityMap unit :=
  match data with
  | JDict d =>
      version ← json_get data "_version" (JStr "1.0");
      if json_is_str version "1.2" then
        modify (λ _, []);;
        cities_data ← json_get data "cities" (JDict []);
        cities_items ← json_items cities_data;
        for_ cities_items (λ item,
          setitem item.1 [];;
          neighbors ← json_items item.2;
          load_neighbors item.1 neighbors)
      else
        modify (λ _, []);;
        for_ d (λ item,
          setitem item.1 [];;
          match item.2 with
          | JDict neighbors => load_neighbors item.1 neighbors
          | _ => ret tt
          end)
  | _ => raise ValueError
  end.

Definition costs_to_json (costs : list Z) : json := JList (JInt <$> costs).

Definition road_to_json (road : string * string * list Z) : json :=
  JList [JStr road.1.1; JStr road.1.2; costs_to_json road.2].

(** ** Shared lists *)

(** The lists [self.roads] of the [RemoveCityCommand] objects, by address:
    the part of the Python heap on which the program shares objects. A list
    is never freed; a new one gets the next address. *)
Abbreviation heap := (list (list (string * string * list Z))).

(** The contents of the list at an address. *)
Definition roads_at (lists : heap) (a : addr) : list (string * string * list Z) :=
  default [] (lists !! a).

(** [[]] and the lists [json.load] builds: a new list object, whose address
    is returned. *)
Definition new_list (l : list (string * string * list Z)) : M heap addr :=
  lists ← get_st;
  modify (λ lists, lists ++ [l]);;
  ret (length lists).

(** [RemoveCityCommand(city_map, name)]: the constructor sets
    [self.roads = []]. The other constructors build no list. *)
Definition new_RemoveCityCommand (name : string) : M heap CommandRef :=
  roads ← new_list [];
  ret (RemoveCityCommand name roads).

(** A command of the engine with the contents of its list, as [execute]
    and [undo] find it. *)
Definition held (lists : heap) (command : CommandRef) : Command :=
  match command with
  | AddCityCommand name => AddCityCommand name
  | RemoveCityCommand name roads => RemoveCityCommand name (roads_at lists roads)
  | RenameCityCommand old_name new_name => RenameCityCommand old_name new_name
  | AddRoadCommand city1 city2 cost => AddRoadCommand city1 city2 cost
  | RemoveRoadCommand city1 city2 cost => RemoveRoadCommand city1 city2 cost
  | UpdateRoadCommand city1 city2 old_cost new_cost =>
      UpdateRoadCommand city1 city2 old_cost new_cost
  end.

(** A value the engine keeps in its timeline: a JSON-compatible value, in
    which a list that a command holds as well is named by its address. *)
Inductive hval :=
  | Plain (v : json)
  | Shared (a : addr)
  | HList (l : list hval)
  | HDict (d : list (string * hval)).

(** What a value of the timeline shows when it is read (by [print], by
    [json.dump]): a shared list with the contents it has at that time. *)
Fixpoint shown (lists : heap) (v : hval) : json :=
  match v with
  | Plain v => v
  | Shared a => JList (road_to_json <$> roads_at lists a)
  | HList l => JList (map (shown lists) l)
  | HDict d => JDict (map (λ kv, (kv.1, shown lists kv.2)) d)
  end.

(** ** History engine: class [CommandManager] *)

(** The fields of the manager, and with them the lists its commands and its
    timeline share ([lists]). *)
Record CommandManager := {
  city_map : CityMap;
  undo_stack : list CommandRef;
  redo_stack : list CommandRef;
  history : list hval;
  current_history_index : Z;
  lists : heap
}.

Definition set_city_map (m : CityMap) (s : CommandManager) : CommandManager :=
  {| city_map := m; undo_stack := undo_stack s; redo_stack := redo_stack s;
     history := history s; current_history_index := current_history_index s;
     lists := lists s |}.
Definition set_undo_stack (u : list CommandRef) (s : CommandManager) : CommandManager :=
  {| city_map := city_map s; undo_stack := u; redo_stack := redo_stack s;
     history := history s; current_history_index := current_history_index s;
     lists := lists s |}.
Definition set_redo_stack (r : list CommandRef) (s : CommandManager) : CommandManager :=
  {| city_map := city_map s; undo_stack := undo_stack s; redo_stack := r;
     history := history s; current_history_index := current_history_index s;
     lists := lists s |}.
Definition set_history (h : list hval) (s : CommandManager) : CommandManager :=
  {| city_map := city_map s; undo_stack := undo_stack s; redo_stack := redo_stack s;
     history := h; current_history_index := current_history_index s;
     lists := lists s |}.
Definition set_index (i : Z) (s : CommandManager) : CommandManager :=
  {| city_map := city_map s; undo_stack := undo_stack s; redo_stack := redo_stack s;
     history := history s; current_history_index := i; lists := lists s |}.
Definition set_lists (l : heap) (s : CommandManager) : CommandManager :=
  {| city_map := city_map s; undo_stack := undo_stack s; redo_stack := redo_stack s;
     history := history s; current_history_index := current_history_index s;
     lists := l |}.

(** A method of [self.city_map] called from a method of the manager. *)
Definition on_city_map {A} (c : M CityMap A) : M CommandManager A := λ s,
  let (r, m) := c (city_map s) in (r, set_city_map m s).

(** A step that builds or changes shared lists only. *)
Definition on_lists {A} (c : M heap A) : M CommandManager A := λ s,
  let (r, l) := c (lists s) in (r, set_lists l s).

(** [command.execute()] for a command of the engine: [execute] runs on the
    command with the contents of its list; what [RemoveCityCommand.execute]
    appended is in the list afterwards, for everyone who holds it. *)
Definition execute_held (command : CommandRef) : M CommandManager bool :=
  self ← get_st;
  '(ok, after) ← on_city_map (execute (held (lists self) command));
  match command, after with
  | RemoveCityCommand _ a, RemoveCityCommand _ roads =>
      modify (λ self, set_lists (<[a := roads]> (lists self)) self)
  | _, _ => ret tt
  end;;
  ret ok.

(** [command.undo()] for a command of the engine. *)
Definition undo_held (command : CommandRef) : M CommandManager bool :=
  self ← get_st;
  on_city_map (undo (held (lists self) command)).

Definition _get_safe_state (m : CityMap) : json :=
  JDict [
    ("cities", JDict (map (λ entry,
       (entry.1, JDict (map (λ road, (road.1, costs_to_json road.2)) entry.2))) m));
    ("_version", JStr "1.2")
  ].

(** The record of a command. For a [RemoveCityCommand] the value under
    ['roads'] is [cmd.roads], the list of the command itself. *)
Definition _command_to_dict (cmd : CommandRef) : hval :=
  match cmd with
  | AddCityCommand name =>
      Plain (JDict [("type", JStr "AddCityCommand"); ("name", JStr name)])
  | RemoveCityCommand name roads =>
      HDict [("type", Plain (JStr "RemoveCityCommand"));
             ("name", Plain (JStr name));
             ("roads", Shared roads)]
  | RenameCityCommand old_name new_name =>
      Plain (JDict [("type", JStr "RenameCityCommand");
                    ("old_name", JStr old_name); ("new_name", JStr new_name)])
  | AddRoadCommand city1 city2 cost =>
      Plain (JDict [("type", JStr "AddRoadCommand"); ("city1", JStr city1);
                    ("city2", JStr city2); ("cost", JInt cost)])
  | RemoveRoadCommand city1 city2 cost =>
      Plain (JDict [("type", JStr "RemoveRoadCommand"); ("city1", JStr city1);
                    ("city2", JStr city2); ("cost", JInt cost)])
  | UpdateRoadCommand city1 city2 old_cost new_cost =>
      Plain (JDict [("type", JStr "UpdateRoadCommand"); ("city1", JStr city1);
                    ("city2", JStr city2); ("old_cost", JInt old_cost);
                    ("new_cost", JInt new_cost)])
  end.

Definition _serialize_commands (commands : list CommandRef) : hval :=
  HList (_command_to_dict <$> commands).

(** The snapshot [_save_state] and [save_to_file] build. *)
Definition snapshot (s : CommandManager) : hval :=
  HDict [
    ("map_state", Plain (_get_safe_state (city_map s)));
    ("undo_stack", _serialize_commands (undo_stack s));
    ("redo_stack", _serialize_commands (redo_stack s))
  ].

(** [l[:stop]] *)
Definition py_slice_to {A} (stop : Z) (l : list A) : list A :=
  let len := Z.of_nat (length l) in
  let stop := if (stop <? 0)%Z then Z.max 0 (stop + len) else Z.min stop len in
  take (Z.to_nat stop) l.

(** [l[i]]: a negative index counts from the end. *)
Definition py_getitem {S A} (l : list A) (i : Z) : M S A :=
  let len := Z.of_nat (length l) in
  let i := if (i <? 0)%Z then (i + len)%Z else i in
  if (i <? 0)%Z then raise IndexError else
  match l !! Z.to_nat i with
  | Some x => ret x
  | None => raise IndexError
  end.

Definition _save_state : M CommandManager unit :=
  self ← get_st;
  let state := snapshot self in
  (if (current_history_index self <? Z.of_nat (length (history self)) - 1)%Z
   then modify (set_history
                  (py_slice_to (current_history_index self + 1) (history self)))
   else ret tt);;
  modify (λ self, set_history (history self ++ [state]) self);;
  modify (λ self, set_index (Z.of_nat (length (history self)) - 1) self).

(** [CommandManager(city_map)] *)
Definition new_manager (m : CityMap) : CommandManager :=
  snd (_save_state {| city_map := m; undo_stack := []; redo_stack := [];
                      history := []; current_history_index := -1;
                      lists := [] |}).

(** The stacks are Python lists: [append] pushes at the end and [pop] takes
    the last element. *)
Definition execute_command (command : CommandRef) : M CommandManager bool :=
  ok ← execute_held command;
  if ok : bool then
    modify (λ self, set_undo_stack (undo_stack self ++ [command]) self);;
    modify (set_redo_stack []);;
    _save_state;;
    ret true
  else ret false.

(** [CommandManager.undo] *)
Definition manager_undo : M CommandManager bool :=
  self ← get_st;
  match last (undo_stack self) with
  | None => ret false
  | Some command =>
      modify (set_undo_stack (removelast (undo_stack self)));;
      ok ← undo_held command;
      if ok : bool then
        modify (λ self, set_redo_stack (redo_stack self ++ [command]) self);;
        _save_state;;
        ret true
      else ret false
  end.

(** [CommandManager.redo] *)
Definition manager_redo : M CommandManager bool :=
  self ← get_st;
  match last (redo_stack self) with
  | None => ret false
  | Some command =>
      modify (set_redo_stack (removelast (redo_stack self)));;
      ok ← execute_held command;
      if ok : bool then
        modify (λ self, set_undo_stack (undo_stack self ++ [command]) self);;
        _save_state;;
        ret true
      else ret false
  end.

(** ** Persistence codec *)

(** The fields of a record, each held by value. *)
Definition plain_fields (d : dict json) : dict hval :=
  map (λ kv, (kv.1, Plain kv.2)) d.

(** [cmd.roads = cmd_data.get('roads', [])]: the list of the record becomes
    the list of the command, so the record holds it by its address from
    here on; without the key the command gets a new empty list. (The empty
    list of the constructor is dropped at once and gets no address.) The
    result is the address and the record as it is held afterwards. *)
Definition share_roads (cmd_data : dict json) : M heap (addr * hval) :=
  match dict_get "roads" cmd_data with
  | None =>
      roads ← new_list [];
      ret (roads, Plain (JDict cmd_data))
  | Some roads =>
      roads ← as_list roads;
      roads ← map_m as_road roads;
      roads ← new_list roads;
      ret (roads, HDict (dict_set "roads" (Shared roads) (plain_fields cmd_data)))
  end.

(** Rebuilding one command from its record; [None] is a record that is
    skipped ([cmd] stays [None], or the bare [except] fires). The record
    comes back as the timeline holds it afterwards. *)
Definition deserialize_command (cmd_data : json) : M heap (option CommandRef * hval) :=
  try_except
    (type ← json_index cmd_data "type";
     if json_is_str type "AddCityCommand" then
       name ← json_index cmd_data "name";
       name ← as_str name;
       ret (Some (AddCityCommand name), Plain cmd_data)
     else if json_is_str type "RemoveCityCommand" then
       name ← json_index cmd_data "name";
       name ← as_str name;
       fields ← json_items cmd_data;
       '(roads, cmd_data) ← share_roads fields;
       ret (Some (RemoveCityCommand name roads), cmd_data)
     else if json_is_str type "RenameCityCommand" then
       old_name ← json_index cmd_data "old_name";
       new_name ← json_index cmd_data "new_name";
       old_name ← as_str old_name;
       new_name ← as_str new_name;
       ret (Some (RenameCityCommand old_name new_name), Plain cmd_data)
     else if json_is_str type "AddRoadCommand" then
       city1 ← json_index cmd_data "city1";
       city2 ← json_index cmd_data "city2";
       cost ← json_index cmd_data "cost";
       city1 ← as_str city1;
       city2 ← as_str city2;
       cost ← as_int cost;
       ret (Some (AddRoadCommand city1 city2 cost), Plain cmd_data)
     else if json_is_str type "RemoveRoadCommand" then
       city1 ← json_index cmd_data "city1";
       city2 ← json_index cmd_data "city2";
       cost ← json_index cmd_data "cost";
       city1 ← as_str city1;
       city2 ← as_str city2;
       cost ← as_int cost;
       ret (Some (RemoveRoadCommand city1 city2 cost), Plain cmd_data)
     else if json_is_str type "UpdateRoadCommand" then
       city1 ← json_index cmd_data "city1";
       city2 ← json_index cmd_data "city2";
       old_cost ← json_index cmd_data "old_cost";
       new_cost ← json_index cmd_data "new_cost";
       city1 ← as_str city1;
       city2 ← as_str city2;
       old_cost ← as_int old_cost;
       new_cost ← as_int new_cost;
       ret (Some (UpdateRoadCommand city1 city2 old_cost new_cost), Plain cmd_data)
     else ret (None, Plain cmd_data))
    (ret (None, Plain cmd_data)).

(** [_deserialize_commands]: the commands, and the data as the timeline
    holds it afterwards. *)
Definition _deserialize_commands (commands_data : json)
  : M heap (list CommandRef * hval) :=
  items ← json_iter commands_data;
  results ← map_m deserialize_command items;
  ret (omap fst results,
       match commands_data with
       | JList _ => HList (snd <$> results)
       | _ => Plain commands_data
       end).

(** The data [save_to_file] hands to [json.dump], as [json.dump] writes it
    (and [json.load] reads it back): every list with its contents.
    [created] is the time stamp [datetime.now().isoformat()]. *)
Definition save_to_file (created : string) (self : CommandManager) : json :=
  shown (lists self) (HDict [
    ("history", HList [snapshot self]);
    ("current_index", Plain (JInt 0));
    ("_metadata", Plain (JDict [("version", JStr "1.2"); ("created", JStr created)]))
  ]).

(** The position [l[i]] reads, for an index that is in range. *)
Definition py_position (len : nat) (i : Z) : nat :=
  Z.to_nat (if (i <? 0)%Z then i + Z.of_nat len else i).

(** [state[key]] of an entry of the timeline is held as [data] from here on
    (its records have given their lists to commands). *)
Definition hold_field (key : string) (data : hval) (state : hval) : hval :=
  match state with
  | Plain (JDict fields) =>
      if dict_mem key fields
      then HDict (dict_set key data (plain_fields fields))
      else state
  | HDict fields =>
      if dict_mem key fields then HDict (dict_set key data fields) else state
  | _ => state
  end.

Definition hold (index : Z) (key : string) (data : hval) (self : CommandManager)
  : CommandManager :=
  set_history
    (alter (hold_field key data) (py_position (length (history self)) index)
       (history self)) self.

Section load.
(** [json.loads], the JSON parser of the Python library: [None] when it
    raises. *)
Variable json_loads : string → option json.

(** [load_from_file]; [file] is what [open] and [json.load] give, [None]
    when either raises. [state] is the entry [self.history[index]]
    itself, and every [cmd_data] a record of it: a command rebuilt from a
    record shares its list with the timeline, which [hold] records. *)
Definition load_from_file (file : option json) : M CommandManager bool :=
  try_except
    (data ← match file with Some data => ret data | None => raise JSONDecodeError end;
     loaded ← json_get data "history" (JList []);
     loaded ← as_list loaded;
     modify (set_history (Plain <$> loaded));;
     index ← json_get data "current_index" (JInt 0);
     index ← as_int index;
     modify (set_index index);;
     match loaded with
     | [] => ret false
     | _ :: _ =>
         state ← py_getitem loaded index;
         map_state ← json_get state "map_state" (JDict []);
         map_state ← match map_state with
                     | JStr text =>
                         match json_loads text with
                         | Some parsed => ret parsed
                         | None => raise JSONDecodeError
                         end
                     | _ => ret map_state
                     end;
         on_city_map (from_dict map_state);;
         undo_data ← json_get state "undo_stack" (JList []);
         '(commands, undo_data) ← on_lists (_deserialize_commands undo_data);
         modify (hold index "undo_stack" undo_data);;
         modify (set_undo_stack commands);;
         redo_data ← json_get state "redo_stack" (JList []);
         '(commands, redo_data) ← on_lists (_deserialize_commands redo_data);
         modify (hold index "redo_stack" redo_data);;
         modify (set_redo_stack commands);;
         ret true
     end)
    (ret false).
End load.

(** [CityMap.to_dict]: the map under the key ['cities'] and a format mark;
    it writes no ['_version'] key. *)
Definition to_dict (m : CityMap) : json :=
  JDict [
    ("cities", JDict (map (λ entry,
       (entry.1, JDict (map (λ road, (road.1, costs_to_json road.2)) entry.2))) m));
    ("_serializer", JStr "CityMap_v2")
  ].

(** ** Editor window: class [CityMapApp] *)

(** Python strings are taken as their UTF-8 bytes. *)

(** [s[n:]] *)
Fixpoint string_drop (n : nat) (s : string) : string :=
  match n, s with
  | O, _ => s
  | S n', String _ s' => string_drop n' s'
  | S _, EmptyString => EmptyString
  end.

(** The text before the first occurrence of [sep] in [s] and the text after
    it; [None] when [sep] does not occur. [sep] is not empty. *)
Fixpoint py_cut (sep s : string) : option (string * string) :=
  match s with
  | EmptyString => None
  | String ch s' =>
      if String.prefix sep s
      then Some (EmptyString, string_drop (String.length sep) s)
      else (λ cut, (String ch cut.1, cut.2)) <$> py_cut sep s'
  end.

(** [s.split(sep)] for a separator that is not empty (Python raises
    [ValueError] for an empty one): at most [len(s)] cuts can be made. *)
Fixpoint py_split_from (fuel : nat) (sep s : string) : list string :=
  match fuel with
  | O => [s]
  | S fuel' =>
      match py_cut sep s with
      | None => [s]
      | Some (before, after) => before :: py_split_from fuel' sep after
      end
  end.

Definition py_split (sep s : string) : list string :=
  py_split_from (String.length s) sep s.

(** [ch in chars] *)
Fixpoint string_mem (ch : Ascii.ascii) (chars : string) : bool :=
  match chars with
  | EmptyString => false
  | String c chars' => Ascii.eqb ch c || string_mem ch chars'
  end.

(** [s.rstrip(chars)]: the trailing characters that occur in [chars] are
    dropped. *)
Fixpoint py_rstrip (chars s : string) : string :=
  match s with
  | EmptyString => EmptyString
  | String ch s' =>
      match py_rstrip chars s' with
      | EmptyString =>
          if string_mem ch chars then EmptyString else String ch EmptyString
      | rest => String ch rest
      end
  end.

Section app.
(** [str.strip], [int] on a string ([None] when it raises [ValueError]),
    [str] on an integer and [json.loads] ([None] when it raises), from the
    Python library. *)
Variable py_strip : string → string.
Variable py_int : string → option Z.
Variable py_str : Z → string.
Variable json_loads : string → option json.

(** The text of one item of the list of roads:
    [f"{neighbor} (стоимость: {cost})"]. *)
Definition road_item (neighbor : string) (cost : Z) : string :=
  neighbor +:+ " (стоимость: " +:+ py_str cost +:+ ")".

(** [update_roads_list]: the items shown for the city of the first combo
    box. *)
Definition update_roads_list (city : string) (m : CityMap) : list string :=
  if decide (city = "") then [] else
  get_roads_from_city city m ≫= λ road, road_item road.1 <$> road.2.

(** [road_text.split(" (")[0]] *)
Definition road_city2 {S} (road_text : string) : M S string :=
  py_getitem (py_split " (" road_text) 0.

(** [int(road_text.split(": ")[1].rstrip(")"))] *)
Definition road_cost {S} (road_text : string) : M S Z :=
  part ← py_getitem (py_split ": " road_text) 1;
  match py_int (py_rstrip ")" part) with
  | Some cost => ret cost
  | None => raise ValueError
  end.

(** The handlers of the window. Their arguments are what they read from
    the widgets: the text of an input line, the text of the selected item
    of a list ([None] when nothing is selected), the current text of a
    combo box, the value of a spin box. The result tells whether the
    handler went on to [update_ui]; otherwise it showed a message box or
    did nothing. *)
Definition app_add_city (text : string) : M CommandManager bool :=
  let city_name := py_strip text in
  if decide (city_name = "") then ret false else
  execute_command (AddCityCommand city_name).

Definition app_remove_city (selected : option string) : M CommandManager bool :=
  match selected with
  | None => ret false
  | Some city_name =>
      command ← on_lists (new_RemoveCityCommand city_name);
      execute_command command
  end.

Definition app_rename_city (selected : option string) (text : string)
  : M CommandManager bool :=
  match selected with
  | None => ret false
  | Some old_name =>
      let new_name := py_strip text in
      if decide (new_name = "") then ret false else
      if decide (old_name = new_name) then ret false else
      execute_command (RenameCityCommand old_name new_name)
  end.

Definition app_add_road (city1 city2 : string) (cost : Z) : M CommandManager bool :=
  if bool_decide (city1 = "") || bool_decide (city2 = "") then ret false else
  if decide (city1 = city2) then ret false else
  execute_command (AddRoadCommand city1 city2 cost).

Definition app_remove_road (selected : option string) (city1 : string)
  : M CommandManager bool :=
  match selected with
  | None => ret false
  | Some road_text =>
      city2 ← road_city2 road_text;
      cost ← road_cost road_text;
      execute_command (RemoveRoadCommand city1 city2 cost)
  end.

Definition app_update_road_cost (selected : option string) (city1 : string)
    (new_cost : Z) : M CommandManager bool :=
  match selected with
  | None => ret false
  | Some road_text =>
      city2 ← road_city2 road_text;
      old_cost ← road_cost road_text;
      if decide (old_cost = new_cost) then ret false else
      execute_command (UpdateRoadCommand city1 city2 old_cost new_cost)
  end.

(** [on_road_selected], the slot of the list of roads: it reads the same
    text and puts the neighbour and the cost into the widgets. *)
Definition app_on_road_selected (selected : option string) : M CommandManager bool :=
  match selected with
  | None => ret false
  | Some road_text =>
      city2 ← road_city2 road_text;
      cost ← road_cost road_text;
      ret false
  end.

(** [on_city_selected] and [update_roads_list], the slots of the list of
    cities and of the first combo box: they fill the list of roads from
    the map, for the city the combo box then shows. *)
Definition app_update_roads_list (city : string) : M CommandManager (list string) :=
  self ← get_st;
  ret (update_roads_list city (city_map self)).

Definition app_undo : M CommandManager bool := manager_undo.
Definition app_redo : M CommandManager bool := manager_redo.

(** The handler [save_to_file]: [filename] is the answer of the file
    dialog, empty when it was cancelled. The result is the document handed
    to [json.dump]; the engine is only read. *)
Definition app_save_to_file (created filename : string)
  : M CommandManager (option json) :=
  if decide (filename = "") then ret None else
  self ← get_st;
  ret (Some (save_to_file created self)).

(** The handler [load_from_file]: [filename] is the answer of the file
    dialog and [file] what [open] and [json.load] give for it. *)
Definition app_load_from_file (filename : string) (file : option json)
  : M CommandManager bool :=
  if decide (filename = "") then ret false else
  load_from_file json_loads file.
End app.

(** [CityMapApp()]: an empty map and its manager. *)
Definition new_app : CommandManager := new_manager empty_map.

(** * Specification vocabulary *)

(** Ordered symmetry: the two directions of a pair hold the same list, or
    hold none. *)
Definition sym (m : CityMap) : Prop :=
  ∀ a b, costs_from m a b = costs_from m b a.

(** The mutating operations of the graph store, as data. *)
Inductive GraphOp :=
  | OpAddCity (name : string)
  | OpRemoveCity (name : string)
  | OpRenameCity (old_name new_name : string)
  | OpAddRoad (city1 city2 : string) (cost : Z)
  | OpRemoveRoad (city1 city2 : string) (cost : option Z)
  | OpUpdateRoadCost (city1 city2 : string) (old_cost new_cost : Z).

Definition run_op (op : GraphOp) : M CityMap bool :=
  match op with
  | OpAddCity name => add_city name
  | OpRemoveCity name => remove_city name
  | OpRenameCity old_name new_name => rename_city old_name new_name
  | OpAddRoad city1 city2 cost => add_road city1 city2 cost
  | OpRemoveRoad city1 city2 cost => remove_road city1 city2 cost
  | OpUpdateRoadCost city1 city2 old_cost new_cost =>
      update_road_cost city1 city2 old_cost new_cost
  end.

(** The states of the graph store: the empty map and the state any
    operation leaves, whether the operation returned or raised. *)
Inductive reachable : CityMap → Prop :=
  | reachable_empty : reachable empty_map
  | reachable_step m op : reachable m → reachable (run_op op m).2.

(** [d[b] = v] or [del d[b]] on the neighbour map of [a]: the state after a
    write to the slot [a → b]. *)
Definition upd2 (a b : string) (v : option (list Z)) (m : CityMap) : CityMap :=
  match dict_get a m with
  | Some d =>
      dict_set a (match v with Some l => dict_set b l d | None => dict_del b d end) m
  | None => m
  end.

(** [m'] has the cities of [m]. *)
Definition same_cities (m m' : CityMap) : Prop :=
  ∀ x, dict_mem x m' = dict_mem x m.

(** [m'] agrees with [m] on every slot outside [P]. *)
Definition frame (P : string → string → Prop) (m m' : CityMap) : Prop :=
  ∀ x y, ¬ P x y → costs_from m' x y = costs_from m x y.

(** The slot [a → b], and the two slots of the pair [a], [b]. *)
Definition slot (a b x y : string) : Prop := x = a ∧ y = b.
Definition slots (a b x y : string) : Prop := slot a b x y ∨ slot b a x y.

#[local] Instance slot_dec a b x y : Decision (slot a b x y).
Proof. unfold slot. apply _. Defined.
#[local] Instance slots_dec a b x y : Decision (slots a b x y).
Proof. unfold slots. apply _. Defined.

(** A computation that writes no slot outside [P] and adds or removes no
    city, however it ends. *)
Definition touches {A} (P : string → string → Prop) (c : M CityMap A) : Prop :=
  ∀ m, same_cities m (c m).2 ∧ frame P m (c m).2.

(** City operations as plain functions of the state. *)
Definition drop_neighbor (name : string) (nbrs : dict (list Z)) : dict (list Z) :=
  if dict_mem name nbrs then dict_del name nbrs else nbrs.

Definition rename_neighbor (old_name new_name : string) (nbrs : dict (list Z))
  : dict (list Z) :=
  match dict_get old_name nbrs with
  | Some costs => dict_set new_name costs (dict_del old_name nbrs)
  | None => nbrs
  end.

(** The name a city had before [rename_city o n]. *)
Definition unrename (o n z : string) : string := if decide (z = n) then o else z.

(** A computation that cannot return [False]. *)
Definition never_false {S} (c : M S bool) : Prop :=
  ∀ s s', c s ≠ (Ok false, s').

(** The timeline [_save_state] appends to: the snapshots after the cursor
    are cut off first. *)
Definition kept_history (s : CommandManager) : list hval :=
  if (current_history_index s <? Z.of_nat (length (history s)) - 1)%Z
  then py_slice_to (current_history_index s + 1) (history s)
  else history s.

(** The lists after [command.execute()] has left the command as [after]. *)
Definition written (command : CommandRef) (after : Command) (lists : heap) : heap :=
  match command, after with
  | RemoveCityCommand _ a, RemoveCityCommand _ roads => <[a := roads]> lists
  | _, _ => lists
  end.

(** Keys are unique, as in every Python dict. *)
Definition dict_wf {V} (d : dict V) : Prop := NoDup (dict_keys d).

(** The keys of the map and of every neighbour map are unique. *)
Definition map_wf (m : CityMap) : Prop :=
  dict_wf m ∧ ∀ a d, dict_get a m = Some d → dict_wf d.

(** The two levels of the dict comprehension in [_get_safe_state], and the
    body of the outer loop of [from_dict] for format 1.2. *)
Definition neighbors_to_json (nbrs : dict (list Z)) : list (string * json) :=
  map (λ road, (road.1, costs_to_json road.2)) nbrs.

Definition cities_to_json (m : CityMap) : list (string * json) :=
  map (λ entry, (entry.1, JDict (neighbors_to_json entry.2))) m.

Definition load_city (item : string * json) : M CityMap unit :=
  setitem item.1 [];;
  neighbors ← json_items item.2;
  load_neighbors item.1 neighbors.

(** The commands rebuilt from the records of [commands]: the same commands,
    each [RemoveCityCommand] with a new list, the next address in turn. *)
Fixpoint rebased (base : addr) (commands : list CommandRef) : list CommandRef :=
  match commands with
  | [] => []
  | RemoveCityCommand name _ :: rest =>
      RemoveCityCommand name base :: rebased (S base) rest
  | command :: rest => command :: rebased base rest
  end.

(** The lists of the [RemoveCityCommand]s among [commands], in their
    order. *)
Definition captured (lists : heap) (commands : list CommandRef) : heap :=
  omap (λ command,
    match command with
    | RemoveCityCommand _ a => Some (roads_at lists a)
    | _ => None
    end) commands.

(** The engine [load_from_file] builds from the document of [s]. *)
Definition reloaded (s s0 : CommandManager) : CommandManager :=
  let undo := rebased (length (lists s0)) (undo_stack s) in
  let lists1 := lists s0 ++ captured (lists s) (undo_stack s) in
  let redo := rebased (length lists1) (redo_stack s) in
  {| city_map := city_map s; undo_stack := undo; redo_stack := redo;
     history := [HDict [("map_state", Plain (_get_safe_state (city_map s)));
                        ("undo_stack", _serialize_commands undo);
                        ("redo_stack", _serialize_commands redo)]];
     current_history_index := 0;
     lists := lists1 ++ captured (lists s) (redo_stack s) |}.

(** The values [load_from_file] reads from a document object. *)
Definition doc_history (d : dict json) : json :=
  from_option id (JList []) (dict_get "history" d).
Definition doc_index (d : dict json) : json :=
  from_option id (JInt 0) (dict_get "current_index" d).

(** [l[i]] as a partial function. *)
Definition entry_at {A} (l : list A) (i : Z) : option A :=
  let len := Z.of_nat (length l) in
  let i := if (i <? 0)%Z then (i + len)%Z else i in
  if (i <? 0)%Z then None else l !! Z.to_nat i.

(** The map state of a history entry, once a string has been parsed:
    [None] when the entry is not an object or the string does not parse. *)
Definition entry_map_state (json_loads : string → option json) (entry : json)
  : option json :=
  match entry with
  | JDict fields =>
      match from_option id (JDict []) (dict_get "map_state" fields) with
      | JStr text => json_loads text
      | map_state => Some map_state
      end
  | _ => None
  end.

(** The document has no history entry at the cursor, or the map state of
    that entry is not a mapping. *)
Definition load_blocked (json_loads : string → option json)
    (h : list json) (i : Z) : Prop :=
  match entry_at h i with
  | None => True
  | Some entry =>
      match entry_map_state json_loads entry with
      | Some (JDict _) => False
      | _ => True
      end
  end.

(** Computations that leave the state alone. *)
Definition pure_m {S A} (c : M S A) : Prop := ∀ s, (c s).2 = s.

(** Which steps of a load can change the redo stack. *)
Definition keeps_redo {A} (c : M CommandManager A) : Prop :=
  ∀ s, redo_stack (c s).2 = redo_stack s.

(** The same, for a computation that may also end by returning [True]. *)
Definition keeps_redo_unless_true (c : M CommandManager bool) : Prop :=
  ∀ s, (c s).1 = Ok true ∨ redo_stack (c s).2 = redo_stack s.

(** [isinstance(v, dict)] *)
Definition is_object (v : json) : bool :=
  match v with JDict _ => true | _ => false end.

(** [for x in v] does not raise. *)
Definition iterable (v : json) : bool :=
  match v with
  | JList _ | JDict _ | JStr _ => true
  | _ => false
  end.

(** Computations whose only way out, besides returning, is [OutOfModel]. *)
Definition only_out_of_model {S A} (c : M S A) : Prop :=
  ∀ s e s', c s = (Raised e, s') → e = OutOfModel.

(** What makes a load fail once the timeline [h] and the cursor [i] have
    been taken from the document: no usable map state at the cursor, a map
    state that [from_dict] rejects, or stack data that cannot be iterated. *)
Definition load_failure_cause (json_loads : string → option json)
    (s : CommandManager) (h : list json) (i : Z) : Prop :=
  load_blocked json_loads h i ∨
  ∃ fields map_state,
    entry_at h i = Some (JDict fields) ∧
    entry_map_state json_loads (JDict fields) = Some map_state ∧
    ((∃ e m', e ≠ OutOfModel ∧
        from_dict map_state (city_map s) = (Raised e, m')) ∨
     iterable (from_option id (JList []) (dict_get "undo_stack" fields)) = false ∨
     iterable (from_option id (JList []) (dict_get "redo_stack" fields)) = false).

(** The timeline shows the entries [h], and goes on showing them when more
    lists are built. *)
Definition shows (h : list json) (s : CommandManager) : Prop :=
  ∀ more, shown (lists s ++ more) <$> history s = h.

(** A step of the codec that returns a value of the timeline: it builds new
    lists only, and the value it returns shows [v], whatever lists are built
    later. *)
Definition rebuilds {A} (v : json) (c : M heap (A * hval)) : Prop :=
  ∀ l r l', c l = (r, l') →
    ∃ new, l' = l ++ new ∧
      match r with
      | Ok (_, v') => ∀ more, shown (l' ++ more) v' = v
      | Raised _ => True
      end.

(** The part of [load_from_file] that follows the choice of the map state. *)
Definition load_tail (index : Z) (state map_state : json) : M CommandManager bool :=
  on_city_map (from_dict map_state);;
  undo_data ← json_get state "undo_stack" (JList []);
  '(commands, undo_data) ← on_lists (_deserialize_commands undo_data);
  modify (hold index "undo_stack" undo_data);;
  modify (set_undo_stack commands);;
  redo_data ← json_get state "redo_stack" (JList []);
  '(commands, redo_data) ← on_lists (_deserialize_commands redo_data);
  modify (hold index "redo_stack" redo_data);;
  modify (set_redo_stack commands);;
  ret true.

#[local] Instance exn_eq_dec : EqDecision exn.
Proof. solve_decision. Defined.

(** Every neighbour map has unique keys. *)
Definition inner_wf (m : CityMap) : Prop :=
  ∀ a d, dict_get a m = Some d → dict_wf d.

(** The maps the editor can build: symmetric, no road from a city to
    itself, no empty cost list, unique keys. *)
Record graph_ok (m : CityMap) : Prop := {
  ok_sym : sym m;
  ok_no_loop : ∀ a, costs_from m a a = None;
  ok_nonempty : ∀ a b, costs_from m a b ≠ Some [];
  ok_inner : inner_wf m
}.

(** Same cities and, in each direction, the same cost list. *)
Definition same_graph (m m' : CityMap) : Prop :=
  (∀ x, dict_mem x m' = dict_mem x m) ∧
  (∀ x y, costs_from m' x y = costs_from m x y).

(** Same cities and, in each direction, the same costs up to their order. *)
Definition same_costs (o o' : option (list Z)) : Prop :=
  match o, o' with
  | Some l, Some l' => l ≡ₚ l'
  | None, None => True
  | _, _ => False
  end.

Definition same_graph_up_to_order (m m' : CityMap) : Prop :=
  (∀ x, dict_mem x m' = dict_mem x m) ∧
  (∀ x y, same_costs (costs_from m' x y) (costs_from m x y)).

(** The road operations keep the keys of every neighbour map unique,
    whichever way they end. *)
Definition keeps_inner_wf {A} (c : M CityMap A) : Prop :=
  ∀ m, inner_wf m → inner_wf (c m).2.

(** A graph store operation of the editor: a road operation names two
    distinct cities. *)
Definition joins_distinct (op : GraphOp) : Prop :=
  match op with
  | OpAddRoad city1 city2 _ | OpRemoveRoad city1 city2 _
  | OpUpdateRoadCost city1 city2 _ _ => city1 ≠ city2
  | _ => True
  end.

(** The maps built from the empty one by such operations. *)
Inductive built : CityMap → Prop :=
  | built_empty : built empty_map
  | built_step m op : built m → joins_distinct op → built (run_op op m).2.

(** The [add_road] calls the undo of a [RemoveCityCommand] makes, in order. *)
Definition flat_roads (roads : list (string * string * list Z))
  : list (string * string * Z) :=
  roads ≫= λ road, (λ cost, (road.1.1, road.1.2, cost)) <$> road.2.

(** One such call. *)
Definition add_one (call : string * string * Z) : M CityMap bool :=
  add_road call.1.1 call.1.2 call.2.

(** The costs a list of [add_road] calls appends to the slot [x → y]. *)
Definition added (calls : list (string * string * Z)) (x y : string) : list Z :=
  omap (λ call, if decide (slots call.1.1 call.1.2 x y) then Some call.2 else None)
    calls.

(** The roads [RemoveCityCommand.execute] captures from the neighbour map
    [d] of the city [name]. *)
Definition roads_of (name : string) (d : dict (list Z))
  : list (string * string * list Z) :=
  map (λ item, (name, item.1, item.2)) d.

(** Road commands: undo gives back the costs, not always their order. *)
Definition is_road_command (c : Command) : bool :=
  match c with
  | AddRoadCommand _ _ _ | RemoveRoadCommand _ _ _ | UpdateRoadCommand _ _ _ _ => true
  | _ => false
  end.

(** The commands the editor submits: a road joins two distinct cities, a
    road is removed by a cost it has, and a [RemoveCityCommand] is new. *)
Definition editor_command (c : Command) (m : CityMap) : Prop :=
  match c with
  | AddCityCommand _ | RenameCityCommand _ _ => True
  | RemoveCityCommand _ roads => roads = []
  | AddRoadCommand city1 city2 _ => city1 ≠ city2
  | RemoveRoadCommand city1 city2 cost =>
      city1 ≠ city2 ∧ ∃ costs, costs_from m city1 city2 = Some costs ∧ cost ∈ costs
  | UpdateRoadCommand city1 city2 _ _ => city1 ≠ city2
  end.

(** What an undo gives back: the costs in every case, their order too
    unless [c] is a road command. *)
Definition restored (c : Command) (m m' : CityMap) : Prop :=
  same_graph_up_to_order m m' ∧ (is_road_command c = false → same_graph m m').

(** [add_road] calls that all start at [name] and end at another city of
    the map. *)
Definition calls_from (name : string) (m : CityMap)
    (calls : list (string * string * Z)) : Prop :=
  Forall (λ call, call.1.1 = name ∧ call.1.2 ≠ name ∧
                  dict_mem call.1.2 m = true) calls.

(** The state [_save_state] leaves. *)
Definition saved (s : CommandManager) : CommandManager :=
  set_index (Z.of_nat (length (kept_history s)))
    (set_history (kept_history s ++ [snapshot s]) s).

(** A small map used to exercise the theorems: X–Y with cost 5 and X–Z
    with cost 3, built through the graph store. *)
Definition example_map : CityMap :=
  (run_op (OpAddRoad "X" "Z" 3)
     (run_op (OpAddRoad "X" "Y" 5)
        (run_op (OpAddCity "Z")
           (run_op (OpAddCity "Y")
              (run_op (OpAddCity "X") empty_map).2).2).2).2).2.

(** A–B joined by the costs 5 and 3, in that order. *)
Definition two_roads_map : CityMap :=
  (run_op (OpAddRoad "A" "B" 3)
     (run_op (OpAddRoad "A" "B" 5)
        (run_op (OpAddCity "B")
           (run_op (OpAddCity "A") empty_map).2).2).2).2.

(** The manager after [AddCityCommand "W"] has been executed on the
    example map. *)
Definition example_manager : CommandManager :=
  (execute_command (AddCityCommand "W") (new_manager example_map)).2.

(** A computation that leaves the list of cities as it is, order included,
    however it ends. *)
Definition keeps_cities {A} (c : M CityMap A) : Prop :=
  ∀ m, get_cities (c m).2 = get_cities m.

(** The pairs the two loops of [get_all_roads] visit, in order. *)
Definition visited_pairs (m : CityMap) : list (string * string) :=
  dict_keys m ≫= λ city1,
    pair city1 <$> dict_keys (default [] (dict_get city1 m)).

(** The body of the inner loop of [get_all_roads] on the set [roads]. *)
Definition note_pair (roads : list (string * string)) (p : string * string)
  : list (string * string) :=
  if bool_decide ((p.2, p.1) ∈ roads) then roads
  else if bool_decide (p ∈ roads) then roads
  else roads ++ [p].

(** No pair of distinct cities is held in both directions. *)
Definition one_direction (roads : list (string * string)) : Prop :=
  ∀ a b, a ≠ b → (a, b) ∈ roads → (b, a) ∉ roads.

(** A command that never asks [add_road] to join a city to itself, neither
    in [execute] nor when [undo] puts the captured roads of a removed city
    back. The handlers of the window build such commands only. *)
Definition guarded (c : Command) : Prop :=
  match c with
  | AddRoadCommand city1 city2 _ => city1 ≠ city2
  | RemoveCityCommand _ roads => Forall (λ road, road.1.1 ≠ road.1.2) roads
  | _ => True
  end.

(** A guarded command whose [undo] is guarded too. *)
Definition reversible (c : Command) : Prop :=
  guarded c ∧
  match c with
  | RemoveRoadCommand city1 city2 _ => city1 ≠ city2
  | _ => True
  end.

(** The graph store operation a command other than [RemoveCityCommand]
    runs in [execute]. *)
Definition op_of (c : Command) : GraphOp :=
  match c with
  | AddCityCommand name => OpAddCity name
  | RemoveCityCommand name _ => OpRemoveCity name
  | RenameCityCommand old_name new_name => OpRenameCity old_name new_name
  | AddRoadCommand city1 city2 cost => OpAddRoad city1 city2 cost
  | RemoveRoadCommand city1 city2 cost => OpRemoveRoad city1 city2 (Some cost)
  | UpdateRoadCommand city1 city2 old_cost new_cost =>
      OpUpdateRoadCost city1 city2 old_cost new_cost
  end.

(** Two lists of lists that agree on the first [n] lists. *)
Definition same_below (n : nat) (lists lists' : heap) : Prop :=
  ∀ a, a < n → roads_at lists' a = roads_at lists a.

(** A timeline value that points at none but the first [n] lists: what it
    shows depends on those only. *)
Definition allocated (n : nat) (v : hval) : Prop :=
  ∀ lists lists', same_below n lists lists' → shown lists' v = shown lists v.

(** The list of a command is one of the first [n] lists. *)
Definition in_heap (n : nat) (c : CommandRef) : Prop :=
  match c with
  | RemoveCityCommand _ a => a < n
  | _ => True
  end.

(** The state of an engine that has only seen guarded commands: a sound
    map, reversible commands on both stacks, the cursor on the last
    snapshot of a timeline that is not empty, and no pointer to a list that
    does not exist yet. *)
Record engine_ok (s : CommandManager) : Prop := {
  eo_map : graph_ok (city_map s);
  eo_undo : Forall (λ c, reversible (held (lists s) c)) (undo_stack s);
  eo_redo : Forall (λ c, reversible (held (lists s) c)) (redo_stack s);
  eo_cursor : current_history_index s = (Z.of_nat (length (history s)) - 1)%Z;
  eo_history : history s ≠ [];
  eo_undo_heap : Forall (in_heap (length (lists s))) (undo_stack s);
  eo_redo_heap : Forall (in_heap (length (lists s))) (redo_stack s);
  eo_allocated : Forall (allocated (length (lists s))) (history s)
}.

(** What the user can do in the window: each constructor is a slot of
    [init_ui] with what it reads from the widgets and the dialogs.
    [ActShowRoads] stands for [on_city_selected] and [update_roads_list],
    with the text the first combo box then has. *)
Inductive Action :=
  | ActAddCity (text : string)
  | ActRemoveCity (selected : option string)
  | ActRenameCity (selected : option string) (text : string)
  | ActAddRoad (city1 city2 : string) (cost : Z)
  | ActRemoveRoad (selected : option string) (city1 : string)
  | ActUpdateRoadCost (selected : option string) (city1 : string) (new_cost : Z)
  | ActShowRoads (city : string)
  | ActSelectRoad (selected : option string)
  | ActUndo
  | ActRedo
  | ActSave (created filename : string)
  | ActLoad (filename : string) (file : option json).

Definition perform (py_strip : string → string) (py_int : string → option Z)
    (py_str : Z → string) (json_loads : string → option json)
    (a : Action) : M CommandManager bool :=
  match a with
  | ActAddCity text => app_add_city py_strip text
  | ActRemoveCity selected => app_remove_city selected
  | ActRenameCity selected text => app_rename_city py_strip selected text
  | ActAddRoad city1 city2 cost => app_add_road city1 city2 cost
  | ActRemoveRoad selected city1 => app_remove_road py_int selected city1
  | ActUpdateRoadCost selected city1 new_cost =>
      app_update_road_cost py_int selected city1 new_cost
  | ActShowRoads city => app_update_roads_list py_str city;; ret false
  | ActSelectRoad selected => app_on_road_selected py_int selected
  | ActUndo => app_undo
  | ActRedo => app_redo
  | ActSave created filename => app_save_to_file created filename;; ret false
  | ActLoad filename file => app_load_from_file json_loads filename file
  end.

(** The load handler with a file chosen in its dialog: the one action that
    calls [CommandManager.load_from_file], whether the load then succeeds or
    fails. *)
Definition loads_file (a : Action) : bool :=
  match a with
  | ActLoad filename _ => bool_decide (filename ≠ "")
  | _ => false
  end.

(** The states of the engine behind a window whose load handler was never
    given a file: the state of a new window, and the state any other action
    leaves, whether its handler returned or raised. *)
Inductive edited (py_strip : string → string) (py_int : string → option Z)
    (py_str : Z → string) (json_loads : string → option json)
  : CommandManager → Prop :=
  | edited_new : edited py_strip py_int py_str json_loads new_app
  | edited_step s a :
      edited py_strip py_int py_str json_loads s →
      loads_file a = false →
      edited py_strip py_int py_str json_loads
        (perform py_strip py_int py_str json_loads a s).2.

(** A handler that reads the text of the selected road. *)
Definition reads_road_text (a : Action) : bool :=
  match a with
  | ActRemoveRoad (Some _) _ | ActUpdateRoadCost (Some _) _ _
  | ActSelectRoad (Some _) => true
  | _ => false
  end.

Definition is_redo (a : Action) : bool :=
  match a with
  | ActRedo => true
  | _ => false
  end.

(** One call of the engine on a sound state: it returns, the state stays
    sound, and the timeline keeps its entries or grows by the snapshot of
    the new state. Unless the call is a redo, the entries show what they
    showed. *)
Definition engine_step (redo : bool) (c : M CommandManager bool)
    (s : CommandManager) : Prop :=
  ∃ ok s', c s = (Ok ok, s') ∧ engine_ok s' ∧
    (history s' = history s ∨ history s' = history s ++ [snapshot s']) ∧
    (redo = false →
     shown (lists s') <$> history s = shown (lists s) <$> history s).

(** [road_item] without its name part: [" (стоимость: 5)"]. *)
Definition road_item_tail (number : string) : string :=
  " (стоимость: " +:+ number +:+ ")".

(** The fields [_deserialize_commands] subscripts for a type tag; [None]
    for a tag it does not know. *)
Definition fields_of (type : string) : option (list string) :=
  if decide (type = "AddCityCommand") then Some ["name"]
  else if decide (type = "RemoveCityCommand") then Some ["name"]
  else if decide (type = "RenameCityCommand") then Some ["old_name"; "new_name"]
  else if decide (type = "AddRoadCommand") then Some ["city1"; "city2"; "cost"]
  else if decide (type = "RemoveRoadCommand") then Some ["city1"; "city2"; "cost"]
  else if decide (type = "UpdateRoadCommand")
       then Some ["city1"; "city2"; "old_cost"; "new_cost"]
  else None.

(** A command record that is not an object, has no type tag or one that is
    not known, or lacks a field of its type. *)
Definition skipped_record (v : json) : Prop :=
  match v with
  | JDict d =>
      match dict_get "type" d with
      | Some (JStr type) =>
          match fields_of type with
          | Some fields => ∃ field, field ∈ fields ∧ dict_get field d = None
          | None => True
          end
      | _ => True
      end
  | _ => True
  end.

(** The commands of a run that gives them with the data they were read
    from. *)
Definition commands_of {A B} (c : M heap (A * B)) : M heap A :=
  result ← c;
  ret result.1.

(** [_deserialize_commands] on the items it iterates over. *)
Definition rebuilt (items : list json) : M heap (list CommandRef) :=
  results ← map_m deserialize_command items;
  ret (omap fst results).

(** The body of the loop of the legacy branch of [from_dict]. *)
Definition load_legacy_city (item : string * json) : M CityMap unit :=
  setitem item.1 [];;
  match item.2 with
  | JDict neighbors => load_neighbors item.1 neighbors
  | _ => ret tt
  end.

(** The version tag [from_dict] finds in a document. *)
Definition doc_version (d : dict json) : json :=
  from_option id (JStr "1.0") (dict_get "_version" d).

(** The commands data a history entry holds under [key]. *)
Definition entry_commands (key : string) (fields : dict json) : json :=
  from_option id (JList []) (dict_get key fields).

(** The timeline [h] once its entry at [index] holds [data] under [key]:
    what [hold] does to the timeline. *)
Definition linked (index : Z) (key : string) (data : hval) (h : list hval)
  : list hval :=
  alter (hold_field key data) (py_position (length h) index) h.

(** * Properties *)

Example scenario1 :
  let m := snd ((add_city "X";; add_city "Y";; add_road "X" "Y" 5;;
                 add_road "X" "Y" 5) empty_map) in
  get_roads_from_city "X" m = [("Y", [5; 5]%Z)].
Proof. vm_compute. reflexivity. Qed.

Section dict_facts.
Context {V : Type}.
Implicit Types (d : dict V) (k : string) (v : V).

Lemma dict_get_set k k' v d :
  dict_get k (dict_set k' v d) = if decide (k = k') then Some v else dict_get k d.
Proof.
  induction d as [|[k0 v0] d IH]; simpl.
  - by repeat case_decide.
  - repeat (case_decide; simpl; subst); try done.
Qed.

Lemma dict_get_del k k' d :
  dict_get k (dict_del k' d) = if decide (k = k') then None else dict_get k d.
Proof.
  induction d as [|[k0 v0] d IH]; simpl.
  - by case_decide.
  - repeat (case_decide; simpl; subst); try done.
Qed.

Lemma dict_get_map_values (f : V → V) k d :
  dict_get k (dict_map_values f d) = f <$> dict_get k d.
Proof.
  induction d as [|[k0 v0] d IH]; simpl; [done|].
  by case_decide.
Qed.

Lemma dict_mem_true k d : dict_mem k d = true ↔ is_Some (dict_get k d).
Proof.
  unfold dict_mem. destruct (dict_get k d); split; eauto; try done.
Qed.

Lemma dict_mem_false k d : dict_mem k d = false ↔ dict_get k d = None.
Proof. unfold dict_mem. by destruct (dict_get k d). Qed.

Lemma dict_get_Some_keys k v d : dict_get k d = Some v → k ∈ dict_keys d.
Proof.
  induction d as [|[k0 v0] d IH]; simpl; [done|].
  case_decide; subst; [intros; left | right; auto].
Qed.

Lemma dict_get_None_keys k d : dict_get k d = None ↔ k ∉ dict_keys d.
Proof.
  induction d as [|[k0 v0] d IH]; simpl.
  - split; [intros _; apply not_elem_of_nil | done].
  - rewrite not_elem_of_cons. case_decide; subst; [split; [done|tauto]|].
    rewrite IH. tauto.
Qed.
End dict_facts.

Section primitive_runs.
Implicit Types (m : CityMap) (a b : string) (l : list Z).

Lemma bind_run {S A B} (c : M S A) (f : A → M S B) (s : S) :
  bind c f s = match c s with
               | (Ok x, s') => f x s'
               | (Raised e, s') => (Raised e, s')
               end.
Proof. reflexivity. Qed.

Lemma modify_run {S} (f : S → S) (s : S) : modify f s = (Ok tt, f s).
Proof. reflexivity. Qed.

Lemma delitem_run a m :
  delitem a m = if dict_mem a m then (Ok tt, dict_del a m)
                else (Raised KeyError, m).
Proof. unfold delitem, bind, get_st. by destruct (dict_mem a m). Qed.

Lemma has_city_run a m : has_city a m = (Ok (dict_mem a m), m).
Proof. reflexivity. Qed.

Lemma getitem_run a m :
  getitem a m = match dict_get a m with
                | Some d => (Ok d, m)
                | None => (Raised KeyError, m)
                end.
Proof. unfold getitem, bind, get_st. by destruct (dict_get a m). Qed.

Lemma getitem2_run a b m :
  getitem2 a b m = match costs_from m a b with
                   | Some l => (Ok l, m)
                   | None => (Raised KeyError, m)
                   end.
Proof.
  unfold getitem2, costs_from. rewrite bind_run, getitem_run.
  destruct (dict_get a m) as [d|]; simpl; [|done].
  by destruct (dict_get b d).
Qed.

Lemma setitem2_run a b l m :
  setitem2 a b l m = if dict_mem a m
                     then (Ok tt, upd2 a b (Some l) m)
                     else (Raised KeyError, m).
Proof.
  unfold setitem2, upd2, dict_mem. rewrite bind_run, getitem_run.
  by destruct (dict_get a m).
Qed.

Lemma costs_from_Some_mem a b l m :
  costs_from m a b = Some l → dict_mem a m = true.
Proof.
  unfold costs_from, dict_mem. by destruct (dict_get a m).
Qed.

Lemma delitem2_run a b m :
  delitem2 a b m = match costs_from m a b with
                   | Some _ => (Ok tt, upd2 a b None m)
                   | None => (Raised KeyError, m)
                   end.
Proof.
  unfold delitem2, upd2, costs_from, dict_mem. rewrite bind_run, getitem_run.
  destruct (dict_get a m) as [d|]; simpl; [|done].
  by destruct (dict_get b d).
Qed.

Lemma append2_run a b c m :
  append2 a b c m = match costs_from m a b with
                    | Some l => (Ok tt, upd2 a b (Some (l ++ [c])) m)
                    | None => (Raised KeyError, m)
                    end.
Proof.
  unfold append2. rewrite bind_run, getitem2_run.
  destruct (costs_from m a b) eqn:E; [|done].
  rewrite setitem2_run. by rewrite (costs_from_Some_mem _ _ _ _ E).
Qed.

Lemma remove2_run a b c m :
  remove2 a b c m = match costs_from m a b with
                    | Some l =>
                        match py_remove c l with
                        | Some l' => (Ok tt, upd2 a b (Some l') m)
                        | None => (Raised ValueError, m)
                        end
                    | None => (Raised KeyError, m)
                    end.
Proof.
  unfold remove2. rewrite bind_run, getitem2_run.
  destruct (costs_from m a b) eqn:E; [|done].
  destruct (py_remove c l); [|done].
  rewrite setitem2_run. by rewrite (costs_from_Some_mem _ _ _ _ E).
Qed.

Lemma setindex2_run a b i c m :
  setindex2 a b i c m = match costs_from m a b with
                        | Some l =>
                            if bool_decide (i < length l)%nat
                            then (Ok tt, upd2 a b (Some (<[i := c]> l)) m)
                            else (Raised IndexError, m)
                        | None => (Raised KeyError, m)
                        end.
Proof.
  unfold setindex2. rewrite bind_run, getitem2_run.
  destruct (costs_from m a b) eqn:E; [|done].
  case_bool_decide; [|done].
  rewrite setitem2_run. by rewrite (costs_from_Some_mem _ _ _ _ E).
Qed.

Lemma dict_mem_upd2 a b v m x : dict_mem x (upd2 a b v m) = dict_mem x m.
Proof.
  unfold upd2, dict_mem. destruct (dict_get a m) eqn:E; [|done].
  rewrite dict_get_set. case_decide; subst; by rewrite ?E.
Qed.

Lemma costs_from_upd2 a b v m x y :
  costs_from (upd2 a b v m) x y =
    if decide (slot a b x y) then (if dict_mem a m then v else None)
    else costs_from m x y.
Proof.
  unfold upd2, costs_from, dict_mem, slot.
  destruct (dict_get a m) as [d|] eqn:E; simpl.
  - rewrite dict_get_set. destruct (decide (x = a)) as [->|]; simpl.
    + rewrite E. simpl. destruct v; rewrite ?dict_get_set, ?dict_get_del;
        repeat case_decide; naive_solver.
    + case_decide; naive_solver.
  - case_decide as H; [|done]. destruct H as [-> ->]. by rewrite E.
Qed.
End primitive_runs.

Ltac run_hyp :=
  match goal with
  | H : costs_from _ _ _ = _ |- _ => rewrite H
  | H : dict_mem _ _ = _ |- _ => rewrite H
  | H : py_remove _ _ = _ |- _ => rewrite H
  | H : py_index _ _ = _ |- _ => rewrite H
  | H : py_in _ _ = _ |- _ => rewrite H
  end.

Ltac run :=
  repeat (first
    [ rewrite bind_run | rewrite has_city_run | rewrite getitem2_run
    | rewrite modify_run | rewrite delitem_run
    | rewrite setitem2_run | rewrite delitem2_run | rewrite append2_run
    | rewrite remove2_run | rewrite setindex2_run | rewrite costs_from_upd2
    | rewrite dict_mem_upd2 | run_hyp
    | rewrite decide_True by (unfold slots, slot; naive_solver)
    | rewrite decide_False by (unfold slots, slot; naive_solver) ];
    simpl).

Lemma getitem_mem_run a b m :
  dict_mem a m = true →
  ∃ d, getitem a m = (Ok d, m) ∧ dict_mem b d = bool_decide (is_Some (costs_from m a b)).
Proof.
  unfold dict_mem, costs_from. rewrite getitem_run.
  destruct (dict_get a m) as [d|]; [|done]. simpl. eexists; split; [done|].
  destruct (dict_get b d); by rewrite ?bool_decide_true, ?bool_decide_false
    by (try apply is_Some_None; eauto).
Qed.

Lemma add_road_ok m a b c :
  sym m → a ≠ b → dict_mem a m = true → dict_mem b m = true →
  ∃ m', add_road a b c m = (Ok true, m') ∧ same_cities m m' ∧
    ∀ x y, costs_from m' x y =
      if decide (slots a b x y)
      then Some (default [] (costs_from m a b) ++ [c])
      else costs_from m x y.
Proof.
  intros Hs Hab Ha Hb. unfold add_road. run.
  destruct (getitem_mem_run a b m Ha) as (d & -> & ->). simpl.
  pose proof (Hs b a) as Hba.
  destruct (costs_from m a b) as [l|] eqn:E; simpl; run.
  - eexists. split; [done|]. split; [intros x; by run|].
    intros x y. run. unfold slots, slot. repeat case_decide; naive_solver.
  - eexists. split; [done|]. split; [intros x; by run|].
    intros x y. run. unfold slots, slot. repeat case_decide; naive_solver.
Qed.

(** Which slots a computation can write. *)
Section touches.
Context {A : Type}.
Implicit Types (P : string → string → Prop) (c : M CityMap A).

Lemma touches_ret P (x : A) : touches P (ret x).
Proof. done. Qed.

Lemma touches_raise P e : touches P (raise e : M CityMap A).
Proof. done. Qed.

Lemma touches_bind {B} P (c : M CityMap B) (f : B → M CityMap A) :
  touches P c → (∀ x, touches P (f x)) → touches P (bind c f).
Proof.
  intros Hc Hf m. rewrite bind_run. specialize (Hc m).
  destruct (c m) as [[x|e] m1]; simpl in *; [|done].
  destruct Hc as [Hc1 Hc2], (Hf x m1) as [Hf1 Hf2]. split.
  - intros y. by rewrite Hf1.
  - intros y z Hyz. by rewrite Hf2, Hc2.
Qed.
End touches.

Lemma touches_has_city P a : touches P (has_city a).
Proof. done. Qed.

Lemma touches_getitem P a : touches P (getitem a).
Proof. intros m. rewrite getitem_run. by destruct (dict_get a m). Qed.

Lemma touches_getitem2 P a b : touches P (getitem2 a b).
Proof. intros m. rewrite getitem2_run. by destruct (costs_from m a b). Qed.

Lemma touches_upd2 a b v m :
  same_cities m (upd2 a b v m) ∧ frame (slots a b) m (upd2 a b v m).
Proof.
  split; [intros x; apply dict_mem_upd2|].
  intros x y Hxy. rewrite costs_from_upd2.
  rewrite decide_False; [done|]. unfold slots in Hxy. tauto.
Qed.

Lemma touches_upd2_flip a b v m :
  same_cities m (upd2 b a v m) ∧ frame (slots a b) m (upd2 b a v m).
Proof.
  split; [intros x; apply dict_mem_upd2|].
  intros x y Hxy. rewrite costs_from_upd2.
  rewrite decide_False; [done|]. unfold slots in Hxy. tauto.
Qed.

Ltac touches_prim :=
  let m := fresh "m" in
  intros m;
  rewrite ?setitem2_run, ?delitem2_run, ?append2_run, ?remove2_run,
    ?setindex2_run;
  repeat case_match; simpl;
  first [ done | apply touches_upd2 | apply touches_upd2_flip ].

Lemma touches_setitem2 a b l : touches (slots a b) (setitem2 a b l).
Proof. touches_prim. Qed.
Lemma touches_setitem2_flip a b l : touches (slots a b) (setitem2 b a l).
Proof. touches_prim. Qed.
Lemma touches_delitem2 a b : touches (slots a b) (delitem2 a b).
Proof. touches_prim. Qed.
Lemma touches_delitem2_flip a b : touches (slots a b) (delitem2 b a).
Proof. touches_prim. Qed.
Lemma touches_append2 a b c : touches (slots a b) (append2 a b c).
Proof. touches_prim. Qed.
Lemma touches_append2_flip a b c : touches (slots a b) (append2 b a c).
Proof. touches_prim. Qed.
Lemma touches_remove2 a b c : touches (slots a b) (remove2 a b c).
Proof. touches_prim. Qed.
Lemma touches_remove2_flip a b c : touches (slots a b) (remove2 b a c).
Proof. touches_prim. Qed.
Lemma touches_setindex2 a b i c : touches (slots a b) (setindex2 a b i c).
Proof. touches_prim. Qed.
Lemma touches_setindex2_flip a b i c : touches (slots a b) (setindex2 b a i c).
Proof. touches_prim. Qed.

Create HintDb touches discriminated.
#[local] Hint Resolve touches_ret touches_raise touches_has_city
  touches_getitem touches_getitem2 touches_setitem2 touches_setitem2_flip
  touches_delitem2 touches_delitem2_flip touches_append2 touches_append2_flip
  touches_remove2 touches_remove2_flip touches_setindex2
  touches_setindex2_flip : touches.

Ltac touches_auto :=
  repeat first
    [ solve [eauto with touches]
    | apply touches_bind; [|intros ?]
    | match goal with
      | |- touches _ (if ?x then _ else _) => destruct x
      | |- touches _ (match ?x with _ => _ end) => destruct x
      end ].

Lemma touches_add_road a b c : touches (slots a b) (add_road a b c).
Proof. unfold add_road. touches_auto. Qed.

Lemma touches_remove_road a b cost : touches (slots a b) (remove_road a b cost).
Proof. unfold remove_road. touches_auto. Qed.

Lemma touches_update_road_cost a b old new :
  touches (slots a b) (update_road_cost a b old new).
Proof. unfold update_road_cost. touches_auto. Qed.

Lemma sym_frame_loop a m m' : sym m → frame (slots a a) m m' → sym m'.
Proof.
  intros Hs Hf x y. destruct (decide (x = a ∧ y = a)) as [[-> ->]|Hne]; [done|].
  rewrite !Hf by (unfold slots, slot; naive_solver). apply Hs.
Qed.

(** Python list primitives. *)
Lemma py_in_true c l : py_in c l = true ↔ c ∈ l.
Proof. unfold py_in. apply bool_decide_eq_true. Qed.

Lemma py_in_false c l : py_in c l = false ↔ c ∉ l.
Proof. unfold py_in. apply bool_decide_eq_false. Qed.

Lemma py_remove_is_Some c l : c ∈ l → is_Some (py_remove c l).
Proof.
  induction l as [|y l IH]; simpl; [by intros ?%elem_of_nil|].
  intros [->|Hin]%elem_of_cons.
  - rewrite decide_True by done. eauto.
  - destruct (decide (c = y)); [eauto|].
    destruct (IH Hin) as [l' ->]. simpl. eauto.
Qed.

Lemma py_remove_None c l : c ∉ l → py_remove c l = None.
Proof.
  induction l as [|y l IH]; simpl; [done|].
  intros [Hne Hnin]%not_elem_of_cons.
  rewrite decide_False by done. by rewrite IH.
Qed.

Lemma py_remove_perm c l l' : py_remove c l = Some l' → l ≡ₚ c :: l'.
Proof.
  revert l'. induction l as [|y l IH]; simpl; [done|]. intros l'.
  destruct (decide (c = y)) as [->|Hne]; [by intros [= ->]|].
  destruct (py_remove c l) as [l0|]; simpl; [|done].
  intros [= <-]. rewrite (IH l0 eq_refl). apply perm_swap.
Qed.

Lemma py_remove_app_fresh c l : c ∉ l → py_remove c (l ++ [c]) = Some l.
Proof.
  induction l as [|y l IH]; simpl.
  - by rewrite decide_True.
  - intros [Hne Hnin]%not_elem_of_cons. rewrite decide_False by done.
    by rewrite IH.
Qed.

Lemma py_index_is_Some c l : c ∈ l → is_Some (py_index c l).
Proof.
  induction l as [|y l IH]; simpl; [by intros ?%elem_of_nil|].
  intros [->|Hin]%elem_of_cons.
  - rewrite decide_True by done. eauto.
  - destruct (decide (c = y)); [eauto|].
    destruct (IH Hin) as [i ->]. simpl. eauto.
Qed.

Lemma py_index_lookup c l i : py_index c l = Some i → l !! i = Some c.
Proof.
  revert i. induction l as [|y l IH]; simpl; [done|]. intros i.
  destruct (decide (c = y)) as [->|Hne]; [by intros [= <-]|].
  destruct (py_index c l) as [j|]; simpl; [|done].
  intros [= <-]. simpl. by apply IH.
Qed.

Lemma py_index_lt c l i : py_index c l = Some i → (i < length l)%nat.
Proof. intros H%py_index_lookup. by eapply lookup_lt_Some. Qed.

Lemma add_city_run n m :
  add_city n m =
    if dict_mem n m then (Ok false, m) else (Ok true, dict_set n [] m).
Proof. unfold add_city. run. by destruct (dict_mem n m). Qed.

Lemma remove_city_run n m :
  remove_city n m =
    if dict_mem n m
    then (Ok true, dict_del n (dict_map_values (drop_neighbor n) m))
    else (Ok false, m).
Proof.
  unfold remove_city. run. destruct (dict_mem n m) eqn:E; simpl; [|done].
  unfold for_each_city. run.
  replace (dict_mem n (dict_map_values _ m)) with true; [done|].
  unfold dict_mem in *. rewrite dict_get_map_values.
  by destruct (dict_get n m).
Qed.

Lemma rename_city_run o n m :
  rename_city o n m =
    match dict_get o m with
    | Some d =>
        if dict_mem n m then (Ok false, m)
        else (Ok true, dict_map_values (rename_neighbor o n)
                         (dict_set n d (dict_del o m)))
    | None => (Ok false, m)
    end.
Proof.
  unfold rename_city. run. unfold dict_mem at 1.
  destruct (dict_get o m) as [d|] eqn:E; simpl; [|done].
  destruct (dict_mem n m); simpl; [done|].
  unfold popitem. run. rewrite getitem_run, E. simpl. run.
  unfold dict_mem. by rewrite E.
Qed.

Lemma dict_mem_set {V} (k k' : string) (v : V) d :
  dict_mem k (dict_set k' v d) = bool_decide (k = k') || dict_mem k d.
Proof.
  unfold dict_mem. rewrite dict_get_set.
  case_decide; by rewrite ?bool_decide_true, ?bool_decide_false by done.
Qed.

Lemma dict_mem_del {V} (k k' : string) (d : dict V) :
  dict_mem k (dict_del k' d) = bool_decide (k ≠ k') && dict_mem k d.
Proof.
  unfold dict_mem. rewrite dict_get_del.
  case_decide; by rewrite ?bool_decide_true, ?bool_decide_false by naive_solver.
Qed.

Lemma dict_mem_map_values {V} (f : V → V) k (d : dict V) :
  dict_mem k (dict_map_values f d) = dict_mem k d.
Proof. unfold dict_mem. rewrite dict_get_map_values. by destruct (dict_get k d). Qed.

Lemma costs_from_add_city n m x y :
  costs_from (dict_set n [] m) x y =
    if decide (x = n) then None else costs_from m x y.
Proof. unfold costs_from. rewrite dict_get_set. by case_decide. Qed.

Lemma costs_from_remove_city n m x y :
  costs_from (dict_del n (dict_map_values (drop_neighbor n) m)) x y =
    if decide (x = n ∨ y = n) then None else costs_from m x y.
Proof.
  unfold costs_from. rewrite dict_get_del, dict_get_map_values.
  destruct (decide (x = n)) as [->|Hx]; [by rewrite decide_True by auto|].
  destruct (dict_get x m) as [d|]; simpl; [|by case_decide].
  unfold drop_neighbor, dict_mem.
  destruct (dict_get n d) eqn:E; rewrite ?dict_get_del;
    repeat case_decide; naive_solver.
Qed.

Lemma costs_from_rename_neighbor o n d y :
  dict_get y (rename_neighbor o n d) =
    match dict_get o d with
    | Some l => if decide (y = n) then Some l
                else if decide (y = o) then None else dict_get y d
    | None => dict_get y d
    end.
Proof.
  unfold rename_neighbor. destruct (dict_get o d); [|done].
  rewrite dict_get_set, dict_get_del. done.
Qed.

Lemma rename_neighbor_get o n dx y :
  o ≠ n → dict_get n dx = None →
  dict_get y (rename_neighbor o n dx) =
    if decide (y = o) then None else dict_get (unrename o n y) dx.
Proof.
  intros Hon Hn. rewrite costs_from_rename_neighbor. unfold unrename.
  destruct (dict_get o dx) as [l|] eqn:E;
    repeat case_decide; subst; congruence.
Qed.

Lemma costs_from_rename_city o n d m x y :
  sym m → dict_get o m = Some d → dict_mem n m = false →
  costs_from (dict_map_values (rename_neighbor o n) (dict_set n d (dict_del o m))) x y =
    if decide (x = o ∨ y = o) then None
    else costs_from m (unrename o n x) (unrename o n y).
Proof.
  intros Hs Ho Hn. apply dict_mem_false in Hn.
  assert (o ≠ n) as Hon by (intros ->; congruence).
  assert (∀ z, costs_from m z n = None) as Hzn.
  { intros z. rewrite Hs. unfold costs_from. by rewrite Hn. }
  destruct (decide (x = o)) as [->|Hxo].
  { rewrite decide_True by auto. unfold costs_from.
    rewrite dict_get_map_values, dict_get_set, dict_get_del.
    by rewrite decide_False, decide_True by done. }
  assert (dict_get x (dict_set n d (dict_del o m)) = dict_get (unrename o n x) m)
    as Hx.
  { rewrite dict_get_set, dict_get_del. unfold unrename.
    destruct (decide (x = n)); [done|]. by rewrite decide_False. }
  unfold costs_from at 1. rewrite dict_get_map_values, Hx.
  pose proof (Hzn (unrename o n x)) as Hxn. unfold costs_from in *.
  destruct (dict_get (unrename o n x) m) as [dx|]; simpl in *.
  - rewrite rename_neighbor_get by done.
    destruct (decide (y = o)) as [->|]; [by rewrite decide_True by auto|].
    by rewrite decide_False by naive_solver.
  - by case_decide.
Qed.

(** Road operations on a symmetric map, between two distinct cities. *)
Lemma sym_mem_r m a b l : sym m → costs_from m a b = Some l → dict_mem b m = true.
Proof. intros Hs E. rewrite Hs in E. by eapply costs_from_Some_mem. Qed.

Lemma add_road_missing a b c m :
  dict_mem a m && dict_mem b m = false → add_road a b c m = (Ok false, m).
Proof.
  intros H. unfold add_road. run.
  by destruct (dict_mem a m), (dict_mem b m).
Qed.

Lemma remove_road_missing a b cost m :
  dict_mem a m && dict_mem b m = false ∨ costs_from m a b = None →
  remove_road a b cost m = (Ok false, m).
Proof.
  intros H. unfold remove_road. run.
  destruct (dict_mem a m) eqn:Ha; simpl; [|done].
  destruct (dict_mem b m) eqn:Hb; simpl; [|done].
  destruct H as [?|H]; [done|].
  rewrite bind_run. destruct (getitem_mem_run a b m Ha) as (d & -> & ->).
  simpl. rewrite H. by rewrite bool_decide_false by apply is_Some_None.
Qed.

Lemma update_road_cost_missing a b old new m :
  dict_mem a m && dict_mem b m = false ∨ costs_from m a b = None ∨
    (∃ l, costs_from m a b = Some l ∧ old ∉ l) →
  update_road_cost a b old new m = (Ok false, m).
Proof.
  intros H. unfold update_road_cost. run.
  destruct (dict_mem a m) eqn:Ha; simpl; [|done].
  destruct (dict_mem b m) eqn:Hb; simpl; [|done].
  rewrite bind_run. destruct (getitem_mem_run a b m Ha) as (d & -> & ->).
  simpl. destruct H as [?|[H|(l & H & Hl)]]; [done| |].
  - rewrite H. by rewrite bool_decide_false by apply is_Some_None.
  - rewrite H. rewrite bool_decide_true by eauto. simpl. run.
    apply py_in_false in Hl. by rewrite Hl.
Qed.

Lemma remove_road_all_ok m a b l :
  sym m → a ≠ b → costs_from m a b = Some l →
  ∃ m', remove_road a b None m = (Ok true, m') ∧ same_cities m m' ∧
    ∀ x y, costs_from m' x y =
      if decide (slots a b x y) then None else costs_from m x y.
Proof.
  intros Hs Hab E.
  pose proof (costs_from_Some_mem _ _ _ _ E) as Ha.
  pose proof (sym_mem_r _ _ _ _ Hs E) as Hb.
  pose proof E as E'. rewrite Hs in E'.
  unfold remove_road. run.
  destruct (getitem_mem_run a b m Ha) as (d & -> & ->). simpl.
  rewrite E. rewrite bool_decide_true by eauto. simpl. run.
  eexists. split; [done|]. split; [intros x; by run|].
  intros x y. run. unfold slots, slot. repeat case_decide; naive_solver.
Qed.

Lemma remove_road_absent m a b l c :
  dict_mem b m = true → costs_from m a b = Some l → c ∉ l →
  remove_road a b (Some c) m = (Ok true, m).
Proof.
  intros Hb E Hc.
  pose proof (costs_from_Some_mem _ _ _ _ E) as Ha.
  unfold remove_road. run.
  destruct (getitem_mem_run a b m Ha) as (d & -> & ->). simpl.
  rewrite E. rewrite bool_decide_true by eauto. simpl. run.
  apply py_in_false in Hc. by rewrite Hc.
Qed.

Lemma remove_road_present m a b l l' c :
  sym m → a ≠ b → costs_from m a b = Some l → py_remove c l = Some l' →
  ∃ m', remove_road a b (Some c) m = (Ok true, m') ∧ same_cities m m' ∧
    ∀ x y, costs_from m' x y =
      if decide (slots a b x y)
      then (if decide (l' = []) then None else Some l')
      else costs_from m x y.
Proof.
  intros Hs Hab E Hr.
  pose proof (costs_from_Some_mem _ _ _ _ E) as Ha.
  pose proof (sym_mem_r _ _ _ _ Hs E) as Hb.
  pose proof E as E'. rewrite Hs in E'.
  assert (py_in c l = true) as Hin.
  { apply py_in_true. destruct (decide (c ∈ l)) as [|Hn]; [done|].
    apply py_remove_None in Hn. congruence. }
  unfold remove_road. run.
  destruct (getitem_mem_run a b m Ha) as (d & -> & ->). simpl.
  rewrite E. rewrite bool_decide_true by eauto. simpl. run.
  destruct l' as [|z l']; simpl; run.
  - eexists. split; [done|]. split; [intros x; by run|].
    intros x y. run. unfold slots, slot. repeat case_decide; naive_solver.
  - eexists. split; [done|]. split; [intros x; by run|].
    intros x y. run. unfold slots, slot. repeat case_decide; naive_solver.
Qed.

Lemma update_road_cost_ok m a b l i old new :
  sym m → a ≠ b → costs_from m a b = Some l → py_index old l = Some i →
  ∃ m', update_road_cost a b old new m = (Ok true, m') ∧ same_cities m m' ∧
    ∀ x y, costs_from m' x y =
      if decide (slots a b x y) then Some (<[i := new]> l)
      else costs_from m x y.
Proof.
  intros Hs Hab E Hi.
  pose proof (costs_from_Some_mem _ _ _ _ E) as Ha.
  pose proof (sym_mem_r _ _ _ _ Hs E) as Hb.
  pose proof E as E'. rewrite Hs in E'.
  pose proof (py_index_lt _ _ _ Hi) as Hlt.
  assert (py_in old l = true) as Hin.
  { apply py_in_true. apply py_index_lookup in Hi.
    by eapply list_elem_of_lookup_2. }
  unfold update_road_cost. run.
  destruct (getitem_mem_run a b m Ha) as (d & -> & ->). simpl.
  rewrite E. rewrite bool_decide_true by eauto. simpl. run.
  rewrite (bool_decide_eq_true_2 _ Hlt). simpl. run.
  rewrite (bool_decide_eq_true_2 _ Hlt). simpl.
  eexists. split; [done|]. split; [intros x; by run|].
  intros x y. run. unfold slots, slot. repeat case_decide; naive_solver.
Qed.

(** Every operation of the graph store keeps the map symmetric. *)
Lemma slots_flip a b x y : slots a b x y ↔ slots a b y x.
Proof. unfold slots, slot. tauto. Qed.

Lemma sym_slots_view m m' a b v :
  sym m →
  (∀ x y, costs_from m' x y =
     if decide (slots a b x y) then v else costs_from m x y) →
  sym m'.
Proof.
  intros Hs Hv x y. rewrite !Hv.
  destruct (decide (slots a b x y)) as [H|H].
  - by rewrite decide_True by by apply slots_flip.
  - rewrite decide_False by by rewrite slots_flip. apply Hs.
Qed.

Lemma sym_empty : sym empty_map.
Proof. done. Qed.

Lemma sym_add_city n m : sym m → sym (add_city n m).2.
Proof.
  intros Hs. rewrite add_city_run. destruct (dict_mem n m) eqn:E; [done|].
  apply dict_mem_false in E. simpl. intros x y. rewrite !costs_from_add_city.
  assert (∀ z, costs_from m z n = None) as Hzn.
  { intros z. rewrite Hs. unfold costs_from. by rewrite E. }
  repeat case_decide; subst; rewrite ?Hzn; try done.
Qed.

Lemma sym_remove_city n m : sym m → sym (remove_city n m).2.
Proof.
  intros Hs. rewrite remove_city_run. destruct (dict_mem n m); [|done].
  simpl. intros x y. rewrite !costs_from_remove_city.
  repeat case_decide; try done; try tauto; apply Hs.
Qed.

Lemma sym_rename_city o n m : sym m → sym (rename_city o n m).2.
Proof.
  intros Hs. rewrite rename_city_run.
  destruct (dict_get o m) as [d|] eqn:Eo; [|done].
  destruct (dict_mem n m) eqn:En; [done|]. simpl.
  intros x y. rewrite !(costs_from_rename_city o n d m) by done.
  repeat case_decide; try done; try tauto; apply Hs.
Qed.

Lemma sym_add_road a b c m : sym m → sym (add_road a b c m).2.
Proof.
  intros Hs. destruct (decide (a = b)) as [->|Hab].
  { eapply sym_frame_loop; [done|]. apply touches_add_road. }
  destruct (dict_mem a m && dict_mem b m) eqn:E.
  - apply andb_true_iff in E as [Ha Hb].
    destruct (add_road_ok m a b c Hs Hab Ha Hb) as (m' & -> & _ & Hv).
    by eapply sym_slots_view.
  - by rewrite add_road_missing.
Qed.

Lemma sym_remove_road a b cost m : sym m → sym (remove_road a b cost m).2.
Proof.
  intros Hs. destruct (decide (a = b)) as [->|Hab].
  { eapply sym_frame_loop; [done|]. apply touches_remove_road. }
  destruct (costs_from m a b) as [l|] eqn:E; [|by rewrite remove_road_missing by auto].
  destruct cost as [c|].
  - destruct (decide (c ∈ l)) as [Hc|Hc].
    + destruct (py_remove_is_Some _ _ Hc) as [l' Hl'].
      destruct (remove_road_present m a b l l' c Hs Hab E Hl') as (m' & -> & _ & Hv).
      by eapply sym_slots_view.
    + rewrite (remove_road_absent m a b l c); eauto using sym_mem_r.
  - destruct (remove_road_all_ok m a b l Hs Hab E) as (m' & -> & _ & Hv).
    by eapply sym_slots_view.
Qed.

Lemma sym_update_road_cost a b old new m :
  sym m → sym (update_road_cost a b old new m).2.
Proof.
  intros Hs. destruct (decide (a = b)) as [->|Hab].
  { eapply sym_frame_loop; [done|]. apply touches_update_road_cost. }
  destruct (costs_from m a b) as [l|] eqn:E;
    [|by rewrite update_road_cost_missing by auto].
  destruct (decide (old ∈ l)) as [Hc|Hc].
  - destruct (py_index_is_Some _ _ Hc) as [i Hi].
    destruct (update_road_cost_ok m a b l i old new Hs Hab E Hi) as (m' & -> & _ & Hv).
    by eapply sym_slots_view.
  - rewrite update_road_cost_missing; [done|]. right; right. eauto.
Qed.

Lemma sym_run_op op m : sym m → sym (run_op op m).2.
Proof.
  destruct op; simpl;
    auto using sym_add_city, sym_remove_city, sym_rename_city, sym_add_road,
      sym_remove_road, sym_update_road_cost.
Qed.

Lemma reachable_sym m : reachable m → sym m.
Proof. induction 1; auto using sym_empty, sym_run_op. Qed.

(** Claim C9. In every state reachable from the empty map by graph store
    operations (whether an operation returned or raised), the cost list
    stored under [a → b] is the cost list stored under [b → a], position
    for position, and one entry exists exactly when the other does. This is
    what lets [update_road_cost] reuse the index found in one direction. *)
Theorem reachable_costs_ordered_symmetric m a b :
  reachable m → costs_from m a b = costs_from m b a.
Proof. intros Hr. by apply reachable_sym. Qed.

(** Claim C1. Symmetry invariant: in every state reachable by a sequence of
    graph store operations, the entry [a → b] exists iff [b → a] exists, and
    the two cost lists are equal as multisets. *)
Theorem reachable_costs_symmetric m a b :
  reachable m →
  (is_Some (costs_from m a b) ↔ is_Some (costs_from m b a)) ∧
  (∀ la lb, costs_from m a b = Some la → costs_from m b a = Some lb → la ≡ₚ lb).
Proof.
  intros Hs%reachable_sym. rewrite (Hs a b). split; [done|].
  intros la lb Ha Hb. by simplify_eq.
Qed.

Lemma add_city_false n m m' : add_city n m = (Ok false, m') → m' = m.
Proof. rewrite add_city_run. by destruct (dict_mem n m); intros [= <-]. Qed.

Lemma remove_city_false n m m' : remove_city n m = (Ok false, m') → m' = m.
Proof. rewrite remove_city_run. by destruct (dict_mem n m); intros [= <-]. Qed.

Lemma rename_city_false o n m m' : rename_city o n m = (Ok false, m') → m' = m.
Proof.
  rewrite rename_city_run.
  by destruct (dict_get o m), (dict_mem n m); intros [= <-].
Qed.

Lemma never_false_ret {S} : never_false (ret true : M S bool).
Proof. by intros s s'. Qed.

Lemma never_false_raise {S} e : never_false (raise e : M S bool).
Proof. by intros s s'. Qed.

Lemma never_false_bind {S A} (c : M S A) (f : A → M S bool) :
  (∀ x, never_false (f x)) → never_false (bind c f).
Proof.
  intros Hf s s'. rewrite bind_run. destruct (c s) as [[x|e] s1]; [|done].
  apply Hf.
Qed.

Ltac never_false_auto :=
  repeat first
    [ apply never_false_ret | apply never_false_raise
    | apply never_false_bind; intros ?
    | match goal with
      | |- never_false (if ?x then _ else _) => destruct x
      | |- never_false (match ?x with _ => _ end) => destruct x
      end ].

Ltac to_never_false :=
  match goal with
  | |- ?c ?s = (Ok false, ?s') → False =>
      apply (λ Hnf : never_false c, Hnf s s')
  end.

Lemma add_road_false a b c m m' : add_road a b c m = (Ok false, m') → m' = m.
Proof.
  unfold add_road. run.
  destruct (negb (dict_mem a m) || negb (dict_mem b m)); [by intros [= <-]|].
  intros H. exfalso. revert H. to_never_false. never_false_auto.
Qed.

Lemma remove_road_false a b cost m m' :
  remove_road a b cost m = (Ok false, m') → m' = m.
Proof.
  unfold remove_road. run.
  destruct (negb (dict_mem a m) || negb (dict_mem b m)); [by intros [= <-]|].
  rewrite bind_run, getitem_run. destruct (dict_get a m) as [d|]; [|done].
  simpl. destruct (negb (dict_mem b d)); [by intros [= <-]|].
  intros H. exfalso. revert H. to_never_false. never_false_auto.
Qed.

Lemma update_road_cost_false a b old new m m' :
  update_road_cost a b old new m = (Ok false, m') → m' = m.
Proof.
  unfold update_road_cost. run.
  destruct (negb (dict_mem a m) || negb (dict_mem b m)); [by intros [= <-]|].
  rewrite bind_run, getitem_run. destruct (dict_get a m) as [d|]; [|done].
  simpl. destruct (negb (dict_mem b d)); [by intros [= <-]|].
  rewrite bind_run, getitem2_run. destruct (costs_from m a b) as [l|]; [|done].
  simpl. destruct (negb (py_in old l)); [by intros [= <-]|].
  intros H. exfalso. revert H. to_never_false. never_false_auto.
Qed.

Lemma execute_false c m c' m' :
  execute c m = (Ok (false, c'), m') → m' = m ∧ c' = c.
Proof.
  destruct c; simpl; rewrite bind_run.
  - destruct (add_city name m) as [[[]|] m1] eqn:E; intros [= <- <-].
    by apply add_city_false in E.
  - rewrite has_city_run. simpl. destruct (dict_mem name m) eqn:Hn; simpl;
      [|by intros [= <- <-]].
    destruct (getitem_mem_run name name m Hn) as (d & Hd & _).
    rewrite bind_run, Hd. simpl. rewrite bind_run, remove_city_run, Hn.
    simpl. by intros [=].
  - destruct (rename_city old_name new_name m) as [[[]|] m1] eqn:E;
      intros [= <- <-]. by apply rename_city_false in E.
  - destruct (add_road city1 city2 cost m) as [[[]|] m1] eqn:E;
      intros [= <- <-]. by apply add_road_false in E.
  - destruct (remove_road city1 city2 (Some cost) m) as [[[]|] m1] eqn:E;
      intros [= <- <-]. by apply remove_road_false in E.
  - destruct (update_road_cost city1 city2 old_cost new_cost m) as [[[]|] m1] eqn:E;
      intros [= <- <-]. by apply update_road_cost_false in E.
Qed.

Lemma undo_false c m m' : undo c m = (Ok false, m') → m' = m.
Proof.
  destruct c; simpl.
  - apply remove_city_false.
  - rewrite bind_run, add_city_run. destruct (dict_mem name m); simpl;
      [by intros [= <-]|].
    intros H. exfalso. revert H. to_never_false. never_false_auto.
  - apply rename_city_false.
  - apply remove_road_false.
  - apply add_road_false.
  - apply update_road_cost_false.
Qed.

Lemma _save_state_run s :
  _save_state s =
    (Ok tt, set_index (Z.of_nat (length (kept_history s)))
              (set_history (kept_history s ++ [snapshot s]) s)).
Proof.
  unfold _save_state, kept_history. rewrite bind_run. simpl.
  destruct (current_history_index s <? Z.of_nat (length (history s)) - 1)%Z;
    simpl; repeat (first [rewrite bind_run | rewrite modify_run]; simpl);
    rewrite length_app; simpl; do 2 f_equal; unfold set_index; simpl;
    f_equal; lia.
Qed.

Lemma kept_history_length s :
  (current_history_index s < Z.of_nat (length (history s)))%Z →
  (current_history_index s < Z.of_nat (length (kept_history s)))%Z.
Proof.
  unfold kept_history, py_slice_to. intros Hlt.
  destruct (Z.ltb_spec (current_history_index s) (Z.of_nat (length (history s)) - 1));
    [|lia].
  rewrite length_take.
  destruct (Z.ltb_spec (current_history_index s + 1) 0); lia.
Qed.

Lemma kept_history_shorter s : length (kept_history s) ≤ length (history s).
Proof.
  unfold kept_history, py_slice_to.
  destruct (_ <? _)%Z; [|done]. rewrite length_take. lia.
Qed.

Lemma written_held command lists : written command (held lists command) lists = lists.
Proof.
  destruct command as [|name a| | | |]; try done. simpl. unfold roads_at.
  destruct (lists !! a) as [l|] eqn:E; simpl.
  - by apply list_insert_id.
  - apply list_insert_ge. by apply lookup_ge_None.
Qed.

Lemma execute_held_run command s :
  execute_held command s =
    match execute (held (lists s) command) (city_map s) with
    | (Ok (ok, after), m') =>
        (Ok ok, set_lists (written command after (lists s)) (set_city_map m' s))
    | (Raised e, m') => (Raised e, set_city_map m' s)
    end.
Proof.
  unfold execute_held. rewrite bind_run. cbn [get_st]. rewrite bind_run.
  unfold on_city_map at 1.
  destruct (execute (held (lists s) command) (city_map s)) as [[[ok after]|e] m'];
    [|done].
  rewrite bind_run. by destruct command, after.
Qed.

Lemma undo_held_run command s :
  undo_held command s =
    let (r, m') := undo (held (lists s) command) (city_map s) in
    (r, set_city_map m' s).
Proof. reflexivity. Qed.

(** Claim C6, amended. [execute_command]: when [command.execute()]
    succeeds, the command is pushed on the undo stack, the redo stack is
    emptied whatever it held, a snapshot of the new state is appended to the
    timeline (cut after the cursor first), the cursor moves onto that
    snapshot, and the call returns [True]. The cursor is then past its old
    position exactly when that position was below the length of the
    timeline, which a failed load can leave false. When
    [command.execute()] fails, the call returns [False] and the manager is
    unchanged. *)
Theorem execute_command_spec (command : CommandRef) (s : CommandManager) :
  (∀ after m',
     execute (held (lists s) command) (city_map s) = (Ok (true, after), m') →
     ∃ s', execute_command command s = (Ok true, s') ∧
       city_map s' = m' ∧
       lists s' = written command after (lists s) ∧
       undo_stack s' = undo_stack s ++ [command] ∧
       redo_stack s' = [] ∧
       history s' = kept_history s ++ [snapshot s'] ∧
       current_history_index s' = (Z.of_nat (length (history s')) - 1)%Z ∧
       ((current_history_index s < current_history_index s')%Z ↔
        (current_history_index s < Z.of_nat (length (history s)))%Z)) ∧
  (∀ after m',
     execute (held (lists s) command) (city_map s) = (Ok (false, after), m') →
     execute_command command s = (Ok false, s)).
Proof.
  split; intros after m' He.
  - unfold execute_command. rewrite bind_run, execute_held_run, He. simpl.
    repeat (first [rewrite bind_run | rewrite modify_run]; simpl).
    rewrite _save_state_run. simpl. eexists. split; [done|]. simpl.
    repeat split; try done.
    + rewrite length_app. simpl. lia.
    + intros Hlt. match type of Hlt with
        | context [kept_history ?x] => pose proof (kept_history_shorter x) as Hle
        end.
      simpl in Hle. lia.
    + apply kept_history_length.
  - destruct (execute_false _ _ _ _ He) as [-> ->].
    unfold execute_command. rewrite bind_run, execute_held_run, He. simpl.
    rewrite written_held. by destruct s.
Qed.

Lemma removelast_snoc {A} (l : list A) x : removelast (l ++ [x]) = l.
Proof. apply removelast_last. Qed.


Section dict_append.
Context {V : Type}.
Implicit Types (d : dict V) (k : string) (v : V).

Lemma dict_get_snoc k v d :
  k ∉ dict_keys d → dict_get k (d ++ [(k, v)]) = Some v.
Proof.
  induction d as [|[k0 v0] d IH]; simpl.
  - intros _. by rewrite decide_True.
  - intros [Hne Hnin]%not_elem_of_cons. rewrite decide_False by done. auto.
Qed.

Lemma dict_set_snoc k v v' d :
  k ∉ dict_keys d → dict_set k v' (d ++ [(k, v)]) = d ++ [(k, v')].
Proof.
  induction d as [|[k0 v0] d IH]; simpl.
  - intros _. by rewrite decide_True.
  - intros [Hne Hnin]%not_elem_of_cons. rewrite decide_False by done.
    by rewrite IH.
Qed.

Lemma dict_set_fresh k v d :
  k ∉ dict_keys d → dict_set k v d = d ++ [(k, v)].
Proof.
  induction d as [|[k0 v0] d IH]; simpl; [done|].
  intros [Hne Hnin]%not_elem_of_cons. rewrite decide_False by done.
  by rewrite IH.
Qed.

Lemma dict_keys_app d1 d2 : dict_keys (d1 ++ d2) = dict_keys d1 ++ dict_keys d2.
Proof. apply map_app. Qed.
End dict_append.

Lemma ret_run {S A} (x : A) (s : S) : ret x s = (Ok x, s).
Proof. reflexivity. Qed.

Lemma map_m_as_int {S} (l : list Z) (s : S) :
  map_m as_int (JInt <$> l) s = (Ok l, s).
Proof.
  induction l as [|x l IH]; [done|].
  rewrite fmap_cons. cbn [map_m]. rewrite bind_run. cbn [as_int].
  rewrite ret_run, bind_run, IH. done.
Qed.

Lemma as_costs_to_json {S} (l : list Z) (s : S) :
  as_costs (costs_to_json l) s = (Ok l, s).
Proof. apply map_m_as_int. Qed.

Lemma load_neighbors_nil city : load_neighbors city [] = ret tt.
Proof. reflexivity. Qed.

Lemma load_neighbors_cons city nb costs rest :
  load_neighbors city ((nb, costs) :: rest) =
    ((l ← as_costs costs; setitem2 city nb l);; load_neighbors city rest).
Proof. reflexivity. Qed.

Lemma load_neighbors_encoded city nbrs pre acc :
  city ∉ dict_keys pre → NoDup (dict_keys acc ++ dict_keys nbrs) →
  load_neighbors city (neighbors_to_json nbrs) (pre ++ [(city, acc)]) =
    (Ok tt, pre ++ [(city, acc ++ nbrs)]).
Proof.
  intros Hc. revert acc.
  induction nbrs as [|[nb l] nbrs IH]; intros acc Hnd.
  - by rewrite app_nil_r.
  - unfold neighbors_to_json. rewrite map_cons. fold (neighbors_to_json nbrs).
    cbn [fst snd]. rewrite load_neighbors_cons.
    rewrite !bind_run, as_costs_to_json.
    rewrite setitem2_run. unfold dict_mem, upd2.
    rewrite dict_get_snoc by done. rewrite dict_set_snoc by done.
    cbn [dict_keys map fst] in Hnd. pose proof Hnd as Hnd'.
    apply NoDup_app in Hnd as (Hacc & Hdisj & Hnb).
    apply NoDup_cons in Hnb as [Hnbn Hnb].
    rewrite dict_set_fresh by (intros Hin; apply (Hdisj _ Hin); left).
    rewrite IH.
    + by rewrite <- app_assoc.
    + rewrite dict_keys_app. cbn [dict_keys map fst]. by rewrite <- app_assoc.
Qed.

Lemma load_cities_encoded (m pre : CityMap) :
  NoDup (dict_keys pre ++ dict_keys m) →
  (∀ a d, (a, d) ∈ m → dict_wf d) →
  for_ (cities_to_json m) load_city pre = (Ok tt, pre ++ m).
Proof.
  revert pre. induction m as [|[city nbrs] m IH]; intros pre Hnd Hin.
  - by rewrite app_nil_r.
  - unfold cities_to_json. rewrite map_cons. fold (cities_to_json m).
    cbn [fst snd for_]. rewrite bind_run. unfold load_city at 1.
    cbn [fst snd]. rewrite bind_run. unfold setitem. rewrite modify_run.
    cbn [dict_keys map fst] in Hnd. pose proof Hnd as Hnd'.
    apply NoDup_app in Hnd as (Hpre & Hdisj & Hm).
    apply NoDup_cons in Hm as [Hcity Hm].
    assert (city ∉ dict_keys pre) as Hc.
    { intros Hx. apply (Hdisj _ Hx). left. }
    rewrite dict_set_fresh by done. rewrite bind_run. cbn [json_items].
    rewrite ret_run.
    rewrite (load_neighbors_encoded city nbrs pre []) by
      (try done; apply (Hin city); left).
    rewrite IH.
    + by rewrite <- app_assoc.
    + rewrite dict_keys_app. cbn [dict_keys map fst]. by rewrite <- app_assoc.
    + intros a d Ha. apply (Hin a). by right.
Qed.

Lemma dict_get_elem_of {V} (d : dict V) k v :
  dict_wf d → (k, v) ∈ d → dict_get k d = Some v.
Proof.
  unfold dict_wf. induction d as [|[k0 v0] d IH]; simpl.
  - by intros _ ?%elem_of_nil.
  - intros [Hk Hd]%NoDup_cons [[= -> ->]|Hin]%elem_of_cons.
    + by rewrite decide_True.
    + rewrite decide_False; [auto|]. intros ->. apply Hk.
      apply list_elem_of_fmap. by exists (k0, v).
Qed.

Lemma from_dict_safe_state (m m0 : CityMap) :
  map_wf m → from_dict (_get_safe_state m) m0 = (Ok tt, m).
Proof.
  intros [Hm Hd]. unfold from_dict, _get_safe_state.
  rewrite bind_run. cbn [json_get dict_get]. simpl.
  rewrite !bind_run, modify_run. simpl.
  change (for_ (cities_to_json m) load_city [] = (Ok tt, m)).
  rewrite load_cities_encoded; [done|done|].
  intros a d Had. apply (Hd a). by apply dict_get_elem_of.
Qed.

Lemma as_road_to_json {S} (road : string * string * list Z) (s : S) :
  as_road (road_to_json road) s = (Ok road, s).
Proof.
  destruct road as [[c1 c2] l]. unfold road_to_json, as_road. cbn [fst snd].
  unfold costs_to_json. rewrite !bind_run. cbn [as_str]. rewrite !ret_run.
  rewrite !bind_run. cbn [as_str]. rewrite !ret_run, !bind_run.
  by rewrite map_m_as_int.
Qed.

Lemma map_m_as_road {S} (roads : list (string * string * list Z)) (s : S) :
  map_m as_road (road_to_json <$> roads) s = (Ok roads, s).
Proof.
  induction roads as [|r roads IH]; [done|].
  rewrite fmap_cons. cbn [map_m]. rewrite bind_run, as_road_to_json.
  rewrite bind_run, IH. done.
Qed.

Lemma modify_run_heap (f : heap → heap) (l : heap) : modify f l = (Ok tt, f l).
Proof. reflexivity. Qed.

Lemma new_list_run l (lists : heap) :
  new_list l lists = (Ok (length lists), lists ++ [l]).
Proof. reflexivity. Qed.

Lemma deserialize_dumped (lists0 : heap) (cmd : CommandRef) (lists : heap) :
  deserialize_command (shown lists0 (_command_to_dict cmd)) lists =
    match cmd with
    | RemoveCityCommand name a =>
        (Ok (Some (RemoveCityCommand name (length lists)),
             _command_to_dict (RemoveCityCommand name (length lists))),
         lists ++ [roads_at lists0 a])
    | _ => (Ok (Some cmd, _command_to_dict cmd), lists)
    end.
Proof.
  destruct cmd as [|name a| | | |]; try reflexivity.
  unfold deserialize_command, try_except, _command_to_dict.
  cbn [shown map fst snd].
  pose proof (map_m_as_road (roads_at lists0 a) lists) as H. revert H.
  generalize (road_to_json <$> roads_at lists0 a). intros R H.
  cbv -[map_m as_road length app roads_at]. rewrite H.
  cbv -[length app roads_at]. done.
Qed.

Lemma map_m_deserialize_dumped (lists0 : heap) (commands : list CommandRef)
    (lists : heap) :
  map_m deserialize_command (map (shown lists0) (_command_to_dict <$> commands))
    lists =
    (Ok ((λ c, (Some c, _command_to_dict c)) <$> rebased (length lists) commands),
     lists ++ captured lists0 commands).
Proof.
  revert lists. induction commands as [|c cs IH]; intros lists.
  - by rewrite app_nil_r.
  - rewrite fmap_cons, map_cons. cbn [map_m].
    rewrite bind_run, deserialize_dumped.
    destruct c as [|name a| | | |];
      rewrite bind_run, IH; cbn [rebased captured omap fmap list_fmap];
      rewrite ?ret_run; try done.
    rewrite length_app. cbn [length]. rewrite Nat.add_1_r.
    by rewrite <- app_assoc.
Qed.

Lemma _deserialize_dumped (lists0 : heap) (commands : list CommandRef)
    (lists : heap) :
  _deserialize_commands (shown lists0 (_serialize_commands commands)) lists =
    (Ok (rebased (length lists) commands,
         _serialize_commands (rebased (length lists) commands)),
     lists ++ captured lists0 commands).
Proof.
  unfold _deserialize_commands, _serialize_commands. cbn [shown].
  rewrite bind_run. cbn [json_iter]. rewrite ret_run. cbv beta iota.
  rewrite bind_run, map_m_deserialize_dumped. cbv beta iota. rewrite ret_run.
  do 2 f_equal. f_equal.
  - generalize (rebased (length lists) commands). intros l.
    induction l as [|c l IH]; [done|]. rewrite fmap_cons. simpl. by f_equal.
  - f_equal. generalize (rebased (length lists) commands). intros l.
    induction l as [|c l IH]; [done|]. rewrite !fmap_cons. by f_equal.
Qed.

(** The rebuilt commands hold, at their new addresses, the roads the saved
    commands held, also after more lists have been built. *)
Lemma held_rebased (lists0 lists more : heap) (commands : list CommandRef) :
  held (lists ++ captured lists0 commands ++ more) <$>
    rebased (length lists) commands = held lists0 <$> commands.
Proof.
  revert lists. induction commands as [|c cs IH]; intros lists; [done|].
  destruct c as [|name a| | | |];
    cbn [rebased captured omap]; rewrite !fmap_cons; cbn [held];
    try (f_equal; apply IH).
  change (captured lists0 (RemoveCityCommand name a :: cs))
    with (roads_at lists0 a :: captured lists0 cs).
  rewrite <- app_comm_cons. f_equal.
  - f_equal. unfold roads_at at 1.
    by rewrite list_lookup_middle.
  - specialize (IH (lists ++ [roads_at lists0 a])).
    rewrite length_app in IH. cbn [length] in IH. rewrite Nat.add_1_r in IH.
    rewrite <- IH. by rewrite <- !app_assoc.
Qed.

Lemma shown_safe_state lists (m : CityMap) :
  shown lists (Plain (_get_safe_state m)) = _get_safe_state m.
Proof. reflexivity. Qed.

Lemma load_saved (json_loads : string → option json) created s s0 :
  map_wf (city_map s) →
  load_from_file json_loads (Some (save_to_file created s)) s0 =
    (Ok true, reloaded s s0).
Proof.
  intros Hwf.
  pose proof (λ m0, from_dict_safe_state (city_map s) m0 Hwf) as H1.
  pose proof (_deserialize_dumped (lists s) (undo_stack s)) as H2.
  pose proof (_deserialize_dumped (lists s) (redo_stack s)) as H3.
  unfold load_from_file, try_except, save_to_file, snapshot, reloaded.
  cbn [shown map fst snd].
  unfold _get_safe_state in *. revert H1 H2 H3.
  generalize (map (λ entry : string * dict (list Z),
                     (entry.1, JDict (map (λ road : string * list Z,
                        (road.1, costs_to_json road.2)) entry.2)))
                (city_map s)).
  generalize (shown (lists s) (_serialize_commands (undo_stack s))).
  generalize (shown (lists s) (_serialize_commands (redo_stack s))).
  intros R U C H1 H2 H3.
  cbv -[from_dict _deserialize_commands rebased captured _serialize_commands
        length app].
  rewrite H1. cbv -[from_dict _deserialize_commands rebased captured
                    _serialize_commands length app].
  rewrite H2. cbv -[from_dict _deserialize_commands rebased captured
                    _serialize_commands length app].
  rewrite H3. cbv -[from_dict _deserialize_commands rebased captured
                    _serialize_commands length app].
  done.
Qed.

Lemma length_rebased base commands : length (rebased base commands) = length commands.
Proof.
  revert base. induction commands as [|c cs IH]; intros base; [done|].
  destruct c; simpl; by rewrite IH.
Qed.

(** Claim C5. Round trip: loading the document [save_to_file] writes for a
    manager gives a manager with the same [get_cities], the same
    [get_all_roads] and undo and redo stacks of the same sizes. The
    hypothesis says that the dictionaries of the map have unique keys, as
    Python dictionaries do. *)
Theorem save_load_round_trip (json_loads : string → option json)
    (created : string) (s s0 : CommandManager) :
  map_wf (city_map s) →
  ∃ s', load_from_file json_loads (Some (save_to_file created s)) s0 = (Ok true, s') ∧
    get_cities (city_map s') = get_cities (city_map s) ∧
    get_all_roads (city_map s') = get_all_roads (city_map s) ∧
    length (undo_stack s') = length (undo_stack s) ∧
    length (redo_stack s') = length (redo_stack s).
Proof.
  intros Hwf. eexists. split; [by apply load_saved|].
  cbn [reloaded city_map undo_stack redo_stack]. by rewrite !length_rebased.
Qed.

(** Claim C8. Legacy migration: [from_dict] on the map
    [{"A": {"B": 5}}], which has no version tag and a bare scalar cost,
    stores the one-element list [[5]], so that [get_roads_from_city "A"] is
    [[("B", [5])]]; the same holds when the map arrives through
    [load_from_file] as the [map_state] of a history entry. *)
Theorem legacy_scalar_cost_becomes_list (json_loads : string → option json)
    (m0 : CityMap) (s0 : CommandManager) :
  let legacy := JDict [("A", JDict [("B", JInt 5)])] in
  (∃ m, from_dict legacy m0 = (Ok tt, m) ∧
     get_roads_from_city "A" m = [("B", [5%Z])]) ∧
  (∃ s, load_from_file json_loads
          (Some (JDict [("history", JList [JDict [("map_state", legacy)]])])) s0
        = (Ok true, s) ∧
     get_roads_from_city "A" (city_map s) = [("B", [5%Z])]).
Proof.
  split; eexists; split; reflexivity.
Qed.

Section pure.
Context {S : Type}.

Lemma pure_ret {A} (x : A) : pure_m (ret x : M S A).
Proof. done. Qed.

Lemma pure_raise {A} e : pure_m (raise e : M S A).
Proof. done. Qed.

Lemma pure_bind {A B} (c : M S A) (f : A → M S B) :
  pure_m c → (∀ x, pure_m (f x)) → pure_m (bind c f).
Proof.
  intros Hc Hf s. rewrite bind_run. specialize (Hc s).
  destruct (c s) as [[x|e] s1]; simpl in *; subst; [apply Hf|done].
Qed.

Lemma pure_try_except {A} (c h : M S A) :
  pure_m c → pure_m h → pure_m (try_except c h).
Proof.
  intros Hc Hh s. unfold try_except. specialize (Hc s).
  destruct (c s) as [[x|e] s1]; simpl in *; subst; [done|].
  destruct e; try apply Hh; done.
Qed.

Lemma pure_map_m {A B} (f : A → M S B) l :
  (∀ x, pure_m (f x)) → pure_m (map_m f l).
Proof.
  intros Hf. induction l as [|x l IH]; simpl; [apply pure_ret|].
  apply pure_bind; [done|]. intros y. apply pure_bind; [done|].
  intros ys. apply pure_ret.
Qed.

Lemma pure_json_get data key default : pure_m (json_get data key default : M S json).
Proof. by destruct data. Qed.
Lemma pure_json_index data key : pure_m (json_index data key : M S json).
Proof. destruct data; try done. intros s. simpl. by destruct (dict_get key d). Qed.
Lemma pure_json_iter data : pure_m (json_iter data : M S (list json)).
Proof. by destruct data. Qed.
Lemma pure_as_int v : pure_m (as_int v : M S Z).
Proof. by destruct v. Qed.
Lemma pure_as_str v : pure_m (as_str v : M S string).
Proof. by destruct v. Qed.
Lemma pure_as_list v : pure_m (as_list v : M S (list json)).
Proof. by destruct v. Qed.
End pure.

Create HintDb pure discriminated.
#[local] Hint Resolve pure_ret pure_raise pure_json_get pure_json_index
  pure_json_iter pure_as_int pure_as_str pure_as_list : pure.

Ltac pure_auto :=
  repeat first
    [ solve [eauto with pure]
    | apply pure_bind; [|intros ?]
    | apply pure_try_except
    | apply pure_map_m; intros ?
    | match goal with
      | |- pure_m (if ?x then _ else _) => destruct x
      | |- pure_m (match ?x with _ => _ end) => destruct x
      end ].

Lemma pure_as_road {S} v : pure_m (as_road v : M S _).
Proof. unfold as_road. pure_auto. Qed.
#[local] Hint Resolve pure_as_road : pure.

Lemma pure_py_getitem {S A} (l : list A) i : pure_m (py_getitem l i : M S A).
Proof. unfold py_getitem. pure_auto. Qed.

Lemma keeps_redo_pure {A} (c : M CommandManager A) : pure_m c → keeps_redo c.
Proof. intros Hc s. by rewrite Hc. Qed.

Lemma keeps_redo_bind {A B} (c : M CommandManager A) (f : A → M CommandManager B) :
  keeps_redo c → (∀ x, keeps_redo (f x)) → keeps_redo (bind c f).
Proof.
  intros Hc Hf s. rewrite bind_run. specialize (Hc s).
  destruct (c s) as [[x|e] s1]; simpl in *; [|done]. by rewrite Hf.
Qed.

Lemma keeps_redo_on_city_map {A} (c : M CityMap A) : keeps_redo (on_city_map c).
Proof. intros s. unfold on_city_map. by destruct (c (city_map s)). Qed.

Lemma keeps_redo_set_history h : keeps_redo (modify (set_history h)).
Proof. done. Qed.
Lemma keeps_redo_set_index i : keeps_redo (modify (set_index i)).
Proof. done. Qed.
Lemma keeps_redo_set_undo_stack u : keeps_redo (modify (set_undo_stack u)).
Proof. done. Qed.
Lemma keeps_redo_on_lists {A} (c : M heap A) : keeps_redo (on_lists c).
Proof. intros s. unfold on_lists. by destruct (c (lists s)). Qed.
Lemma keeps_redo_hold index key data : keeps_redo (modify (hold index key data)).
Proof. done. Qed.

Lemma keeps_redo_unless_true_bind {A} (c : M CommandManager A)
    (f : A → M CommandManager bool) :
  keeps_redo c → (∀ x, keeps_redo_unless_true (f x)) →
  keeps_redo_unless_true (bind c f).
Proof.
  intros Hc Hf s. rewrite bind_run. specialize (Hc s).
  destruct (c s) as [[x|e] s1]; simpl in *; [|by right].
  destruct (Hf x s1) as [?|?]; [by left|right; congruence].
Qed.

Lemma keeps_redo_unless_true_keeps (c : M CommandManager bool) :
  keeps_redo c → keeps_redo_unless_true c.
Proof. intros Hc s. right. apply Hc. Qed.

Lemma keeps_redo_unless_true_final commands :
  keeps_redo_unless_true (modify (set_redo_stack commands);; ret true).
Proof. intros s. by left. Qed.

Lemma keeps_redo_load_body json_loads file :
  keeps_redo_unless_true
    (data ← match file with Some data => ret data | None => raise JSONDecodeError end;
     loaded ← json_get data "history" (JList []);
     loaded ← as_list loaded;
     modify (set_history (Plain <$> loaded));;
     index ← json_get data "current_index" (JInt 0);
     index ← as_int index;
     modify (set_index index);;
     match loaded with
     | [] => ret false
     | _ :: _ =>
         state ← py_getitem loaded index;
         map_state ← json_get state "map_state" (JDict []);
         map_state ← match map_state with
                     | JStr text =>
                         match json_loads text with
                         | Some parsed => ret parsed
                         | None => raise JSONDecodeError
                         end
                     | _ => ret map_state
                     end;
         on_city_map (from_dict map_state);;
         undo_data ← json_get state "undo_stack" (JList []);
         '(commands, undo_data) ← on_lists (_deserialize_commands undo_data);
         modify (hold index "undo_stack" undo_data);;
         modify (set_undo_stack commands);;
         redo_data ← json_get state "redo_stack" (JList []);
         '(commands, redo_data) ← on_lists (_deserialize_commands redo_data);
         modify (hold index "redo_stack" redo_data);;
         modify (set_redo_stack commands);;
         ret true
     end).
Proof.
  repeat first
    [ apply keeps_redo_unless_true_final
    | apply keeps_redo_unless_true_bind; [|intros ?]
    | match goal with
      | |- keeps_redo_unless_true (match ?x with _ => _ end) => destruct x
      end
    | apply keeps_redo_unless_true_keeps
    | apply keeps_redo_on_city_map
    | apply keeps_redo_set_history | apply keeps_redo_set_index
    | apply keeps_redo_set_undo_stack
    | apply keeps_redo_on_lists | apply keeps_redo_hold
    | apply keeps_redo_pure;
      first [ apply pure_json_get | apply pure_as_list | apply pure_as_int
            | apply pure_py_getitem
            | apply pure_ret | apply pure_raise ]
    | match goal with
      | |- keeps_redo_unless_true (match ?x with _ => _ end) => destruct x
      | |- keeps_redo (match ?x with _ => _ end) => destruct x
      end ].
Qed.

Lemma failed_load_keeps_redo json_loads file s s' :
  load_from_file json_loads file s = (Ok false, s') →
  redo_stack s' = redo_stack s.
Proof.
  unfold load_from_file, try_except.
  pose proof (keeps_redo_load_body json_loads file s) as Hk. revert Hk.
  match goal with |- context [match ?c s with _ => _ end] =>
    destruct (c s) as [[[]|e] s1] end; simpl.
  - by intros _ [=].
  - intros [?|?] [= <-]; done.
  - intros [?|?]; [done|]. destruct e; intros [= <-]; done.
Qed.

Lemma py_getitem_run {S A} (l : list A) (i : Z) (s : S) :
  py_getitem l i s = match entry_at l i with
                     | Some x => (Ok x, s)
                     | None => (Raised IndexError, s)
                     end.
Proof.
  unfold py_getitem, entry_at.
  destruct (_ <? 0)%Z; [done|]. by destruct (l !! _).
Qed.

Lemma load_unreadable json_loads file s :
  match file with Some data => is_object data = false | None => True end →
  load_from_file json_loads file s = (Ok false, s).
Proof. destruct file as [[]|]; done. Qed.

Lemma load_blocked_fails json_loads d h i s :
  doc_history d = JList h → doc_index d = JInt i → load_blocked json_loads h i →
  load_from_file json_loads (Some (JDict d)) s =
    (Ok false, set_index i (set_history (Plain <$> h) s)).
Proof.
  unfold doc_history, doc_index, load_blocked. intros Hh Hi Hb.
  unfold load_from_file, try_except.
  rewrite bind_run, ret_run. cbv beta iota.
  rewrite bind_run. cbn [json_get]. rewrite ret_run, Hh. cbv beta iota.
  rewrite bind_run. cbn [as_list]. rewrite ret_run. cbv beta iota.
  rewrite bind_run, modify_run. cbv beta iota.
  rewrite bind_run, ret_run, Hi. cbv beta iota.
  rewrite bind_run. cbn [as_int]. rewrite ret_run. cbv beta iota.
  rewrite bind_run, modify_run. cbv beta iota.
  destruct h as [|e0 h]; [done|].
  rewrite bind_run, py_getitem_run.
  destruct (entry_at (e0 :: h) i) as [entry|]; [|done].
  unfold entry_map_state in Hb.
  destruct entry as [| | | | |fields]; try done.
  rewrite bind_run. cbn [json_get]. rewrite ret_run. cbv beta iota.
  destruct (from_option id (JDict []) (dict_get "map_state" fields))
    as [|b|n|text|l|ms]; try done.
  rewrite bind_run. by destruct (json_loads text) as [[]|].
Qed.

(** Claim C4 fails as stated: loading the document [{}] into a new manager
    returns [False] and leaves the timeline empty, where it held one
    snapshot before; and a document whose entry at the cursor has a mapping
    for map state still fails when its [undo_stack] is the number 5. *)
Lemma failed_load_changes_state :
  let s := new_manager empty_map in
  let r := load_from_file (λ _, None) (Some (JDict [])) s in
  r.1 = Ok false ∧ history r.2 = [] ∧ history s ≠ [] ∧
  (load_from_file (λ _, None)
     (Some (JDict [("history",
        JList [JDict [("map_state", JDict []); ("undo_stack", JInt 5)]])])) s).1
  = Ok false.
Proof. repeat split; done. Qed.

Lemma only_out_of_model_try_except {S A} (c : M S A) (x : A) :
  only_out_of_model (try_except c (ret x)).
Proof.
  intros s e s'. unfold try_except.
  destruct (c s) as [[y|[]] s1]; simpl; try done. by intros [= <- <-].
Qed.

Lemma only_out_of_model_map_m {S A B} (f : A → M S B) l :
  (∀ x, only_out_of_model (f x)) → only_out_of_model (map_m f l).
Proof.
  intros Hf. induction l as [|x l IH]; intros s e s'; simpl; [done|].
  rewrite bind_run. destruct (f x s) as [[y|e1] s1] eqn:E1.
  - rewrite bind_run. destruct (map_m f l s1) as [[ys|e2] s2] eqn:E2; [done|].
    intros [= <- <-]. by eapply IH.
  - intros [= <- <-]. by eapply Hf.
Qed.

Lemma map_m_deserialize_raises l (s : heap) e s' :
  map_m deserialize_command l s = (Raised e, s') → e = OutOfModel.
Proof.
  apply only_out_of_model_map_m. intros x.
  apply only_out_of_model_try_except.
Qed.

Section dict_map.
Context {V W : Type} (g : V → W).
Implicit Types (d : dict V) (k : string).

Lemma dict_get_map_snd k d :
  dict_get k (map (λ kv, (kv.1, g kv.2)) d) = g <$> dict_get k d.
Proof.
  induction d as [|[k0 v0] d IH]; simpl; [done|]. by case_decide.
Qed.

Lemma dict_set_map_snd k v d :
  map (λ kv, (kv.1, g kv.2)) (dict_set k v d) =
  dict_set k (g v) (map (λ kv, (kv.1, g kv.2)) d).
Proof.
  induction d as [|[k0 v0] d IH]; simpl; [done|].
  case_decide; simpl; [done|]. by rewrite IH.
Qed.
End dict_map.

Lemma dict_set_same {V} k (v : V) d : dict_get k d = Some v → dict_set k v d = d.
Proof.
  induction d as [|[k0 v0] d IH]; simpl; [done|].
  case_decide; [intros [= ->]; by subst|intros Hd; by rewrite IH].
Qed.

Lemma shown_plain_fields lists (d : dict json) :
  map (λ kv, (kv.1, shown lists kv.2)) (plain_fields d) = d.
Proof.
  unfold plain_fields. induction d as [|[k v] d IH]; simpl; [done|].
  by rewrite IH.
Qed.

Lemma rebuilds_ret_plain {A} (x : A) v : rebuilds v (ret (x, Plain v)).
Proof. intros l r l' [= <- <-]. exists []. by rewrite app_nil_r. Qed.

Lemma rebuilds_raise {A} e v : rebuilds (A:=A) v (raise e).
Proof. intros l r l' [= <- <-]. exists []. by rewrite app_nil_r. Qed.

Lemma rebuilds_bind_pure {A B} (c : M heap B) (f : B → M heap (A * hval)) v :
  pure_m c → (∀ x, rebuilds v (f x)) → rebuilds v (bind c f).
Proof.
  intros Hc Hf l r l'. rewrite bind_run. specialize (Hc l).
  destruct (c l) as [[x|e] l1]; simpl in Hc; subst l1.
  - apply Hf.
  - intros [= <- <-]. exists []. by rewrite app_nil_r.
Qed.

Lemma rebuilds_try_except {A} (c h : M heap (A * hval)) v :
  rebuilds v c → rebuilds v h → rebuilds v (try_except c h).
Proof.
  intros Hc Hh l r l'. unfold try_except. specialize (Hc l).
  destruct (c l) as [[x|e] l1].
  - intros [= <- <-]. destruct (Hc _ _ eq_refl) as (new & -> & Hv).
    by exists new.
  - destruct (Hc _ _ eq_refl) as (new1 & -> & _).
    assert (h (l ++ new1) = (r, l') → ∃ new, l' = l ++ new ∧
              match r with
              | Ok (_, v') => ∀ more, shown (l' ++ more) v' = v
              | Raised _ => True
              end) as Hrun.
    { intros Hr. destruct (Hh _ _ _ Hr) as (new2 & -> & H2).
      exists (new1 ++ new2). by rewrite app_assoc. }
    destruct e; try exact Hrun.
    intros [= <- <-]. by exists new1.
Qed.

Lemma roads_from_json {S} (l : list json) (s : S) roads s' :
  map_m as_road l s = (Ok roads, s') → road_to_json <$> roads = l.
Proof.
  revert roads s. induction l as [|x l IH]; intros roads s; simpl.
  - by intros [= <- _].
  - rewrite bind_run.
    destruct (as_road x s) as [[road|e] s1] eqn:Ex; [|done].
    rewrite bind_run.
    destruct (map_m as_road l s1) as [[rest|e] s2] eqn:El; [|done].
    rewrite ret_run. intros [= <- <-]. rewrite fmap_cons.
    f_equal; [|by eapply IH].
    clear El IH. unfold as_road in Ex.
    destruct x as [| | | |[|c1 [|c2 [|[| | | |costs|] [|]]]]|]; try done.
    rewrite bind_run in Ex. destruct c1 as [| | |n1| |]; try done.
    cbn [as_str] in Ex. rewrite ret_run, bind_run in Ex.
    destruct c2 as [| | |n2| |]; try done.
    cbn [as_str] in Ex. rewrite ret_run, bind_run in Ex.
    destruct (map_m as_int costs s) as [[ints|e] s3] eqn:Ec; [|done].
    injection Ex as <- _. unfold road_to_json, costs_to_json. cbn [fst snd].
    do 5 f_equal. clear -Ec. revert ints s s3 Ec.
    induction costs as [|y costs IH]; intros ints s s3; simpl.
    + by intros [= <- _].
    + rewrite bind_run. destruct y as [| |n| | |]; try done.
      cbn [as_int]. rewrite ret_run, bind_run.
      destruct (map_m as_int costs s) as [[rest|e] s1] eqn:E; [|done].
      rewrite ret_run. intros [= <- _]. rewrite fmap_cons. f_equal.
      by eapply IH.
Qed.

Lemma rebuilds_share_roads (d : dict json) : rebuilds (JDict d) (share_roads d).
Proof.
  intros l r l'. unfold share_roads.
  destruct (dict_get "roads" d) as [roads|] eqn:Ed.
  - rewrite bind_run.
    pose proof (pure_as_list (S:=heap) roads l) as Hp.
    destruct (as_list roads l) as [[items|e] l1] eqn:Ea; simpl in Hp; subst l1;
      [|intros [= <- <-]; exists []; by rewrite app_nil_r].
    assert (roads = JList items) as ->
      by (destruct roads; cbv in Ea; try done; by injection Ea as ->).
    rewrite bind_run.
    pose proof (pure_map_m (S:=heap) as_road items
                  (λ x, pure_as_road x) l) as Hp.
    destruct (map_m as_road items l) as [[rs|e] l1] eqn:Er; simpl in Hp;
      subst l1; [|intros [= <- <-]; exists []; by rewrite app_nil_r].
    apply roads_from_json in Er.
    rewrite bind_run, new_list_run, ret_run. intros [= <- <-].
    exists [rs]. split; [done|]. intros more. cbn [shown].
    rewrite dict_set_map_snd, shown_plain_fields. cbn [shown].
    unfold roads_at. rewrite <- app_assoc. cbn [app].
    rewrite list_lookup_middle by done. cbn [default from_option id].
    rewrite Er. by rewrite dict_set_same.
  - rewrite bind_run, new_list_run, ret_run. intros [= <- <-].
    by exists [[]].
Qed.

Lemma rebuilds_items {A} v (f : list (string * json) → M heap (A * hval)) :
  (∀ d, v = JDict d → rebuilds v (f d)) → rebuilds v (bind (json_items v) f).
Proof.
  intros Hf l r l'. rewrite bind_run.
  destruct v as [| | | |items|d]; cbn [json_items]; unfold raise;
    try (intros [= <- <-]; exists []; by rewrite app_nil_r).
  rewrite ret_run. by apply Hf.
Qed.

Lemma rebuilds_shared {A} (g : addr → A) d :
  rebuilds (JDict d)
    ('(roads, cmd_data) ← share_roads d; ret (g roads, cmd_data)).
Proof.
  intros l r l'. rewrite bind_run.
  pose proof (rebuilds_share_roads d l) as Hs.
  destruct (share_roads d l) as [[[a v']|e] l1].
  - rewrite ret_run. intros [= <- <-].
    destruct (Hs _ _ eq_refl) as (new & -> & Hv). by exists new.
  - intros [= <- <-]. destruct (Hs _ _ eq_refl) as (new & -> & _). by exists new.
Qed.

Lemma rebuilds_deserialize_command v : rebuilds v (deserialize_command v).
Proof.
  unfold deserialize_command.
  apply rebuilds_try_except; [|apply rebuilds_ret_plain].
  repeat first
    [ apply rebuilds_ret_plain
    | apply rebuilds_raise
    | apply rebuilds_items; intros ? ->; apply rebuilds_shared
    | apply rebuilds_bind_pure;
        [first [apply pure_json_index | apply pure_as_str | apply pure_as_int]
        |intros ?]
    | match goal with
      | |- rebuilds _ (if ?x then _ else _) => destruct x
      end ].
Qed.

Lemma map_m_deserialize_rebuilds items l r l' :
  map_m deserialize_command items l = (r, l') →
  ∃ new, l' = l ++ new ∧
    match r with
    | Ok results => ∀ more, map (shown (l' ++ more)) (snd <$> results) = items
    | Raised _ => True
    end.
Proof.
  revert l r l'. induction items as [|x items IH]; intros l r l'; simpl.
  - intros [= <- <-]. exists []. by rewrite app_nil_r.
  - rewrite bind_run.
    pose proof (rebuilds_deserialize_command x l) as Hx.
    destruct (deserialize_command x l) as [[[c v']|e] l1].
    + destruct (Hx _ _ eq_refl) as (new1 & -> & Hv). rewrite bind_run.
      specialize (IH (l ++ new1)).
      destruct (map_m deserialize_command items (l ++ new1)) as [[rs|e] l2].
      * destruct (IH _ _ eq_refl) as (new2 & -> & Hrs).
        rewrite ret_run. intros [= <- <-]. exists (new1 ++ new2).
        split; [by rewrite app_assoc|]. intros more.
        rewrite fmap_cons, map_cons. cbn [snd]. f_equal; [|apply Hrs].
        rewrite <- app_assoc. apply Hv.
      * destruct (IH _ _ eq_refl) as (new2 & -> & _).
        intros [= <- <-]. exists (new1 ++ new2). by rewrite app_assoc.
    + destruct (Hx _ _ eq_refl) as (new1 & -> & _).
      intros [= <- <-]. by exists new1.
Qed.

Lemma _deserialize_commands_run v l r l' :
  _deserialize_commands v l = (r, l') →
  ∃ new, l' = l ++ new ∧
    match r with
    | Ok (_, v') => ∀ more, shown (l' ++ more) v' = v
    | Raised e => e = OutOfModel ∨ (iterable v = false ∧ new = [])
    end.
Proof.
  unfold _deserialize_commands. rewrite bind_run.
  assert (∀ items (data' : list (option CommandRef * hval) → hval),
    (∀ results more, map (shown more) (snd <$> results) = items →
       shown more (data' results) = v) →
    (results ← map_m deserialize_command items;
     ret (omap fst results, data' results)) l = (r, l') →
    ∃ new, l' = l ++ new ∧
      match r with
      | Ok (_, v') => ∀ more, shown (l' ++ more) v' = v
      | Raised e => e = OutOfModel ∨ (iterable v = false ∧ new = [])
      end) as Hitems.
  { intros items data' Hd. rewrite bind_run.
    pose proof (map_m_deserialize_rebuilds items l) as Hm.
    destruct (map_m deserialize_command items l) as [[rs|e] l1] eqn:E.
    - destruct (Hm _ _ eq_refl) as (new & -> & Hrs). rewrite ret_run.
      intros [= <- <-]. exists new. split; [done|]. intros more.
      apply Hd, Hrs.
    - destruct (Hm _ _ eq_refl) as (new & -> & _). intros [= <- <-].
      exists new. split; [done|]. left. by eapply map_m_deserialize_raises. }
  destruct v as [| | |text|items|d]; cbn [json_iter];
    try (intros [= <- <-]; exists []; rewrite app_nil_r; split; [done|];
         by right).
  - rewrite ret_run. apply Hitems. done.
  - rewrite ret_run. apply Hitems. intros results more Hr. cbn [shown].
    by rewrite Hr.
  - rewrite ret_run. apply Hitems. done.
Qed.

Lemma on_lists_run {A} (c : M heap A) s :
  on_lists c s = let (r, l) := c (lists s) in (r, set_lists l s).
Proof. reflexivity. Qed.

Lemma entry_at_nil {A} i : entry_at (@nil A) i = None.
Proof. unfold entry_at. simpl. by repeat case_match. Qed.

Lemma entry_at_position {A} (l : list A) i x :
  entry_at l i = Some x → l !! py_position (length l) i = Some x.
Proof.
  unfold entry_at, py_position. by destruct (_ <? 0)%Z.
Qed.

Lemma fmap_alter_same {A B} (f : A → B) (g : A → A) n (l : list A) :
  (∀ x, l !! n = Some x → f (g x) = f x) → f <$> alter g n l = f <$> l.
Proof.
  revert n. induction l as [|y l IH]; intros n Hx; [done|].
  destruct n as [|n]; simpl.
  - f_equal. by apply Hx.
  - f_equal. apply IH. intros x Hl. by apply Hx.
Qed.

Lemma shown_hold_field L key data entry fields :
  shown L entry = JDict fields →
  shown L data = from_option id (JList []) (dict_get key fields) →
  shown L (hold_field key data entry) = JDict fields.
Proof.
  intros He Hd. destruct entry as [v|a|l|fs]; try done.
  - cbn [shown] in He. subst v. cbn [hold_field].
    unfold dict_mem. destruct (dict_get key fields) as [x|] eqn:Ek; [|done].
    cbn [shown]. rewrite dict_set_map_snd, shown_plain_fields, Hd.
    cbn [from_option id]. by rewrite dict_set_same.
  - cbn [shown] in He. injection He as <-. cbn [hold_field].
    rewrite dict_get_map_snd in Hd.
    unfold dict_mem. destruct (dict_get key fs) as [x|] eqn:Ek; [|done].
    cbn [shown]. rewrite dict_set_map_snd, Hd. cbn [fmap option_fmap option_map
      from_option id]. f_equal. apply dict_set_same.
    by rewrite dict_get_map_snd, Ek.
Qed.

(** Steps of a load under which the timeline goes on showing the document. *)
Lemma shows_hold h i key data fields s :
  shows h s → entry_at h i = Some (JDict fields) →
  (∀ more, shown (lists s ++ more) data =
             from_option id (JList []) (dict_get key fields)) →
  shows h (hold i key data s).
Proof.
  intros Hs He Hd more. unfold hold. cbn [history lists set_history].
  rewrite fmap_alter_same; [apply Hs|]. intros x Hx.
  pose proof (Hs more) as Hh.
  assert (length (history s) = length h) as Hlen
    by (by rewrite <- Hh, length_fmap).
  rewrite Hlen in Hx. apply entry_at_position in He.
  set (n := py_position (length h) i) in *. clearbody n.
  assert (shown (lists s ++ more) x = JDict fields) as Hsx.
  { rewrite <- Hh, list_lookup_fmap, Hx in He. by injection He. }
  rewrite Hsx. by apply shown_hold_field.
Qed.

Lemma shows_grown h new s : shows h s → shows h (set_lists (lists s ++ new) s).
Proof.
  intros Hs more. cbn [history lists set_lists]. rewrite <- app_assoc. apply Hs.
Qed.

Lemma shows_plain h s : shows h (set_history (Plain <$> h) s).
Proof.
  intros more. cbn [history set_history]. rewrite <- list_fmap_compose.
  by rewrite list_fmap_id.
Qed.

(** The timeline after the part of a load that follows the choice of the
    map state, however that part ends, and why it can end by raising. *)
Lemma load_tail_run h i fields map_state s r s' :
  shows h s → entry_at h i = Some (JDict fields) →
  load_tail i (JDict fields) map_state s = (r, s') →
  (shows h s' ∧ current_history_index s' = current_history_index s) ∧
  (r = Ok true ∨ r = Raised OutOfModel ∨
   (∃ e m', e ≠ OutOfModel ∧
      from_dict map_state (city_map s) = (Raised e, m')) ∨
   iterable (from_option id (JList []) (dict_get "undo_stack" fields)) = false ∨
   iterable (from_option id (JList []) (dict_get "redo_stack" fields)) = false).
Proof.
  intros Hs He. unfold load_tail. rewrite bind_run. unfold on_city_map at 1.
  destruct (from_dict map_state (city_map s)) as [[[]|e] m1] eqn:Ef.
  - rewrite bind_run. cbn [json_get]. rewrite ret_run. cbv beta iota.
    rewrite bind_run, on_lists_run. cbn [lists set_city_map].
    set (undo_data := from_option id (JList []) (dict_get "undo_stack" fields)).
    pose proof (_deserialize_commands_run undo_data (lists s)) as Hu.
    destruct (_deserialize_commands undo_data (lists s)) as [[[cmds u']|e] l1].
    + destruct (Hu _ _ eq_refl) as (new1 & -> & Hu').
      rewrite bind_run, modify_run. cbv beta iota.
      rewrite bind_run, modify_run. cbv beta iota.
      rewrite bind_run, ret_run. cbv beta iota.
      rewrite bind_run, on_lists_run.
      set (s1 := set_undo_stack cmds (hold i "undo_stack" u' _)).
      assert (shows h s1 ∧ current_history_index s1 = current_history_index s
              ∧ lists s1 = lists s ++ new1) as (Hs1 & Hi1 & Hl1).
      { split; [|done]. intros more.
        apply (shows_hold h i "undo_stack" u' fields
                 (set_lists (lists s ++ new1) (set_city_map m1 s))); try done.
        by apply (shows_grown h new1 (set_city_map m1 s)). }
      set (redo_data := from_option id (JList []) (dict_get "redo_stack" fields)).
      pose proof (_deserialize_commands_run redo_data (lists s1)) as Hr.
      destruct (_deserialize_commands redo_data (lists s1)) as [[[cmds' r']|e] l2].
      * destruct (Hr _ _ eq_refl) as (new2 & -> & Hr').
        rewrite bind_run, modify_run. cbv beta iota.
        rewrite bind_run, modify_run. cbv beta iota. rewrite ret_run.
        intros [= <- <-]. split; [|by left]. split; [|done].
        intros more.
        apply (shows_hold h i "redo_stack" r' fields
                 (set_lists (lists s1 ++ new2) s1)); try done.
        by apply (shows_grown h new2 s1).
      * destruct (Hr _ _ eq_refl) as (new2 & -> & Hc).
        intros [= <- <-]. split.
        -- split; [|done]. by apply (shows_grown h new2 s1).
        -- destruct Hc as [->|[Hc _]]; auto.
    + destruct (Hu _ _ eq_refl) as (new1 & -> & Hc).
      intros [= <- <-]. split.
      * split; [|done]. by apply (shows_grown h new1 (set_city_map m1 s)).
      * destruct Hc as [->|[Hc _]]; auto.
  - intros [= <- <-]. split; [done|].
    destruct (decide (e = OutOfModel)) as [->|Hne]; [auto|].
    right; right; left. eauto.
Qed.

(** The steps of [load_from_file] up to the choice of the map state: with
    the timeline and the cursor of the document in place, the load stops, or
    goes on with [load_tail]. *)
Lemma load_reaches json_loads d h i s :
  doc_history d = JList h → doc_index d = JInt i →
  load_from_file json_loads (Some (JDict d)) s =
    match entry_at h i with
    | Some (JDict fields) =>
        match entry_map_state json_loads (JDict fields) with
        | Some map_state =>
            match load_tail i (JDict fields) map_state
                    (set_index i (set_history (Plain <$> h) s)) with
            | (Ok ok, s') => (Ok ok, s')
            | (Raised OutOfModel, s') => (Raised OutOfModel, s')
            | (Raised _, s') => (Ok false, s')
            end
        | None => (Ok false, set_index i (set_history (Plain <$> h) s))
        end
    | _ => (Ok false, set_index i (set_history (Plain <$> h) s))
    end.
Proof.
  unfold doc_history, doc_index. intros Hh Hi.
  unfold load_from_file, try_except.
  rewrite bind_run, ret_run. cbv beta iota.
  rewrite bind_run. cbn [json_get]. rewrite ret_run, Hh. cbv beta iota.
  rewrite bind_run. cbn [as_list]. rewrite ret_run. cbv beta iota.
  rewrite bind_run, modify_run. cbv beta iota.
  rewrite bind_run, ret_run, Hi. cbv beta iota.
  rewrite bind_run. cbn [as_int]. rewrite ret_run. cbv beta iota.
  rewrite bind_run, modify_run. cbv beta iota.
  destruct h as [|e0 h0]; [by rewrite entry_at_nil|].
  rewrite bind_run, py_getitem_run.
  destruct (entry_at (e0 :: h0) i) as [entry|]; [|done].
  destruct entry as [| | | | |fields]; try done.
  rewrite bind_run. cbn [json_get]. rewrite ret_run. cbv beta iota.
  rewrite bind_run. cbn [entry_map_state].
  destruct (from_option id (JDict []) (dict_get "map_state" fields))
    as [|b|n|text|l|ms] eqn:Ems; try (rewrite ret_run; reflexivity).
  destruct (json_loads text) as [parsed|]; [|done].
  rewrite ret_run. reflexivity.
Qed.

Lemma failed_load_timeline json_loads d h i s s' :
  load_from_file json_loads (Some (JDict d)) s = (Ok false, s') →
  doc_history d = JList h → doc_index d = JInt i →
  shown (lists s') <$> history s' = h ∧ current_history_index s' = i.
Proof.
  intros H Hh Hi. rewrite (load_reaches json_loads d h i s Hh Hi) in H.
  assert (shows h (set_index i (set_history (Plain <$> h) s))) as Hs
    by apply (shows_plain h).
  assert (∀ s1, shows h s1 → shown (lists s1) <$> history s1 = h) as Hnow.
  { intros s1 H1. specialize (H1 []). by rewrite app_nil_r in H1. }
  destruct (entry_at h i) as [[| | | | |fields]|] eqn:Ee;
    try (injection H as <-; split; [by apply Hnow|done]).
  destruct (entry_map_state json_loads (JDict fields)) as [ms|];
    [|injection H as <-; split; [by apply Hnow|done]].
  destruct (load_tail i (JDict fields) ms _) as [r s2] eqn:Et.
  destruct (load_tail_run _ _ _ _ _ _ _ Hs Ee Et) as [[Hs2 Hi2] _].
  assert (s2 = s') as -> by (destruct r as [?|[]]; by simplify_eq).
  split; [by apply Hnow|done].
Qed.

Lemma failed_load_causes json_loads d s s' :
  load_from_file json_loads (Some (JDict d)) s = (Ok false, s') →
  ∃ h i, doc_history d = JList h ∧ doc_index d = JInt i ∧
    load_failure_cause json_loads s h i.
Proof.
  intros H.
  assert (∃ h i, doc_history d = JList h ∧ doc_index d = JInt i)
    as (h & i & Hh & Hi).
  { revert H. unfold load_from_file, try_except, doc_history, doc_index.
    rewrite bind_run, ret_run. cbv beta iota.
    rewrite bind_run. cbn [json_get]. rewrite ret_run. cbv beta iota.
    rewrite bind_run.
    destruct (from_option id (JList []) (dict_get "history" d))
      as [| | | |h|]; cbn [as_list]; try done.
    rewrite ret_run. cbv beta iota.
    rewrite bind_run, modify_run. cbv beta iota. rewrite bind_run, ret_run.
    cbv beta iota. rewrite bind_run.
    destruct (from_option id (JInt 0) (dict_get "current_index" d))
      as [| |i| | |]; cbn [as_int]; try done. eauto. }
  exists h, i. split; [done|]. split; [done|].
  rewrite (load_reaches json_loads d h i s Hh Hi) in H.
  unfold load_failure_cause, load_blocked.
  destruct (entry_at h i) as [[| | | | |fields]|] eqn:Ee; try (by left).
  destruct (entry_map_state json_loads (JDict fields)) as [ms|] eqn:Em;
    [|by left].
  destruct (load_tail i (JDict fields) ms _) as [r s2] eqn:Et.
  destruct (load_tail_run h _ _ _ _ _ _ (shows_plain h _) Ee Et)
    as [_ Hc].
  destruct ms as [| | | | |ms]; try (by left).
  right. exists fields, (JDict ms). split; [done|]. split; [done|].
  destruct Hc as [-> | [-> | Hc]]; [done..|]. exact Hc.
Qed.

(** Claim C4, amended. A file that cannot be read or parsed, or whose
    document is not an object, makes the load return [False] with the
    manager untouched. A document that has no history entry at the cursor,
    or whose entry there has a map state that is not a mapping, makes the
    load return [False] with the map and both stacks untouched, but with
    the timeline and the cursor replaced by those of the document. Every
    load that returns [False] leaves the redo stack untouched. When the
    document is an object, a load returns [False] only with the timeline
    and the cursor replaced (the timeline then shows the history of the
    document) and for one of these causes ([load_failure_cause]): no usable
    map state at the cursor, a map state that [from_dict] rejects, or undo
    or redo data that cannot be iterated. *)
Theorem failed_load_effect (json_loads : string → option json)
    (file : option json) (s : CommandManager) :
  (match file with Some data => is_object data = false | None => True end →
   load_from_file json_loads file s = (Ok false, s)) ∧
  (∀ d h i,
     file = Some (JDict d) → doc_history d = JList h → doc_index d = JInt i →
     load_blocked json_loads h i →
     load_from_file json_loads file s =
       (Ok false, set_index i (set_history (Plain <$> h) s))) ∧
  (∀ s', load_from_file json_loads file s = (Ok false, s') →
         redo_stack s' = redo_stack s) ∧
  (∀ d s', file = Some (JDict d) →
     load_from_file json_loads file s = (Ok false, s') →
     ∃ h i, doc_history d = JList h ∧ doc_index d = JInt i ∧
       shown (lists s') <$> history s' = h ∧ current_history_index s' = i ∧
       load_failure_cause json_loads s h i).
Proof.
  split; [apply load_unreadable|]. split; [|split].
  - intros d h i ->. apply load_blocked_fails.
  - apply failed_load_keeps_redo.
  - intros d s' -> H.
    destruct (failed_load_causes _ _ _ _ H) as (h & i & Hh & Hi & Hc).
    exists h, i. split; [done|]. split; [done|].
    pose proof (failed_load_timeline _ _ _ _ _ _ H Hh Hi) as [? ?]. done.
Qed.

Section dict_wf_facts.
Context {V : Type}.
Implicit Types (d : dict V) (k : string) (v : V).

Lemma elem_of_dict_keys k d : k ∈ dict_keys d ↔ is_Some (dict_get k d).
Proof.
  rewrite <- not_eq_None_Some, dict_get_None_keys.
  split; [tauto|]. destruct (decide (k ∈ dict_keys d)); tauto.
Qed.

Lemma dict_wf_set k v d : dict_wf d → dict_wf (dict_set k v d).
Proof.
  unfold dict_wf. induction d as [|[k0 v0] d IH]; simpl.
  - intros _. apply NoDup_singleton.
  - intros [Hk Hd]%NoDup_cons. case_decide; simpl.
    + by apply NoDup_cons.
    + apply NoDup_cons. split; [|auto].
      rewrite elem_of_dict_keys, dict_get_set, decide_False by done.
      by rewrite <- elem_of_dict_keys.
Qed.

Lemma dict_wf_del k d : dict_wf d → dict_wf (dict_del k d).
Proof.
  unfold dict_wf. induction d as [|[k0 v0] d IH]; simpl; [done|].
  intros [Hk Hd]%NoDup_cons. case_decide; simpl; [auto|].
  apply NoDup_cons. split; [|auto].
  rewrite elem_of_dict_keys, dict_get_del. case_decide; [by intros []|].
  by rewrite <- elem_of_dict_keys.
Qed.
End dict_wf_facts.

Lemma dict_get_upd2 a b v m x :
  dict_get x (upd2 a b v m) =
    if decide (x = a)
    then (λ d, match v with Some l => dict_set b l d | None => dict_del b d end)
           <$> dict_get a m
    else dict_get x m.
Proof.
  unfold upd2. destruct (dict_get a m) as [d|] eqn:E.
  - rewrite dict_get_set. by case_decide.
  - case_decide; by subst.
Qed.

Lemma inner_wf_upd2 a b v m : inner_wf m → inner_wf (upd2 a b v m).
Proof.
  intros Hm x d. rewrite dict_get_upd2. case_decide; [|apply Hm].
  destruct (dict_get a m) as [d0|] eqn:E; simpl; [|done].
  intros [= <-]. destruct v; eauto using dict_wf_set, dict_wf_del.
Qed.

Lemma inner_wf_add_city n m : inner_wf m → inner_wf (dict_set n [] m).
Proof.
  intros Hm x d. rewrite dict_get_set. case_decide; [|apply Hm].
  intros [= <-]. apply NoDup_nil_2.
Qed.

Lemma inner_wf_remove_city n m :
  inner_wf m → inner_wf (dict_del n (dict_map_values (drop_neighbor n) m)).
Proof.
  intros Hm x d. rewrite dict_get_del, dict_get_map_values.
  case_decide; [done|]. destruct (dict_get x m) as [d0|] eqn:E; [|done].
  simpl. intros [= <-]. unfold drop_neighbor.
  destruct (dict_mem n d0); eauto using dict_wf_del.
Qed.

Lemma inner_wf_rename_city o n d m :
  inner_wf m → dict_get o m = Some d →
  inner_wf (dict_map_values (rename_neighbor o n) (dict_set n d (dict_del o m))).
Proof.
  intros Hm Ho x dx. rewrite dict_get_map_values, dict_get_set, dict_get_del.
  assert (∀ d0, dict_wf d0 → dict_wf (rename_neighbor o n d0)) as Hr.
  { intros d0 H0. unfold rename_neighbor.
    destruct (dict_get o d0); eauto using dict_wf_set, dict_wf_del. }
  case_decide; simpl; [intros [= <-]; eauto|].
  case_decide; [done|]. destruct (dict_get x m) eqn:E; [|done].
  simpl. intros [= <-]. eauto.
Qed.

Lemma keeps_inner_wf_ret {A} (x : A) : keeps_inner_wf (ret x).
Proof. by intros m Hm. Qed.

Lemma keeps_inner_wf_raise {A} e : keeps_inner_wf (raise e : M CityMap A).
Proof. by intros m Hm. Qed.

Lemma keeps_inner_wf_bind {A B} (c : M CityMap A) (f : A → M CityMap B) :
  keeps_inner_wf c → (∀ x, keeps_inner_wf (f x)) → keeps_inner_wf (bind c f).
Proof.
  intros Hc Hf m Hm. rewrite bind_run. specialize (Hc m Hm).
  destruct (c m) as [[x|e] m1]; simpl in *; [by apply Hf|done].
Qed.

Lemma keeps_inner_wf_has_city a : keeps_inner_wf (has_city a).
Proof. by intros m Hm. Qed.
Lemma keeps_inner_wf_getitem a : keeps_inner_wf (getitem a).
Proof. intros m Hm. rewrite getitem_run. by destruct (dict_get a m). Qed.
Lemma keeps_inner_wf_getitem2 a b : keeps_inner_wf (getitem2 a b).
Proof. intros m Hm. rewrite getitem2_run. by destruct (costs_from m a b). Qed.

Ltac keeps_inner_wf_prim :=
  let m := fresh "m" in let Hm := fresh "Hm" in
  intros m Hm;
  rewrite ?setitem2_run, ?delitem2_run, ?append2_run, ?remove2_run,
    ?setindex2_run;
  repeat case_match; simpl; first [ done | by apply inner_wf_upd2 ].

Lemma keeps_inner_wf_setitem2 a b l : keeps_inner_wf (setitem2 a b l).
Proof. keeps_inner_wf_prim. Qed.
Lemma keeps_inner_wf_delitem2 a b : keeps_inner_wf (delitem2 a b).
Proof. keeps_inner_wf_prim. Qed.
Lemma keeps_inner_wf_append2 a b c : keeps_inner_wf (append2 a b c).
Proof. keeps_inner_wf_prim. Qed.
Lemma keeps_inner_wf_remove2 a b c : keeps_inner_wf (remove2 a b c).
Proof. keeps_inner_wf_prim. Qed.
Lemma keeps_inner_wf_setindex2 a b i c : keeps_inner_wf (setindex2 a b i c).
Proof. keeps_inner_wf_prim. Qed.

Create HintDb inner_wf discriminated.
#[local] Hint Resolve keeps_inner_wf_ret keeps_inner_wf_raise
  keeps_inner_wf_has_city keeps_inner_wf_getitem keeps_inner_wf_getitem2
  keeps_inner_wf_setitem2 keeps_inner_wf_delitem2 keeps_inner_wf_append2
  keeps_inner_wf_remove2 keeps_inner_wf_setindex2 : inner_wf.

Ltac keeps_inner_wf_auto :=
  repeat first
    [ solve [eauto with inner_wf]
    | apply keeps_inner_wf_bind; [|intros ?]
    | match goal with
      | |- keeps_inner_wf (if ?x then _ else _) => destruct x
      | |- keeps_inner_wf (match ?x with _ => _ end) => destruct x
      end ].

Lemma keeps_inner_wf_add_road a b c : keeps_inner_wf (add_road a b c).
Proof. unfold add_road. keeps_inner_wf_auto. Qed.

Lemma keeps_inner_wf_remove_road a b cost : keeps_inner_wf (remove_road a b cost).
Proof. unfold remove_road. keeps_inner_wf_auto. Qed.

Lemma keeps_inner_wf_update_road_cost a b old new :
  keeps_inner_wf (update_road_cost a b old new).
Proof. unfold update_road_cost. keeps_inner_wf_auto. Qed.

(** [graph_ok] is kept by a write of the same non-empty list (or of no
    list) to both directions of a pair of distinct cities. *)
Lemma graph_ok_slots_view m m' a b v :
  graph_ok m → a ≠ b → v ≠ Some [] → inner_wf m' →
  (∀ x y, costs_from m' x y =
     if decide (slots a b x y) then v else costs_from m x y) →
  graph_ok m'.
Proof.
  intros [Hs Hl Hn Hi] Hab Hv Hi' Hview. split; [ | | |done].
  - by eapply sym_slots_view.
  - intros x. rewrite Hview. rewrite decide_False; [done|].
    unfold slots, slot. naive_solver.
  - intros x y. rewrite Hview. by case_decide.
Qed.

Lemma graph_ok_add_road m a b c :
  graph_ok m → a ≠ b → graph_ok (add_road a b c m).2.
Proof.
  intros Hok Hab. destruct (dict_mem a m && dict_mem b m) eqn:E.
  - apply andb_true_iff in E as [Ha Hb].
    destruct (add_road_ok m a b c (ok_sym _ Hok) Hab Ha Hb) as (m' & Hr & _ & Hv).
    pose proof (keeps_inner_wf_add_road a b c m (ok_inner _ Hok)) as Hi.
    rewrite Hr in *. simpl in *.
    eapply graph_ok_slots_view; [done..| |done|done].
    intros [= H]. by destruct (default [] (costs_from m a b)).
  - by rewrite add_road_missing.
Qed.

Lemma graph_ok_add_city m n : graph_ok m → graph_ok (add_city n m).2.
Proof.
  intros Hok. pose proof (sym_add_city n m (ok_sym _ Hok)) as Hs.
  rewrite add_city_run in *. destruct (dict_mem n m) eqn:E; [done|].
  simpl in *. destruct Hok as [_ Hl Hn Hi]. split; [done| | |].
  - intros x. rewrite costs_from_add_city. by case_decide.
  - intros x y. rewrite costs_from_add_city. by case_decide.
  - by apply inner_wf_add_city.
Qed.

Lemma graph_ok_remove_city m n : graph_ok m → graph_ok (remove_city n m).2.
Proof.
  intros Hok. pose proof (sym_remove_city n m (ok_sym _ Hok)) as Hs.
  rewrite remove_city_run in *. destruct (dict_mem n m) eqn:E; [|done].
  simpl in *. destruct Hok as [_ Hl Hn Hi]. split; [done| | |].
  - intros x. rewrite costs_from_remove_city. by case_decide.
  - intros x y. rewrite costs_from_remove_city. by case_decide.
  - by apply inner_wf_remove_city.
Qed.

Lemma graph_ok_rename_city m o n : graph_ok m → graph_ok (rename_city o n m).2.
Proof.
  intros Hok. pose proof (sym_rename_city o n m (ok_sym _ Hok)) as Hs.
  rewrite rename_city_run in *.
  destruct (dict_get o m) as [d|] eqn:Eo; [|done].
  destruct (dict_mem n m) eqn:En; [done|].
  simpl in *. destruct Hok as [Hsym Hl Hn Hi]. split; [done| | |].
  - intros x. rewrite (costs_from_rename_city o n d m) by done.
    case_decide; [done|]. unfold unrename. case_decide; apply Hl.
  - intros x y. rewrite (costs_from_rename_city o n d m) by done.
    by case_decide.
  - by apply inner_wf_rename_city.
Qed.

Lemma graph_ok_remove_road m a b cost :
  graph_ok m → a ≠ b → graph_ok (remove_road a b cost m).2.
Proof.
  intros Hok Hab. pose proof (ok_sym _ Hok) as Hs.
  pose proof (keeps_inner_wf_remove_road a b cost m (ok_inner _ Hok)) as Hi.
  destruct (costs_from m a b) as [l|] eqn:E;
    [|by rewrite remove_road_missing by auto].
  destruct cost as [c|].
  - destruct (decide (c ∈ l)) as [Hc|Hc].
    + destruct (py_remove_is_Some _ _ Hc) as [l' Hl'].
      destruct (remove_road_present m a b l l' c Hs Hab E Hl')
        as (m' & Hr & _ & Hv).
      rewrite Hr in *. simpl in *.
      eapply graph_ok_slots_view; [done..| |done|done].
      case_decide; [done|]. by intros [= ->].
    + rewrite (remove_road_absent m a b l c); eauto using sym_mem_r.
  - destruct (remove_road_all_ok m a b l Hs Hab E) as (m' & Hr & _ & Hv).
    rewrite Hr in *. simpl in *.
    eapply (graph_ok_slots_view m m' a b None); done.
Qed.

Lemma graph_ok_update_road_cost m a b old new :
  graph_ok m → a ≠ b → graph_ok (update_road_cost a b old new m).2.
Proof.
  intros Hok Hab. pose proof (ok_sym _ Hok) as Hs.
  pose proof (keeps_inner_wf_update_road_cost a b old new m (ok_inner _ Hok))
    as Hi.
  destruct (costs_from m a b) as [l|] eqn:E;
    [|by rewrite update_road_cost_missing by auto].
  destruct (decide (old ∈ l)) as [Hc|Hc].
  - destruct (py_index_is_Some _ _ Hc) as [i Hidx].
    destruct (update_road_cost_ok m a b l i old new Hs Hab E Hidx)
      as (m' & Hr & _ & Hv).
    rewrite Hr in *. simpl in *.
    eapply graph_ok_slots_view; [done..| |done|done].
    intros [= Hnil]. apply (f_equal length) in Hnil.
    rewrite length_insert in Hnil. apply py_index_lt in Hidx.
    simpl in Hnil. lia.
  - rewrite update_road_cost_missing; [done|]. right; right. eauto.
Qed.

Lemma graph_ok_empty : graph_ok empty_map.
Proof. split; try done. Qed.

Lemma built_graph_ok m : built m → graph_ok m.
Proof.
  induction 1 as [|m op _ IH Hop]; [apply graph_ok_empty|].
  destruct op; simpl in *;
    auto using graph_ok_add_city, graph_ok_remove_city, graph_ok_rename_city,
      graph_ok_add_road, graph_ok_remove_road, graph_ok_update_road_cost.
Qed.

Lemma for_app {S A B} (l1 l2 : list A) (f : A → M S B) s :
  for_ (l1 ++ l2) f s = (for_ l1 f;; for_ l2 f) s.
Proof.
  revert s. induction l1 as [|x l1 IH]; intros s; simpl; [done|].
  rewrite !bind_run. destruct (f x s) as [[y|e] s1]; [|done].
  rewrite IH. by rewrite bind_run.
Qed.

Lemma for_fmap {S A B C} (g : A → B) (l : list A) (f : B → M S C) s :
  for_ (g <$> l) f s = for_ l (λ x, f (g x)) s.
Proof.
  revert s. induction l as [|x l IH]; intros s; [done|].
  rewrite fmap_cons. simpl. rewrite !bind_run.
  destruct (f (g x) s) as [[y|e] s1]; [|done]. apply IH.
Qed.

Lemma undo_loop_flat roads m :
  for_ roads (λ road,
    let '(city1, city2, costs) := road in
    for_ costs (λ cost, add_road city1 city2 cost)) m =
  for_ (flat_roads roads) add_one m.
Proof.
  revert m. induction roads as [|[[c1 c2] costs] roads IH]; intros m; [done|].
  unfold flat_roads. rewrite bind_cons. fold (flat_roads roads).
  rewrite for_app. cbn [for_ fst snd]. rewrite !bind_run, for_fmap.
  unfold add_one at 1. cbn [fst snd].
  destruct (for_ costs _ m) as [[[]|e] m1]; [|done]. apply IH.
Qed.

Lemma added_cons a b c calls x y :
  added ((a, b, c) :: calls) x y =
    if decide (slots a b x y) then c :: added calls x y else added calls x y.
Proof. unfold added. simpl. by case_decide. Qed.

Lemma added_app calls1 calls2 x y :
  added (calls1 ++ calls2) x y = added calls1 x y ++ added calls2 x y.
Proof. unfold added. apply omap_app. Qed.

Lemma add_all_ok calls m :
  sym m →
  Forall (λ call, call.1.1 ≠ call.1.2 ∧ dict_mem call.1.1 m = true ∧
                  dict_mem call.1.2 m = true) calls →
  ∃ m', for_ calls add_one m = (Ok tt, m') ∧ same_cities m m' ∧ sym m' ∧
    ∀ x y, costs_from m' x y =
      if decide (added calls x y = []) then costs_from m x y
      else Some (default [] (costs_from m x y) ++ added calls x y).
Proof.
  revert m. induction calls as [|[[a b] c] calls IH]; intros m Hs Hall.
  - exists m. repeat split; try done.
  - apply Forall_cons in Hall as [(Hab & Ha & Hb) Hall]. simpl in Hab, Ha, Hb.
    destruct (add_road_ok m a b c Hs Hab Ha Hb) as (m1 & Hr & Hc1 & Hv1).
    assert (sym m1) as Hs1 by (by eapply sym_slots_view).
    destruct (IH m1 Hs1) as (m' & Hr' & Hc' & Hs' & Hv').
    { eapply Forall_impl; [done|]. intros [[a' b'] c']; simpl.
      by rewrite !Hc1. }
    exists m'. split; [|split; [|split; [done|]]].
    + cbn [for_]. rewrite bind_run. unfold add_one at 1. simpl. by rewrite Hr.
    + intros x. by rewrite Hc', Hc1.
    + intros x y. rewrite Hv', Hv1, added_cons.
      destruct (decide (slots a b x y)) as [Hxy|Hxy].
      * assert (costs_from m x y = costs_from m a b) as ->.
        { destruct Hxy as [[-> ->]|[-> ->]]; [done|apply Hs]. }
        rewrite (decide_False (P := c :: _ = [])) by done. simpl.
        case_decide as E; [by rewrite E|]. by rewrite <- app_assoc.
      * done.
Qed.

Lemma added_single name nb (l : list Z) x y :
  added ((λ cost, (name, nb, cost)) <$> l) x y =
    if decide (slots name nb x y) then l else [].
Proof.
  induction l as [|c l IH]; [by case_decide|].
  rewrite fmap_cons, added_cons, IH. by case_decide.
Qed.

Lemma flat_roads_cons road roads :
  flat_roads (road :: roads) =
    ((λ cost, (road.1.1, road.1.2, cost)) <$> road.2) ++ flat_roads roads.
Proof. done. Qed.

Lemma flat_roads_app roads1 roads2 :
  flat_roads (roads1 ++ roads2) = flat_roads roads1 ++ flat_roads roads2.
Proof. unfold flat_roads. apply bind_app. Qed.

Lemma dict_get_cons {V} k k0 (v : V) d :
  dict_get k ((k0, v) :: d) = if decide (k = k0) then Some v else dict_get k d.
Proof. done. Qed.

Lemma added_roads_of name d x y :
  dict_wf d → dict_get name d = None →
  added (flat_roads (roads_of name d)) x y =
    if decide (x = name) then default [] (dict_get y d)
    else if decide (y = name) then default [] (dict_get x d)
    else [].
Proof.
  unfold dict_wf. induction d as [|[nb l] d IH].
  - intros _ _. by repeat case_decide.
  - cbn [dict_keys map fst]. intros [Hnb Hd]%NoDup_cons.
    rewrite !dict_get_cons. destruct (decide (name = nb)) as [|Hne]; [done|].
    intros Hname. unfold roads_of. rewrite map_cons. fold (roads_of name d).
    rewrite flat_roads_cons, added_app, added_single. cbn [fst snd].
    rewrite IH by done. apply dict_get_None_keys in Hnb.
    unfold slots, slot.
    destruct (decide (x = name)) as [->|Hx].
    + destruct (decide (y = nb)) as [->|Hy].
      * rewrite decide_True by auto. rewrite Hnb. simpl. apply app_nil_r.
      * rewrite decide_False by naive_solver. done.
    + destruct (decide (y = name)) as [->|Hy].
      * destruct (decide (x = nb)) as [->|Hx'].
        -- rewrite decide_True by auto. rewrite Hnb. simpl. apply app_nil_r.
        -- rewrite decide_False by naive_solver. done.
      * rewrite decide_False by naive_solver. done.
Qed.

Lemma keeps_inner_wf_for {A B} (l : list A) (f : A → M CityMap B) :
  (∀ x, keeps_inner_wf (f x)) → keeps_inner_wf (for_ l f).
Proof.
  intros Hf. induction l as [|x l IH]; simpl; [by intros m Hm|].
  apply keeps_inner_wf_bind; [done|]. by intros _.
Qed.

Lemma execute_remove_city name roads m :
  dict_mem name m = true →
  ∃ d, dict_get name m = Some d ∧
    execute (RemoveCityCommand name roads) m =
      (Ok (true, RemoveCityCommand name (roads ++ roads_of name d)),
       dict_del name (dict_map_values (drop_neighbor name) m)).
Proof.
  intros Hn. pose proof Hn as Hn'. unfold dict_mem in Hn'.
  destruct (dict_get name m) as [d|] eqn:E; [|done]. exists d. split; [done|].
  simpl. rewrite bind_run, has_city_run, Hn. simpl.
  rewrite bind_run, getitem_run, E. simpl.
  rewrite bind_run, remove_city_run, Hn. done.
Qed.

Lemma undo_remove_city name roads m :
  sym m → dict_mem name m = false →
  Forall (λ call, call.1.1 ≠ call.1.2 ∧
            (call.1.1 = name ∨ dict_mem call.1.1 m = true) ∧
            (call.1.2 = name ∨ dict_mem call.1.2 m = true)) (flat_roads roads) →
  ∃ m', undo (RemoveCityCommand name roads) m = (Ok true, m') ∧
    (∀ x, dict_mem x m' = bool_decide (x = name) || dict_mem x m) ∧
    sym m' ∧ (inner_wf m → inner_wf m') ∧
    ∀ x y, costs_from m' x y =
      if decide (added (flat_roads roads) x y = []) then costs_from m x y
      else Some (default [] (costs_from m x y) ++ added (flat_roads roads) x y).
Proof.
  intros Hs Hn Hall. pose proof (sym_add_city name m Hs) as Hs1.
  rewrite add_city_run, Hn in Hs1. simpl in Hs1.
  destruct (add_all_ok (flat_roads roads) (dict_set name [] m) Hs1)
    as (m' & Hr & Hc & Hs' & Hv).
  { eapply Forall_impl; [done|]. intros [[a b] c]; simpl.
    rewrite !dict_mem_set. intros (Hab & Ha & Hb). split; [done|].
    split; apply orb_true_iff; rewrite bool_decide_eq_true; tauto. }
  exists m'. split; [|split; [|split; [done|split]]].
  - simpl. rewrite bind_run, add_city_run, Hn. simpl.
    rewrite bind_run, undo_loop_flat, Hr. done.
  - intros x. by rewrite Hc, dict_mem_set.
  - intros Hi.
    pose proof (keeps_inner_wf_for (flat_roads roads) add_one) as Hk.
    specialize (Hk (λ call, keeps_inner_wf_add_road _ _ _)).
    specialize (Hk _ (inner_wf_add_city name m Hi)). by rewrite Hr in Hk.
  - intros x y. rewrite Hv, costs_from_add_city.
    apply dict_mem_false in Hn.
    assert (costs_from m name y = None) as Hny.
    { unfold costs_from. by rewrite Hn. }
    destruct (decide (x = name)) as [->|]; [by rewrite Hny|done].
Qed.

Lemma same_costs_refl o : same_costs o o.
Proof. destruct o; simpl; done. Qed.

Lemma same_graph_weaken m m' : same_graph m m' → same_graph_up_to_order m m'.
Proof.
  intros [Hc Hv]. split; [done|]. intros x y. rewrite Hv. apply same_costs_refl.
Qed.

Lemma restored_exact c m m' :
  same_graph m m' → restored c m m'.
Proof. intros H. split; [by apply same_graph_weaken|done]. Qed.

Lemma restored_road c m m' :
  is_road_command c = true → same_graph_up_to_order m m' → restored c m m'.
Proof. intros Hc H. split; [done|]. by rewrite Hc. Qed.

(** A cost taken from a city that does not exist. *)
Lemma costs_from_absent_l m x y : dict_mem x m = false → costs_from m x y = None.
Proof. intros H%dict_mem_false. unfold costs_from. by rewrite H. Qed.

Lemma costs_from_absent_r m x y :
  sym m → dict_mem y m = false → costs_from m x y = None.
Proof. intros Hs H. rewrite Hs. by apply costs_from_absent_l. Qed.

Lemma dict_mem_rename_city o n d m x :
  dict_mem x (dict_map_values (rename_neighbor o n) (dict_set n d (dict_del o m))) =
    bool_decide (x = n) || (bool_decide (x ≠ o) && dict_mem x m).
Proof. by rewrite dict_mem_map_values, dict_mem_set, dict_mem_del. Qed.

Lemma undo_redo_add_city name m c1 m1 :
  graph_ok m → execute (AddCityCommand name) m = (Ok (true, c1), m1) →
  ∃ m2, undo c1 m1 = (Ok true, m2) ∧ same_graph m m2 ∧
    ∃ c3 m3, execute c1 m2 = (Ok (true, c3), m3) ∧ same_graph m1 m3.
Proof.
  intros Hok. simpl. rewrite bind_run, add_city_run.
  destruct (dict_mem name m) eqn:Hn; [done|]. simpl. intros [= <- <-].
  pose proof (ok_sym _ Hok) as Hs.
  assert (∀ y, costs_from m name y = None) as Hl
    by (intros; by apply costs_from_absent_l).
  assert (∀ x, costs_from m x name = None) as Hr
    by (intros; by apply costs_from_absent_r).
  simpl. rewrite remove_city_run, dict_mem_set, bool_decide_true by done.
  simpl. eexists. split; [done|].
  assert (same_graph m
            (dict_del name (dict_map_values (drop_neighbor name)
               (dict_set name [] m)))) as Hsame.
  { split.
    - intros x. rewrite dict_mem_del, dict_mem_map_values, dict_mem_set.
      destruct (decide (x = name)) as [->|];
        [by rewrite bool_decide_false, Hn by naive_solver|].
      by rewrite bool_decide_true, bool_decide_false by done.
    - intros x y. rewrite costs_from_remove_city, costs_from_add_city.
      repeat case_decide; subst; rewrite ?Hl, ?Hr; try done.
      destruct H as [-> | ->]; by rewrite ?Hl, ?Hr. }
  split; [done|]. destruct Hsame as [Hc Hv].
  rewrite bind_run, add_city_run, Hc, Hn. simpl. do 2 eexists. split; [done|].
  split.
  - intros x. by rewrite !dict_mem_set, Hc.
  - intros x y. by rewrite !costs_from_add_city, Hv.
Qed.

Lemma rename_city_ok o n m :
  sym m → dict_mem o m = true → dict_mem n m = false →
  ∃ m', rename_city o n m = (Ok true, m') ∧
    (∀ x, dict_mem x m' =
       bool_decide (x = n) || (bool_decide (x ≠ o) && dict_mem x m)) ∧
    ∀ x y, costs_from m' x y =
      if decide (x = o ∨ y = o) then None
      else costs_from m (unrename o n x) (unrename o n y).
Proof.
  intros Hs Ho Hn. rewrite rename_city_run. unfold dict_mem in Ho.
  destruct (dict_get o m) as [d|] eqn:E; [|done]. rewrite Hn.
  eexists. split; [done|]. split.
  - intros x. apply dict_mem_rename_city.
  - intros x y. by apply costs_from_rename_city.
Qed.

Lemma undo_redo_rename_city o n m c1 m1 :
  graph_ok m → execute (RenameCityCommand o n) m = (Ok (true, c1), m1) →
  ∃ m2, undo c1 m1 = (Ok true, m2) ∧ same_graph m m2 ∧
    ∃ c3 m3, execute c1 m2 = (Ok (true, c3), m3) ∧ same_graph m1 m3.
Proof.
  intros Hok. pose proof (ok_sym _ Hok) as Hs. simpl. rewrite bind_run.
  destruct (dict_mem o m) eqn:Ho;
    [|by rewrite rename_city_run; apply dict_mem_false in Ho; rewrite Ho].
  destruct (dict_mem n m) eqn:Hn;
    [rewrite rename_city_run, Hn; by destruct (dict_get o m)|].
  assert (o ≠ n) as Hon by (intros ->; congruence).
  destruct (rename_city_ok o n m Hs Ho Hn) as (m1' & Hr1 & Hc1 & Hv1).
  rewrite Hr1. simpl. intros [= <- <-].
  assert (sym m1') as Hs1.
  { pose proof (sym_rename_city o n m Hs) as H. by rewrite Hr1 in H. }
  destruct (rename_city_ok n o m1' Hs1) as (m2 & Hr2 & Hc2 & Hv2).
  { by rewrite Hc1, bool_decide_true. }
  { rewrite Hc1, !bool_decide_false by naive_solver. done. }
  assert (same_graph m m2) as Hsame.
  { split.
    - intros x. rewrite Hc2, Hc1.
      repeat (case_bool_decide; simpl); subst; try done; try congruence.
    - intros x y. rewrite Hv2.
      destruct (decide (x = n ∨ y = n)) as [[-> | ->]|Hxy];
        [by rewrite costs_from_absent_l|by rewrite costs_from_absent_r|].
      rewrite Hv1. unfold unrename.
      repeat case_decide; subst; naive_solver. }
  exists m2. split; [done|]. split; [done|]. destruct Hsame as [Hc Hv].
  assert (sym m2) as Hs2.
  { pose proof (sym_rename_city n o m1' Hs1) as H. by rewrite Hr2 in H. }
  destruct (rename_city_ok o n m2 Hs2) as (m3 & Hr3 & Hc3 & Hv3);
    [by rewrite Hc..|].
  cbn [execute]. rewrite bind_run, Hr3. simpl.
  do 2 eexists. split; [done|]. split.
  - intros x. by rewrite Hc3, Hc1, Hc.
  - intros x y. rewrite Hv3, Hv1. case_decide; [done|]. apply Hv.
Qed.

(** Replacing an element of a list by position. *)
Lemma insert_swap_perm (l : list Z) i x y :
  l !! i = Some x → y :: l ≡ₚ x :: <[i := y]> l.
Proof.
  revert i. induction l as [|z l IH]; intros [|i]; simpl; try done.
  - intros [= ->]. apply perm_swap.
  - intros H. rewrite (perm_swap z y), (IH i H).
    rewrite (perm_swap x z). done.
Qed.

Lemma perm_nil_iff (l l' : list Z) : l ≡ₚ l' → l = [] ↔ l' = [].
Proof.
  intros H. split; intros ->;
    [by apply Permutation_nil_l in H | by apply Permutation_nil_r in H].
Qed.

Lemma add_road_true_inv a b c m m1 :
  add_road a b c m = (Ok true, m1) →
  dict_mem a m = true ∧ dict_mem b m = true.
Proof.
  intros H. destruct (dict_mem a m && dict_mem b m) eqn:E.
  - by apply andb_true_iff in E.
  - by rewrite add_road_missing in H.
Qed.

Lemma remove_road_true_inv a b cost m m1 :
  remove_road a b cost m = (Ok true, m1) → is_Some (costs_from m a b).
Proof.
  intros H. destruct (costs_from m a b) eqn:E; [eauto|].
  by rewrite remove_road_missing in H by auto.
Qed.

Lemma update_road_cost_true_inv a b old new m m1 :
  update_road_cost a b old new m = (Ok true, m1) →
  ∃ l, costs_from m a b = Some l ∧ old ∈ l.
Proof.
  intros H. destruct (costs_from m a b) as [l|] eqn:E;
    [|by rewrite update_road_cost_missing in H by auto].
  exists l. split; [done|]. destruct (decide (old ∈ l)); [done|].
  rewrite update_road_cost_missing in H; [done|]. right; right. eauto.
Qed.

Lemma slots_view_up_to_order m m' a b v :
  sym m → same_cities m m' →
  (∀ x y, costs_from m' x y =
     if decide (slots a b x y) then v else costs_from m x y) →
  same_costs v (costs_from m a b) →
  same_graph_up_to_order m m'.
Proof.
  intros Hs Hc Hv Hsame. split; [done|]. intros x y. rewrite Hv.
  destruct (decide (slots a b x y)) as [Hxy|]; [|apply same_costs_refl].
  assert (costs_from m x y = costs_from m a b) as ->; [|done].
  destruct Hxy as [[-> ->]|[-> ->]]; [done|apply Hs].
Qed.

Lemma slots_view_compose m m1 m2 a b v1 v2 :
  (∀ x y, costs_from m1 x y =
     if decide (slots a b x y) then v1 else costs_from m x y) →
  (∀ x y, costs_from m2 x y =
     if decide (slots a b x y) then v2 else costs_from m1 x y) →
  ∀ x y, costs_from m2 x y =
     if decide (slots a b x y) then v2 else costs_from m x y.
Proof. intros H1 H2 x y. rewrite H2, H1. by case_decide. Qed.

Lemma slots_view_at m m1 a b v :
  (∀ x y, costs_from m1 x y =
     if decide (slots a b x y) then v else costs_from m x y) →
  costs_from m1 a b = v.
Proof. intros H. rewrite H. by rewrite decide_True by (left; done). Qed.

Lemma same_cities_trans m m1 m2 :
  same_cities m m1 → same_cities m1 m2 → same_cities m m2.
Proof. intros H1 H2 x. by rewrite H2, H1. Qed.

Lemma sym_of_run {A} (c : M CityMap A) m r m' :
  (sym m → sym (c m).2) → sym m → c m = (r, m') → sym m'.
Proof. intros H Hs E. rewrite E in H. by apply H. Qed.

Lemma undo_redo_add_road a b c m c1 m1 :
  graph_ok m → a ≠ b → execute (AddRoadCommand a b c) m = (Ok (true, c1), m1) →
  ∃ m2, undo c1 m1 = (Ok true, m2) ∧ same_graph_up_to_order m m2 ∧
    ∃ c3 m3, execute c1 m2 = (Ok (true, c3), m3) ∧ same_graph_up_to_order m1 m3.
Proof.
  intros Hok Hab. pose proof (ok_sym _ Hok) as Hs. cbn [execute].
  rewrite bind_run. destruct (add_road a b c m) as [[[]|] m1'] eqn:E;
    simpl; intros [= <- <-].
  destruct (add_road_true_inv _ _ _ _ _ E) as [Ha Hb].
  destruct (add_road_ok m a b c Hs Hab Ha Hb) as (? & Hr1 & Hc1 & Hv1).
  rewrite E in Hr1. injection Hr1 as <-.
  pose proof (sym_of_run _ _ _ _ (sym_add_road a b c m) Hs E) as Hs1.
  set (D := default [] (costs_from m a b)) in *.
  destruct (py_remove_is_Some c (D ++ [c])) as [l' Hl'];
    [apply elem_of_app; right; by left|].
  assert (l' ≡ₚ D) as Hp.
  { apply py_remove_perm in Hl'. rewrite <- Permutation_cons_append in Hl'.
    by apply Permutation_cons_inv in Hl'. }
  destruct (remove_road_present m1' a b (D ++ [c]) l' c Hs1 Hab
              (slots_view_at _ _ _ _ _ Hv1) Hl') as (m2 & Hr2 & Hc2 & Hv2).
  pose proof (sym_of_run _ _ _ _ (sym_remove_road a b (Some c) m1') Hs1 Hr2) as Hs2.
  pose proof (slots_view_compose _ _ _ _ _ _ _ Hv1 Hv2) as Hv02.
  exists m2. split; [done|]. split.
  { eapply slots_view_up_to_order; [done|by eapply same_cities_trans|done|].
    subst D. destruct (costs_from m a b) as [l|] eqn:El; simpl in *.
    - rewrite decide_False; [done|]. intros ->.
      apply Permutation_nil_l in Hp. subst. by apply (ok_nonempty _ Hok a b).
    - apply Permutation_nil_r in Hp. subst. by rewrite decide_True. }
  destruct (add_road_ok m2 a b c Hs2 Hab) as (m3 & Hr3 & Hc3 & Hv3);
    [by rewrite Hc2, Hc1..|].
  cbn [execute]. rewrite bind_run, Hr3. simpl. do 2 eexists. split; [done|].
  eapply slots_view_up_to_order; [done|by eapply same_cities_trans| |].
  - eapply slots_view_compose; [|done]. exact Hv2.
  - rewrite (slots_view_at _ _ _ _ _ Hv1), (slots_view_at _ _ _ _ _ Hv2).
    simpl. apply Permutation_app_tail.
    case_decide as El; [subst; simpl; by symmetry in Hp|done].
Qed.

Lemma undo_redo_remove_road a b c m c1 m1 :
  graph_ok m → a ≠ b →
  (∃ l, costs_from m a b = Some l ∧ c ∈ l) →
  execute (RemoveRoadCommand a b c) m = (Ok (true, c1), m1) →
  ∃ m2, undo c1 m1 = (Ok true, m2) ∧ same_graph_up_to_order m m2 ∧
    ∃ c3 m3, execute c1 m2 = (Ok (true, c3), m3) ∧ same_graph_up_to_order m1 m3.
Proof.
  intros Hok Hab (l & El & Hc). pose proof (ok_sym _ Hok) as Hs.
  cbn [execute]. rewrite bind_run.
  destruct (py_remove_is_Some c l Hc) as [l' Hl'].
  destruct (remove_road_present m a b l l' c Hs Hab El Hl')
    as (m1' & Hr1 & Hc1 & Hv1).
  rewrite Hr1. simpl. intros [= <- <-].
  pose proof (py_remove_perm _ _ _ Hl') as Hp.
  pose proof (sym_of_run _ _ _ _ (sym_remove_road a b (Some c) m) Hs Hr1) as Hs1.
  pose proof (costs_from_Some_mem _ _ _ _ El) as Ha.
  pose proof (sym_mem_r _ _ _ _ Hs El) as Hb.
  destruct (add_road_ok m1' a b c Hs1 Hab) as (m2 & Hr2 & Hc2 & Hv2);
    [by rewrite Hc1..|].
  pose proof (sym_of_run _ _ _ _ (sym_add_road a b c m1') Hs1 Hr2) as Hs2.
  rewrite (slots_view_at _ _ _ _ _ Hv1) in Hv2.
  assert (default [] (if decide (l' = []) then None else Some l') = l') as Hd.
  { by case_decide; subst. }
  rewrite Hd in Hv2.
  exists m2. split; [done|]. split.
  { eapply slots_view_up_to_order; [done|by eapply same_cities_trans| |].
    - eapply slots_view_compose; [exact Hv1|exact Hv2].
    - rewrite El. simpl. rewrite Hp. symmetry. apply Permutation_cons_append. }
  destruct (py_remove_is_Some c (l' ++ [c])) as [l'' Hl''];
    [apply elem_of_app; right; by left|].
  assert (l'' ≡ₚ l') as Hp'.
  { apply py_remove_perm in Hl''. rewrite <- Permutation_cons_append in Hl''.
    by apply Permutation_cons_inv in Hl''. }
  destruct (remove_road_present m2 a b (l' ++ [c]) l'' c Hs2 Hab
              (slots_view_at _ _ _ _ _ Hv2) Hl'') as (m3 & Hr3 & Hc3 & Hv3).
  cbn [execute]. rewrite bind_run, Hr3. simpl. do 2 eexists. split; [done|].
  eapply slots_view_up_to_order; [done|by eapply same_cities_trans| |].
  - eapply slots_view_compose; [exact Hv2|exact Hv3].
  - rewrite (slots_view_at _ _ _ _ _ Hv1).
    pose proof (perm_nil_iff _ _ Hp') as Hnil.
    repeat case_decide; simpl; try done; tauto.
Qed.

Lemma undo_redo_update_road a b old new m c1 m1 :
  graph_ok m → a ≠ b →
  execute (UpdateRoadCommand a b old new) m = (Ok (true, c1), m1) →
  ∃ m2, undo c1 m1 = (Ok true, m2) ∧ same_graph_up_to_order m m2 ∧
    ∃ c3 m3, execute c1 m2 = (Ok (true, c3), m3) ∧ same_graph_up_to_order m1 m3.
Proof.
  intros Hok Hab. pose proof (ok_sym _ Hok) as Hs. cbn [execute].
  rewrite bind_run.
  destruct (update_road_cost a b old new m) as [[[]|] m1'] eqn:E;
    simpl; intros [= <- <-].
  destruct (update_road_cost_true_inv _ _ _ _ _ _ E) as (l & El & Hold).
  destruct (py_index_is_Some _ _ Hold) as [i Hi].
  destruct (update_road_cost_ok m a b l i old new Hs Hab El Hi)
    as (? & Hr1 & Hc1 & Hv1).
  rewrite E in Hr1. injection Hr1 as <-.
  pose proof (sym_of_run _ _ _ _ (sym_update_road_cost a b old new m) Hs E) as Hs1.
  pose proof (py_index_lookup _ _ _ Hi) as Hli.
  pose proof (insert_swap_perm l i old new Hli) as Hp1.
  set (l1 := <[i := new]> l) in *.
  assert (new ∈ l1) as Hnew.
  { apply list_elem_of_lookup. exists i. apply list_lookup_insert_eq.
    by eapply lookup_lt_Some. }
  destruct (py_index_is_Some _ _ Hnew) as [j Hj].
  destruct (update_road_cost_ok m1' a b l1 j new old Hs1 Hab
              (slots_view_at _ _ _ _ _ Hv1) Hj) as (m2 & Hr2 & Hc2 & Hv2).
  pose proof (sym_of_run _ _ _ _ (sym_update_road_cost a b new old m1') Hs1 Hr2)
    as Hs2.
  pose proof (py_index_lookup _ _ _ Hj) as Hlj.
  pose proof (insert_swap_perm l1 j new old Hlj) as Hp2.
  set (l2 := <[j := old]> l1) in *.
  assert (l2 ≡ₚ l) as Hp02.
  { apply (Permutation_cons_inv (a := new)). by rewrite <- Hp2, Hp1. }
  exists m2. split; [done|]. split.
  { eapply slots_view_up_to_order; [done|by eapply same_cities_trans| |].
    - eapply slots_view_compose; [exact Hv1|exact Hv2].
    - by rewrite El. }
  assert (old ∈ l2) as Hold2.
  { apply list_elem_of_lookup. exists j. apply list_lookup_insert_eq.
    by eapply lookup_lt_Some. }
  destruct (py_index_is_Some _ _ Hold2) as [k Hk].
  destruct (update_road_cost_ok m2 a b l2 k old new Hs2 Hab
              (slots_view_at _ _ _ _ _ Hv2) Hk) as (m3 & Hr3 & Hc3 & Hv3).
  pose proof (insert_swap_perm l2 k old new (py_index_lookup _ _ _ Hk)) as Hp3.
  cbn [execute]. rewrite bind_run, Hr3. simpl. do 2 eexists. split; [done|].
  eapply slots_view_up_to_order; [done|by eapply same_cities_trans| |].
  - eapply slots_view_compose; [exact Hv2|exact Hv3].
  - rewrite (slots_view_at _ _ _ _ _ Hv1). simpl.
    apply (Permutation_cons_inv (a := old)).
    by rewrite <- Hp3, Hp02, Hp1.
Qed.

Lemma added_calls_from name m calls x y :
  calls_from name m calls → x ≠ name → y ≠ name → added calls x y = [].
Proof.
  intros Hall Hx Hy. induction Hall as [|[[a b] c] calls (Ha & Hb & _) _ IH];
    [done|].
  simpl in Ha. subst a. rewrite added_cons, decide_False; [done|].
  unfold slots, slot. naive_solver.
Qed.

Lemma elem_of_flat_roads call roads :
  call ∈ flat_roads roads ↔
  ∃ road, road ∈ roads ∧ call.1 = road.1 ∧ call.2 ∈ road.2.
Proof.
  unfold flat_roads. rewrite list_elem_of_bind. split.
  - intros (road & Hc & Hr). apply list_elem_of_fmap in Hc as (cost & -> & Hcost).
    exists road. by destruct road as [[] ?].
  - intros (road & Hr & H1 & H2). exists road. split; [|done].
    apply list_elem_of_fmap. exists call.2. split; [|done].
    destruct call as [[] ?], road as [[] ?]. simpl in *. congruence.
Qed.

Lemma calls_from_roads_of name d m :
  sym m → inner_wf m → dict_get name m = Some d →
  costs_from m name name = None →
  calls_from name m (flat_roads (roads_of name d)).
Proof.
  intros Hs Hi Hd Hl. apply Forall_forall. intros [[a b] c].
  rewrite elem_of_flat_roads. intros ([[a' b'] l] & Hr & [= -> ->] & Hc).
  simpl in *. unfold roads_of in Hr.
  apply list_elem_of_fmap in Hr as ([nb l'] & [= -> -> ->] & Hin).
  apply (dict_get_elem_of d) in Hin; [|by eapply Hi].
  assert (costs_from m name nb = Some l') as Hnb.
  { unfold costs_from. by rewrite Hd. }
  split; [done|]. split.
  - intros ->. congruence.
  - by eapply sym_mem_r.
Qed.

Lemma calls_from_same_cities name m m' calls :
  (∀ x, x ≠ name → dict_mem x m' = dict_mem x m) →
  calls_from name m calls → calls_from name m' calls.
Proof.
  intros Hc H. eapply Forall_impl; [exact H|]. intros [[a b] c]; simpl.
  intros (? & ? & ?). by rewrite Hc.
Qed.

(** One execute/undo round of a [RemoveCityCommand] that already holds the
    roads [roads]. *)
Lemma execute_undo_remove_city name roads m :
  sym m → inner_wf m → costs_from m name name = None →
  dict_mem name m = true → calls_from name m (flat_roads roads) →
  ∃ d m1 m2,
    dict_get name m = Some d ∧
    execute (RemoveCityCommand name roads) m =
      (Ok (true, RemoveCityCommand name (roads ++ roads_of name d)), m1) ∧
    (∀ x, dict_mem x m1 = bool_decide (x ≠ name) && dict_mem x m) ∧
    (∀ x y, costs_from m1 x y =
       if decide (x = name ∨ y = name) then None else costs_from m x y) ∧
    undo (RemoveCityCommand name (roads ++ roads_of name d)) m1 = (Ok true, m2) ∧
    same_cities m m2 ∧ sym m2 ∧ inner_wf m2 ∧
    ∀ x y, costs_from m2 x y =
      if decide (x = name ∨ y = name)
      then (let l := added (flat_roads roads) x y ++
                     default [] (costs_from m x y) in
            if decide (l = []) then None else Some l)
      else costs_from m x y.
Proof.
  intros Hs Hi Hl Hn Hcalls.
  destruct (execute_remove_city name roads m Hn) as (d & Hd & He).
  set (m1 := dict_del name (dict_map_values (drop_neighbor name) m)) in *.
  assert (∀ x, dict_mem x m1 = bool_decide (x ≠ name) && dict_mem x m) as Hc1.
  { intros x. unfold m1. by rewrite dict_mem_del, dict_mem_map_values. }
  assert (sym m1) as Hs1.
  { pose proof (sym_remove_city name m Hs) as H.
    by rewrite remove_city_run, Hn in H. }
  assert (inner_wf m1) as Hi1 by by apply inner_wf_remove_city.
  assert (calls_from name m (flat_roads (roads ++ roads_of name d))) as Hcalls'.
  { rewrite flat_roads_app. apply Forall_app. split; [done|].
    by apply calls_from_roads_of. }
  destruct (undo_remove_city name (roads ++ roads_of name d) m1 Hs1)
    as (m2 & Hu & Hc2 & Hs2 & Hi2 & Hv2).
  { by rewrite Hc1, bool_decide_false by naive_solver. }
  { eapply Forall_impl; [exact Hcalls'|]. intros [[a b] c]; simpl.
    intros (-> & Hb & Hbm). split; [done|]. split; [by left|right].
    by rewrite Hc1, bool_decide_true. }
  exists d, m1, m2. split; [done|]. split; [done|]. split; [done|].
  split; [intros x y; apply costs_from_remove_city|].
  split; [done|]. split; [|split; [done|split; [auto|]]].
  - intros x. rewrite Hc2, Hc1.
    repeat (case_bool_decide; simpl); subst; try done; congruence.
  - intros x y. rewrite Hv2. unfold m1. rewrite costs_from_remove_city.
    rewrite flat_roads_app, added_app.
    assert (dict_get name d = None) as Hdn.
    { unfold costs_from in Hl. by rewrite Hd in Hl. }
    rewrite (added_roads_of name d) by (try done; by eapply Hi).
    destruct (decide (x = name ∨ y = name)) as [Hxy|Hxy].
    + assert (default [] (costs_from m x y) =
                (if decide (x = name) then default [] (dict_get y d)
                 else if decide (y = name) then default [] (dict_get x d)
                 else [])) as <-.
      { destruct (decide (x = name)) as [->|Hx].
        - unfold costs_from. by rewrite Hd.
        - destruct Hxy as [?| ->]; [done|]. rewrite decide_True by done.
          rewrite Hs. unfold costs_from. by rewrite Hd. }
      simpl. by case_decide.
    + rewrite (added_calls_from name m) by (try done; naive_solver).
      destruct (decide (x = name)); [tauto|].
      destruct (decide (y = name)); [tauto|]. done.
Qed.

Lemma calls_from_nil name m : calls_from name m (flat_roads []).
Proof. apply Forall_nil_2. Qed.

Lemma default_nonempty (o : option (list Z)) :
  o ≠ Some [] →
  (if decide (default [] o = []) then None else Some (default [] o)) = o.
Proof. destruct o as [[|z l]|]; simpl; try done. Qed.

Lemma undo_first_remove_city name m :
  graph_ok m → dict_mem name m = true →
  ∃ d m1 m2,
    dict_get name m = Some d ∧
    execute (RemoveCityCommand name []) m =
      (Ok (true, RemoveCityCommand name (roads_of name d)), m1) ∧
    (∀ x, dict_mem x m1 = bool_decide (x ≠ name) && dict_mem x m) ∧
    (∀ x y, costs_from m1 x y =
       if decide (x = name ∨ y = name) then None else costs_from m x y) ∧
    undo (RemoveCityCommand name (roads_of name d)) m1 = (Ok true, m2) ∧
    same_graph m m2 ∧ sym m2 ∧ inner_wf m2.
Proof.
  intros [Hs Hl Hne Hi] Hn.
  destruct (execute_undo_remove_city name [] m Hs Hi (Hl name) Hn
              (calls_from_nil name m))
    as (d & m1 & m2 & Hd & He & Hc1 & Hv1 & Hu & Hc2 & Hs2 & Hi2 & Hv2).
  exists d, m1, m2. repeat split; try done.
  intros x y. rewrite Hv2. simpl.
  case_decide; [|done]. apply default_nonempty, Hne.
Qed.

Lemma undo_redo_remove_city name m c1 m1 :
  graph_ok m → execute (RemoveCityCommand name []) m = (Ok (true, c1), m1) →
  ∃ m2, undo c1 m1 = (Ok true, m2) ∧ same_graph m m2 ∧
    ∃ c3 m3, execute c1 m2 = (Ok (true, c3), m3) ∧ same_graph m1 m3.
Proof.
  intros Hok He. destruct (dict_mem name m) eqn:Hn.
  - destruct (undo_first_remove_city name m Hok Hn)
      as (d & m1' & m2 & Hd & He' & Hc1 & Hv1 & Hu & [Hc2 Hv2] & Hs2 & Hi2).
    rewrite He' in He. injection He as <- <-.
    exists m2. split; [done|]. split; [done|].
    destruct (execute_remove_city name (roads_of name d) m2)
      as (d' & Hd' & He2); [by rewrite Hc2|].
    do 2 eexists. split; [exact He2|]. split.
    + intros x. by rewrite dict_mem_del, dict_mem_map_values, Hc1, Hc2.
    + intros x y. rewrite costs_from_remove_city, Hv1.
      case_decide; [done|apply Hv2].
  - simpl in He. rewrite bind_run, has_city_run, Hn in He. done.
Qed.

(** Claim C2, amended. On a map [graph_ok] of the editor, for a command the
    editor submits ([editor_command]) whose [execute] succeeds, [undo]
    succeeds and gives back the cities and, in each direction, the costs of
    the map before [execute]; executing the command again then gives back
    the map after [execute] in the same sense. For [AddCityCommand],
    [RemoveCityCommand] and [RenameCityCommand] the cost lists come back
    exactly, order included; for the three road commands they come back up
    to the order of the costs within a list. *)
Theorem undo_redo_inverse (c : Command) (m : CityMap) c1 m1 :
  graph_ok m → editor_command c m →
  execute c m = (Ok (true, c1), m1) →
  ∃ m2, undo c1 m1 = (Ok true, m2) ∧ restored c m m2 ∧
    ∃ c3 m3, execute c1 m2 = (Ok (true, c3), m3) ∧ restored c m1 m3.
Proof.
  intros Hok Hed He. destruct c; simpl in Hed.
  - destruct (undo_redo_add_city _ _ _ _ Hok He) as (m2 & ? & ? & c3 & m3 & ? & ?).
    exists m2. split; [done|]. split; [by apply restored_exact|].
    exists c3, m3. split; [done|]. by apply restored_exact.
  - subst roads.
    destruct (undo_redo_remove_city _ _ _ _ Hok He) as (m2 & ? & ? & c3 & m3 & ? & ?).
    exists m2. split; [done|]. split; [by apply restored_exact|].
    exists c3, m3. split; [done|]. by apply restored_exact.
  - destruct (undo_redo_rename_city _ _ _ _ _ Hok He) as (m2 & ? & ? & c3 & m3 & ? & ?).
    exists m2. split; [done|]. split; [by apply restored_exact|].
    exists c3, m3. split; [done|]. by apply restored_exact.
  - destruct (undo_redo_add_road _ _ _ _ _ _ Hok Hed He)
      as (m2 & ? & ? & c3 & m3 & ? & ?).
    exists m2. split; [done|]. split; [by apply restored_road|].
    exists c3, m3. split; [done|]. by apply restored_road.
  - destruct Hed as [Hab Hc].
    destruct (undo_redo_remove_road _ _ _ _ _ _ Hok Hab Hc He)
      as (m2 & ? & ? & c3 & m3 & ? & ?).
    exists m2. split; [done|]. split; [by apply restored_road|].
    exists c3, m3. split; [done|]. by apply restored_road.
  - destruct (undo_redo_update_road _ _ _ _ _ _ _ Hok Hed He)
      as (m2 & ? & ? & c3 & m3 & ? & ?).
    exists m2. split; [done|]. split; [by apply restored_road|].
    exists c3, m3. split; [done|]. by apply restored_road.
Qed.

Lemma execute_command_true command after m' s :
  execute (held (lists s) command) (city_map s) = (Ok (true, after), m') →
  execute_command command s =
    (Ok true, saved (set_redo_stack []
                (set_undo_stack (undo_stack s ++ [command])
                   (set_lists (written command after (lists s))
                      (set_city_map m' s))))).
Proof.
  intros He. unfold execute_command. rewrite bind_run, execute_held_run, He.
  simpl.
  repeat (first [rewrite bind_run | rewrite modify_run]; simpl).
  by rewrite _save_state_run.
Qed.

Lemma manager_undo_true rest command m' s :
  undo_stack s = rest ++ [command] →
  undo (held (lists s) command) (city_map s) = (Ok true, m') →
  manager_undo s =
    (Ok true, saved (set_redo_stack (redo_stack s ++ [command])
                (set_city_map m' (set_undo_stack rest s)))).
Proof.
  intros Hu Hc. unfold manager_undo. rewrite bind_run.
  simpl. rewrite Hu, last_snoc, removelast_snoc.
  repeat (first [rewrite bind_run | rewrite modify_run]; simpl).
  rewrite undo_held_run. simpl. rewrite Hc. simpl.
  repeat (first [rewrite bind_run | rewrite modify_run]; simpl).
  by rewrite _save_state_run.
Qed.

Lemma manager_redo_true rest command after m' s :
  redo_stack s = rest ++ [command] →
  execute (held (lists s) command) (city_map s) = (Ok (true, after), m') →
  manager_redo s =
    (Ok true, saved (set_undo_stack (undo_stack s ++ [command])
                (set_lists (written command after (lists s))
                   (set_city_map m' (set_redo_stack rest s))))).
Proof.
  intros Hu Hc. unfold manager_redo. rewrite bind_run.
  simpl. rewrite Hu, last_snoc, removelast_snoc.
  repeat (first [rewrite bind_run | rewrite modify_run]; simpl).
  rewrite execute_held_run. simpl. rewrite Hc. simpl.
  repeat (first [rewrite bind_run | rewrite modify_run]; simpl).
  by rewrite _save_state_run.
Qed.

Lemma roads_at_insert (lists : heap) a roads :
  (a < length lists)%nat → roads_at (<[a := roads]> lists) a = roads.
Proof. intros Ha. unfold roads_at. by rewrite list_lookup_insert_eq. Qed.

Lemma roads_at_new (lists : heap) roads more :
  roads_at (lists ++ roads :: more) (length lists) = roads.
Proof. unfold roads_at. by rewrite list_lookup_middle. Qed.

Lemma app_self_ne (l : list Z) : l ≠ [] → l ++ l ≠ l.
Proof.
  intros Hl E. apply (f_equal length) in E. rewrite length_app in E.
  destruct l; simpl in *; [done|lia].
Qed.

(** Two execute/undo rounds of one [RemoveCityCommand] object. *)
Lemma remove_city_twice name m :
  graph_ok m → dict_mem name m = true →
  ∃ d d' m1 m2 m3 m4,
    dict_get name m = Some d ∧
    execute (RemoveCityCommand name []) m =
      (Ok (true, RemoveCityCommand name (roads_of name d)), m1) ∧
    undo (RemoveCityCommand name (roads_of name d)) m1 = (Ok true, m2) ∧
    execute (RemoveCityCommand name (roads_of name d)) m2 =
      (Ok (true, RemoveCityCommand name (roads_of name d ++ roads_of name d')), m3) ∧
    undo (RemoveCityCommand name (roads_of name d ++ roads_of name d')) m3 =
      (Ok true, m4) ∧
    (∀ y, dict_get y d' = dict_get y d) ∧
    ∀ y l, costs_from m name y = Some l →
      costs_from m4 name y = Some (l ++ l) ∧
      costs_from m4 y name = Some (l ++ l).
Proof.
  intros Hok Hn. pose proof Hok as [Hs Hl Hne Hi].
  destruct (undo_first_remove_city name m Hok Hn)
    as (d & m1 & m2 & Hd & He & Hc1 & Hv1 & Hu & [Hc2 Hv2] & Hs2 & Hi2).
  destruct (execute_undo_remove_city name (roads_of name d) m2 Hs2 Hi2)
    as (d' & m3 & m4 & Hd' & He' & Hc3 & Hv3 & Hu' & Hc4 & Hs4 & Hi4 & Hv4).
  { by rewrite Hv2. }
  { by rewrite Hc2. }
  { apply (calls_from_same_cities name m); [by intros x _|].
    by apply calls_from_roads_of. }
  assert (dict_get name d = None) as Hdn.
  { specialize (Hl name). unfold costs_from in Hl. by rewrite Hd in Hl. }
  exists d, d', m1, m2, m3, m4. repeat split; try done.
  - intros y. transitivity (costs_from m name y).
    + rewrite <- Hv2. unfold costs_from. by rewrite Hd'.
    + unfold costs_from. by rewrite Hd.
  - rewrite Hv4, decide_True by auto. cbn zeta.
    rewrite (added_roads_of name d) by (try done; by eapply Hi).
    rewrite (decide_True (P := name = name)) by done. rewrite Hv2, H.
    assert (dict_get y d = Some l) as ->.
    { unfold costs_from in H. by rewrite Hd in H. }
    simpl. rewrite decide_False; [done|].
    intros E. apply app_eq_nil in E as [-> _]. by apply (Hne name y).
  - rewrite Hs4, Hv4, decide_True by auto. cbn zeta.
    rewrite (added_roads_of name d) by (try done; by eapply Hi).
    rewrite (decide_True (P := name = name)) by done. rewrite Hv2, H.
    assert (dict_get y d = Some l) as ->.
    { unfold costs_from in H. by rewrite Hd in H. }
    simpl. rewrite decide_False; [done|].
    intros E. apply app_eq_nil in E as [-> _]. by apply (Hne name y).
Qed.

(** Claim C10. [RemoveCityCommand.execute] appends to [roads] without
    clearing it: after [execute_command] of a new command, [undo], [redo],
    the list of the command on the undo stack holds the captured roads
    followed by a second capture of the same neighbours, and the next [undo]
    puts every cost list of the removed city back twice, in both
    directions, which is not the list the map had before the removal. *)
Theorem remove_city_redo_duplicates_roads (s : CommandManager) (name : string) :
  graph_ok (city_map s) → dict_mem name (city_map s) = true →
  ∃ command s1 s2 s3 s4 d d',
    dict_get name (city_map s) = Some d ∧
    (command ← on_lists (new_RemoveCityCommand name);
     ok ← execute_command command; ret (command, ok)) s =
      (Ok (command, true), s1) ∧
    last (undo_stack s1) = Some command ∧
    held (lists s1) command = RemoveCityCommand name (roads_of name d) ∧
    manager_undo s1 = (Ok true, s2) ∧
    manager_redo s2 = (Ok true, s3) ∧
    last (undo_stack s3) = Some command ∧
    held (lists s3) command =
      RemoveCityCommand name (roads_of name d ++ roads_of name d') ∧
    (∀ y, dict_get y d' = dict_get y d) ∧
    manager_undo s3 = (Ok true, s4) ∧
    ∀ y l, costs_from (city_map s) name y = Some l →
      costs_from (city_map s4) name y = Some (l ++ l) ∧
      costs_from (city_map s4) y name = Some (l ++ l) ∧
      costs_from (city_map s4) name y ≠ costs_from (city_map s) name y.
Proof.
  intros Hok Hn.
  destruct (remove_city_twice name (city_map s) Hok Hn)
    as (d & d' & m1 & m2 & m3 & m4 & Hd & He1 & Hu1 & He2 & Hu2 & Hdd & Hv).
  set (a := length (lists s)).
  set (command := RemoveCityCommand name a : CommandRef).
  set (s0 := set_lists (lists s ++ [[]]) s).
  assert (held (lists s0) command = RemoveCityCommand name []) as Hh0.
  { cbn [held command s0 lists set_lists]. f_equal. apply roads_at_new. }
  pose proof (execute_command_true command
                (RemoveCityCommand name (roads_of name d)) m1 s0) as H1.
  rewrite Hh0 in H1. specialize (H1 He1).
  set (s1 := saved _) in H1.
  assert (lists s1 = lists s ++ [roads_of name d]) as Hl1.
  { cbn. unfold a. rewrite insert_app_r_alt by done.
    by rewrite Nat.sub_diag. }
  assert (held (lists s1) command = RemoveCityCommand name (roads_of name d))
    as Hh1.
  { cbn [held command]. rewrite Hl1. f_equal. apply roads_at_new. }
  pose proof (manager_undo_true (undo_stack s) command m2 s1 eq_refl) as H2.
  rewrite Hh1 in H2. specialize (H2 Hu1).
  set (s2 := saved _) in H2.
  pose proof (manager_redo_true [] command
                (RemoveCityCommand name (roads_of name d ++ roads_of name d'))
                m3 s2 eq_refl) as H3.
  change (lists s2) with (lists s1) in H3. rewrite Hh1 in H3.
  specialize (H3 He2).
  set (s3 := saved _) in H3.
  assert (held (lists s3) command =
            RemoveCityCommand name (roads_of name d ++ roads_of name d'))
    as Hh3.
  { cbn [held command]. f_equal.
    change (lists s3) with (<[a := roads_of name d ++ roads_of name d']> (lists s1)).
    apply roads_at_insert. rewrite Hl1, length_app. unfold a. simpl. lia. }
  pose proof (manager_undo_true (undo_stack s) command m4 s3 eq_refl) as H4.
  rewrite Hh3 in H4. specialize (H4 Hu2).
  set (s4 := saved _) in H4.
  exists command, s1, s2, s3, s4, d, d'.
  split; [done|]. split.
  { rewrite bind_run. unfold on_lists, new_RemoveCityCommand.
    rewrite bind_run, new_list_run, ret_run. cbv beta iota.
    fold a. fold command. fold s0. rewrite bind_run, H1. done. }
  split; [apply last_snoc|]. split; [done|].
  split; [done|]. split; [done|]. split; [apply last_snoc|].
  split; [done|]. split; [done|]. split; [done|].
  intros y l Hl. destruct (Hv y l Hl) as [Ha Hb].
  change (city_map s4) with m4. split; [done|]. split; [done|].
  rewrite Ha, Hl. intros [= E]. revert E. apply app_self_ne.
  intros ->. by apply (ok_nonempty _ Hok name y).
Qed.

(** Claim C3. [remove_road] with an explicit cost, between two distinct
    cities of a symmetric map that are joined by [costs]. When the cost is
    not among them the call returns [True] and leaves the map as it is,
    where the claim asks for [False]. When it is, the first instance is
    removed from both directions and the entry goes from both sides once
    its list is empty, as the claim says. *)
Theorem remove_road_with_cost (m : CityMap) (a b : string)
    (costs : list Z) (cost : Z) :
  sym m → a ≠ b → costs_from m a b = Some costs →
  (cost ∉ costs → remove_road a b (Some cost) m = (Ok true, m)) ∧
  (∀ rest, py_remove cost costs = Some rest →
     ∃ m', remove_road a b (Some cost) m = (Ok true, m') ∧
       same_cities m m' ∧
       ∀ x y, costs_from m' x y =
         if decide (slots a b x y)
         then (if decide (rest = []) then None else Some rest)
         else costs_from m x y).
Proof.
  intros Hs Hab Hc. split.
  - intros Hcost. eapply remove_road_absent; [|done..].
    by eapply sym_mem_r.
  - intros rest Hrest. by eapply remove_road_present.
Qed.

Lemma example_map_reachable : reachable example_map.
Proof. unfold example_map. repeat apply reachable_step. apply reachable_empty. Qed.

Lemma example_map_built : built example_map.
Proof. unfold example_map. repeat (apply built_step; [|done]). apply built_empty. Qed.

Lemma example_map_ok : graph_ok example_map.
Proof. apply built_graph_ok, example_map_built. Qed.

Lemma example_map_wf : map_wf example_map.
Proof.
  split.
  - unfold dict_wf. apply (bool_decide_unpack _). vm_compute. exact I.
  - intros a d. vm_compute example_map. simpl.
    repeat case_decide; intros [= <-]; unfold dict_wf;
      apply (bool_decide_unpack _); vm_compute; exact I.
Qed.

Example scenario2 :
  let m := (add_city "X";; add_city "Y";; add_road "X" "Y" 5;;
            add_road "X" "Y" 5;; remove_road "X" "Y" (Some 5%Z)) empty_map in
  get_roads_from_city "X" m.2 = [("Y", [5%Z])] ∧
  (remove_road "X" "Y" None m.2).2 = [("X", []); ("Y", [])].
Proof. split; vm_compute; reflexivity. Qed.

Example scenario3 :
  let removed := execute (RemoveCityCommand "X" []) example_map in
  ∃ cmd m1, removed = (Ok (true, cmd), m1) ∧
    get_cities m1 = ["Y"; "Z"] ∧
    get_roads_from_city "X" (undo cmd m1).2 = [("Y", [5%Z]); ("Z", [3%Z])] ∧
    get_roads_from_city "Y" (undo cmd m1).2 = [("X", [5%Z])] ∧
    get_roads_from_city "Z" (undo cmd m1).2 = [("X", [3%Z])].
Proof. do 2 eexists. split; [vm_compute; reflexivity|]. repeat split. Qed.

Example scenario4 :
  rename_city "X" "X" example_map = (Ok false, example_map) ∧
  rename_city "X" "Y" example_map = (Ok false, example_map).
Proof. split; vm_compute; reflexivity. Qed.

(** A road from a city to itself: [add_road] appends the cost twice to the
    one list, and removing it raises [KeyError] at the second [del]. *)
Example self_road_raises :
  (add_city "A";; add_road "A" "A" 5) empty_map = (Ok true, [("A", [("A", [5; 5]%Z)])]) ∧
  remove_road "A" "A" (Some 5%Z) [("A", [("A", [5; 5]%Z)])] =
    (Raised KeyError, [("A", [])]).
Proof. split; vm_compute; reflexivity. Qed.

Lemma reachable_costs_symmetric_witness :
  reachable example_map ∧
  (is_Some (costs_from example_map "X" "Y") ↔
   is_Some (costs_from example_map "Y" "X")) ∧
  (∀ la lb, costs_from example_map "X" "Y" = Some la →
            costs_from example_map "Y" "X" = Some lb → la ≡ₚ lb).
Proof.
  split; [exact example_map_reachable|].
  apply (reachable_costs_symmetric example_map "X" "Y").
  exact example_map_reachable.
Defined.

Lemma reachable_costs_ordered_symmetric_witness :
  reachable example_map ∧
  costs_from example_map "X" "Z" = costs_from example_map "Z" "X".
Proof.
  split; [exact example_map_reachable|].
  apply (reachable_costs_ordered_symmetric example_map "X" "Z").
  exact example_map_reachable.
Defined.

(** Claim C2 fails as stated: with the costs [[5; 3]] between A and B,
    [AddRoadCommand "A" "B" 5] followed by its undo leaves [[3; 5]]: the
    undo removes the first 5, not the one that was appended. *)
Lemma undo_add_road_reorders_costs :
  ∃ cmd m1 m2,
    execute (AddRoadCommand "A" "B" 5) two_roads_map = (Ok (true, cmd), m1) ∧
    undo cmd m1 = (Ok true, m2) ∧
    costs_from two_roads_map "A" "B" = Some [5; 3]%Z ∧
    costs_from m2 "A" "B" = Some [3; 5]%Z ∧
    costs_from m2 "A" "B" ≠ costs_from two_roads_map "A" "B".
Proof.
  do 3 eexists. split; [vm_compute; reflexivity|].
  split; [vm_compute; reflexivity|]. repeat split. vm_compute. by intros [=].
Qed.

Lemma undo_redo_inverse_witness :
  graph_ok example_map ∧
  ∃ m2,
    undo (RemoveCityCommand "X" [("X", "Y", [5%Z]); ("X", "Z", [3%Z])])
      [("Y", []); ("Z", [])] = (Ok true, m2) ∧
    restored (RemoveCityCommand "X" []) example_map m2 ∧
    ∃ c3 m3,
      execute (RemoveCityCommand "X" [("X", "Y", [5%Z]); ("X", "Z", [3%Z])]) m2
        = (Ok (true, c3), m3) ∧
      restored (RemoveCityCommand "X" []) [("Y", []); ("Z", [])] m3.
Proof.
  split; [exact example_map_ok|].
  apply (undo_redo_inverse (RemoveCityCommand "X" []) example_map).
  - exact example_map_ok.
  - reflexivity.
  - vm_compute. reflexivity.
Defined.

Lemma example_map_sym : sym example_map.
Proof. apply reachable_sym, example_map_reachable. Qed.

Lemma remove_road_with_cost_witness :
  remove_road "X" "Y" (Some 7%Z) example_map = (Ok true, example_map).
Proof.
  apply (remove_road_with_cost example_map "X" "Y" [5%Z] 7%Z).
  - exact example_map_sym.
  - discriminate.
  - reflexivity.
  - intros H. apply list_elem_of_singleton in H. discriminate H.
Defined.

Lemma failed_load_effect_witness :
  load_from_file (λ _, None) None (new_manager example_map) =
    (Ok false, new_manager example_map) ∧
  load_from_file (λ _, None) (Some (JDict [])) (new_manager example_map) =
    (Ok false, set_index 0 (set_history [] (new_manager example_map))) ∧
  redo_stack (set_index 0 (set_history [] (new_manager example_map))) =
    redo_stack (new_manager example_map).
Proof.
  pose proof (failed_load_effect (λ _, None) None (new_manager example_map))
    as [H1 _].
  pose proof (failed_load_effect (λ _, None) (Some (JDict []))
                (new_manager example_map)) as (_ & H2 & H3 & _).
  split; [exact (H1 I)|].
  assert (load_from_file (λ _, None) (Some (JDict [])) (new_manager example_map) =
            (Ok false, set_index 0 (set_history [] (new_manager example_map))))
    as E by (apply (H2 [] [] 0%Z); [reflexivity..|exact I]).
  split; [exact E|]. exact (H3 _ E).
Defined.

Lemma save_load_round_trip_witness :
  map_wf (city_map (new_manager example_map)) ∧
  ∃ s', load_from_file (λ _, None)
          (Some (save_to_file "2024-01-01T00:00:00" (new_manager example_map)))
          (new_manager empty_map) = (Ok true, s') ∧
    get_cities (city_map s') = get_cities (city_map (new_manager example_map)) ∧
    get_all_roads (city_map s') =
      get_all_roads (city_map (new_manager example_map)) ∧
    length (undo_stack s') = length (undo_stack (new_manager example_map)) ∧
    length (redo_stack s') = length (redo_stack (new_manager example_map)).
Proof.
  split; [exact example_map_wf|].
  apply (save_load_round_trip (λ _, None) "2024-01-01T00:00:00"
           (new_manager example_map) (new_manager empty_map)).
  exact example_map_wf.
Defined.

Lemma execute_command_spec_witness :
  (∃ s', execute_command (AddCityCommand "W") (new_manager example_map) = (Ok true, s') ∧
     city_map s' = example_map ++ [("W", [])] ∧
     undo_stack s' = [AddCityCommand "W"] ∧
     redo_stack s' = [] ∧
     current_history_index s' = 1%Z) ∧
  execute_command (AddCityCommand "X") (new_manager example_map) =
    (Ok false, new_manager example_map).
Proof.
  split.
  - destruct (proj1 (execute_command_spec (AddCityCommand "W")
                       (new_manager example_map))
                (AddCityCommand "W") (example_map ++ [("W", [])]))
      as (s' & H & Hm & _ & Hu & Hr & Hh & Hi & _); [vm_compute; reflexivity|].
    exists s'. split; [exact H|]. split; [exact Hm|]. split; [exact Hu|].
    split; [exact Hr|]. rewrite Hi, Hh. reflexivity.
  - apply (proj2 (execute_command_spec (AddCityCommand "X")
                    (new_manager example_map))
             (AddCityCommand "X") example_map).
    vm_compute. reflexivity.
Defined.


Lemma remove_city_redo_duplicates_roads_witness :
  graph_ok example_map ∧
  ∃ command s1 s2 s3 s4 d d',
    dict_get "X" example_map = Some d ∧
    (command ← on_lists (new_RemoveCityCommand "X");
     ok ← execute_command command; ret (command, ok)) (new_manager example_map) =
      (Ok (command, true), s1) ∧
    last (undo_stack s1) = Some command ∧
    held (lists s1) command = RemoveCityCommand "X" (roads_of "X" d) ∧
    manager_undo s1 = (Ok true, s2) ∧
    manager_redo s2 = (Ok true, s3) ∧
    last (undo_stack s3) = Some command ∧
    held (lists s3) command =
      RemoveCityCommand "X" (roads_of "X" d ++ roads_of "X" d') ∧
    (∀ y, dict_get y d' = dict_get y d) ∧
    manager_undo s3 = (Ok true, s4) ∧
    ∀ y l, costs_from example_map "X" y = Some l →
      costs_from (city_map s4) "X" y = Some (l ++ l) ∧
      costs_from (city_map s4) y "X" = Some (l ++ l) ∧
      costs_from (city_map s4) "X" y ≠ costs_from example_map "X" y.
Proof.
  split; [exact example_map_ok|].
  apply (remove_city_redo_duplicates_roads (new_manager example_map) "X").
  - exact example_map_ok.
  - reflexivity.
Defined.

(** The same run, evaluated. *)
Example remove_city_redo_duplicates_roads_run :
  let s4 := ((command ← on_lists (new_RemoveCityCommand "X");
              execute_command command;; manager_undo;;
              manager_redo;; manager_undo) (new_manager example_map)).2 in
  get_roads_from_city "X" (city_map s4) = [("Y", [5; 5]%Z); ("Z", [3; 3]%Z)].
Proof. vm_compute. reflexivity. Qed.

(** Claim C6 fails as stated: [execute_command] does not advance the cursor
    in every state. A load that fails on the document
    [{"history": [{}], "current_index": 7}] leaves the cursor at 7 with one
    entry in the timeline; the next successful [execute_command] appends a
    snapshot and sets the cursor to 1. *)
Lemma execute_command_cursor_moves_back :
  let loaded :=
    load_from_file (λ _, None)
      (Some (JDict [("history", JList [JDict []]); ("current_index", JInt 7)]))
      (new_manager empty_map) in
  let r := execute_command (AddCityCommand "A") loaded.2 in
  loaded.1 = Ok false ∧ current_history_index loaded.2 = 7%Z ∧
  length (history loaded.2) = 1%nat ∧
  r.1 = Ok true ∧ length (history r.2) = 2%nat ∧
  current_history_index r.2 = 1%Z.
Proof. repeat split; vm_compute; reflexivity. Qed.

Section dict_keys_facts.
Context {V : Type}.
Implicit Types (d : dict V) (k : string) (v : V).

Lemma dict_keys_set k v d :
  dict_keys (dict_set k v d) =
    if dict_mem k d then dict_keys d else dict_keys d ++ [k].
Proof.
  unfold dict_mem. induction d as [|[k0 v0] d IH]; simpl; [done|].
  case_decide; simpl; [done|]. rewrite IH. by destruct (dict_get k d).
Qed.

Lemma dict_keys_del k d :
  dict_keys (dict_del k d) = filter (λ x, x ≠ k) (dict_keys d).
Proof.
  induction d as [|[k0 v0] d IH]; simpl; [done|].
  rewrite filter_cons. case_decide; subst.
  - by rewrite decide_False by naive_solver.
  - rewrite decide_True by naive_solver. simpl. by rewrite IH.
Qed.

Lemma dict_keys_map_values (f : V → V) d :
  dict_keys (dict_map_values f d) = dict_keys d.
Proof.
  unfold dict_keys, dict_map_values. rewrite map_map. by apply map_ext.
Qed.
End dict_keys_facts.

Lemma dict_keys_upd2 a b v m : dict_keys (upd2 a b v m) = dict_keys m.
Proof.
  unfold upd2. destruct (dict_get a m) as [d|] eqn:E; [|done].
  rewrite dict_keys_set. unfold dict_mem. by rewrite E.
Qed.

Lemma keeps_cities_ret {A} (x : A) : keeps_cities (ret x).
Proof. by intros m. Qed.

Lemma keeps_cities_raise {A} e : keeps_cities (raise e : M CityMap A).
Proof. by intros m. Qed.

Lemma keeps_cities_bind {A B} (c : M CityMap A) (f : A → M CityMap B) :
  keeps_cities c → (∀ x, keeps_cities (f x)) → keeps_cities (bind c f).
Proof.
  intros Hc Hf m. rewrite bind_run. specialize (Hc m).
  destruct (c m) as [[x|e] m1]; simpl in *; [|done].
  by rewrite Hf.
Qed.

Lemma keeps_cities_has_city a : keeps_cities (has_city a).
Proof. by intros m. Qed.
Lemma keeps_cities_getitem a : keeps_cities (getitem a).
Proof. intros m. rewrite getitem_run. by destruct (dict_get a m). Qed.
Lemma keeps_cities_getitem2 a b : keeps_cities (getitem2 a b).
Proof. intros m. rewrite getitem2_run. by destruct (costs_from m a b). Qed.

Ltac keeps_cities_prim :=
  let m := fresh "m" in
  intros m;
  rewrite ?setitem2_run, ?delitem2_run, ?append2_run, ?remove2_run,
    ?setindex2_run;
  repeat case_match; simpl; first [ done | apply dict_keys_upd2 ].

Lemma keeps_cities_setitem2 a b l : keeps_cities (setitem2 a b l).
Proof. keeps_cities_prim. Qed.
Lemma keeps_cities_delitem2 a b : keeps_cities (delitem2 a b).
Proof. keeps_cities_prim. Qed.
Lemma keeps_cities_append2 a b c : keeps_cities (append2 a b c).
Proof. keeps_cities_prim. Qed.
Lemma keeps_cities_remove2 a b c : keeps_cities (remove2 a b c).
Proof. keeps_cities_prim. Qed.
Lemma keeps_cities_setindex2 a b i c : keeps_cities (setindex2 a b i c).
Proof. keeps_cities_prim. Qed.

Create HintDb keeps_cities discriminated.
#[local] Hint Resolve keeps_cities_ret keeps_cities_raise
  keeps_cities_has_city keeps_cities_getitem keeps_cities_getitem2
  keeps_cities_setitem2 keeps_cities_delitem2 keeps_cities_append2
  keeps_cities_remove2 keeps_cities_setindex2 : keeps_cities.

Ltac keeps_cities_auto :=
  repeat first
    [ solve [eauto with keeps_cities]
    | apply keeps_cities_bind; [|intros ?]
    | match goal with
      | |- keeps_cities (if ?x then _ else _) => destruct x
      | |- keeps_cities (match ?x with _ => _ end) => destruct x
      end ].

Lemma keeps_cities_add_road a b c : keeps_cities (add_road a b c).
Proof. unfold add_road. keeps_cities_auto. Qed.

Lemma keeps_cities_remove_road a b cost : keeps_cities (remove_road a b cost).
Proof. unfold remove_road. keeps_cities_auto. Qed.

Lemma keeps_cities_update_road_cost a b old new :
  keeps_cities (update_road_cost a b old new).
Proof. unfold update_road_cost. keeps_cities_auto. Qed.

(** Property X1. A graph store operation that returns [False] has changed
    nothing: every refusal of [add_city], [remove_city], [rename_city],
    [add_road], [remove_road] and [update_road_cost] comes before the first
    write. *)
Theorem refused_operation_changes_nothing (op : GraphOp) (m m' : CityMap) :
  run_op op m = (Ok false, m') → m' = m.
Proof.
  destruct op; simpl;
    eauto using add_city_false, remove_city_false, rename_city_false,
      add_road_false, remove_road_false, update_road_cost_false.
Qed.

Lemma refused_operation_changes_nothing_witness :
  (run_op (OpRenameCity "X" "Y") example_map).2 = example_map.
Proof.
  apply (refused_operation_changes_nothing (OpRenameCity "X" "Y") example_map).
  vm_compute. reflexivity.
Defined.

(** Property X2. The same holds one level up: a command whose [execute]
    returns [False] leaves the map and its own fields as they were, and a
    command whose [undo] returns [False] leaves the map as it was. *)
Theorem refused_command_changes_nothing (c : Command) (m : CityMap) :
  (∀ c' m', execute c m = (Ok (false, c'), m') → m' = m ∧ c' = c) ∧
  (∀ m', undo c m = (Ok false, m') → m' = m).
Proof.
  split; [intros c' m'; apply execute_false | intros m'; apply undo_false].
Qed.

(** Property X3. The road operations never add, remove or reorder cities,
    whether they return or raise. *)
Theorem road_operations_keep_cities (a b : string) (m : CityMap) :
  (∀ c, get_cities (add_road a b c m).2 = get_cities m) ∧
  (∀ cost, get_cities (remove_road a b cost m).2 = get_cities m) ∧
  (∀ old new, get_cities (update_road_cost a b old new m).2 = get_cities m).
Proof.
  split; [|split]; intros.
  - apply keeps_cities_add_road.
  - apply keeps_cities_remove_road.
  - apply keeps_cities_update_road_cost.
Qed.

(** Property X4. [add_road] between two distinct cities of a symmetric map:
    it refuses, changing nothing, when one of the cities is missing;
    otherwise it returns [True], appends the cost at the end of the list of
    both directions (creating the two lists when the pair had no road) and
    leaves the cities and every other pair alone. *)
Theorem add_road_contract (m : CityMap) (a b : string) (c : Z) :
  sym m → a ≠ b →
  (dict_mem a m && dict_mem b m = false → add_road a b c m = (Ok false, m)) ∧
  (dict_mem a m && dict_mem b m = true →
   ∃ m', add_road a b c m = (Ok true, m') ∧
     get_cities m' = get_cities m ∧
     ∀ x y, costs_from m' x y =
       if decide (slots a b x y)
       then Some (default [] (costs_from m a b) ++ [c])
       else costs_from m x y).
Proof.
  intros Hs Hab. split; [apply add_road_missing|].
  intros [Ha Hb]%andb_true_iff.
  destruct (add_road_ok m a b c Hs Hab Ha Hb) as (m' & Hr & _ & Hv).
  exists m'. split; [done|]. split; [|done].
  pose proof (keeps_cities_add_road a b c m) as Hk. by rewrite Hr in Hk.
Qed.

Lemma add_road_contract_witness :
  ∃ m', add_road "Y" "Z" 7 example_map = (Ok true, m') ∧
    get_cities m' = get_cities example_map ∧
    ∀ x y, costs_from m' x y =
      if decide (slots "Y" "Z" x y)
      then Some (default [] (costs_from example_map "Y" "Z") ++ [7%Z])
      else costs_from example_map x y.
Proof.
  apply (add_road_contract example_map "Y" "Z" 7).
  - exact example_map_sym.
  - discriminate.
  - reflexivity.
Defined.

(** Property X5. [remove_road] without a cost, between two distinct cities
    of a symmetric map: it refuses when a city is missing or the pair has no
    road; otherwise it returns [True] and deletes the whole pair in both
    directions, leaving the cities and every other pair alone. *)
Theorem remove_road_all_contract (m : CityMap) (a b : string) :
  sym m → a ≠ b →
  (dict_mem a m && dict_mem b m = false ∨ costs_from m a b = None →
   remove_road a b None m = (Ok false, m)) ∧
  (∀ l, costs_from m a b = Some l →
   ∃ m', remove_road a b None m = (Ok true, m') ∧
     get_cities m' = get_cities m ∧
     ∀ x y, costs_from m' x y =
       if decide (slots a b x y) then None else costs_from m x y).
Proof.
  intros Hs Hab. split; [apply remove_road_missing|].
  intros l E.
  destruct (remove_road_all_ok m a b l Hs Hab E) as (m' & Hr & _ & Hv).
  exists m'. split; [done|]. split; [|done].
  pose proof (keeps_cities_remove_road a b None m) as Hk. by rewrite Hr in Hk.
Qed.

Lemma remove_road_all_contract_witness :
  ∃ m', remove_road "X" "Y" None example_map = (Ok true, m') ∧
    get_cities m' = get_cities example_map ∧
    ∀ x y, costs_from m' x y =
      if decide (slots "X" "Y" x y) then None else costs_from example_map x y.
Proof.
  apply (proj2 (remove_road_all_contract example_map "X" "Y"
                  example_map_sym ltac:(discriminate)) [5%Z]).
  reflexivity.
Defined.

(** Property X6. [update_road_cost] between two distinct cities of a
    symmetric map: it refuses when a city is missing, the pair has no road
    or the old cost is not in its list; otherwise it returns [True] and
    overwrites, in both directions, the position of the first occurrence of
    the old cost, leaving the length of the list, the cities and every other
    pair alone. *)
Theorem update_road_cost_contract (m : CityMap) (a b : string) (old new : Z) :
  sym m → a ≠ b →
  (dict_mem a m && dict_mem b m = false ∨ costs_from m a b = None ∨
     (∃ l, costs_from m a b = Some l ∧ old ∉ l) →
   update_road_cost a b old new m = (Ok false, m)) ∧
  (∀ l, costs_from m a b = Some l → old ∈ l →
   ∃ i m', py_index old l = Some i ∧ l !! i = Some old ∧
     update_road_cost a b old new m = (Ok true, m') ∧
     get_cities m' = get_cities m ∧
     ∀ x y, costs_from m' x y =
       if decide (slots a b x y) then Some (<[i := new]> l)
       else costs_from m x y).
Proof.
  intros Hs Hab. split; [apply update_road_cost_missing|].
  intros l E Hin. destruct (py_index_is_Some _ _ Hin) as [i Hi].
  destruct (update_road_cost_ok m a b l i old new Hs Hab E Hi)
    as (m' & Hr & _ & Hv).
  exists i, m'. split; [done|]. split; [by apply py_index_lookup|].
  split; [done|]. split; [|done].
  pose proof (keeps_cities_update_road_cost a b old new m) as Hk.
  by rewrite Hr in Hk.
Qed.

Lemma update_road_cost_contract_witness :
  ∃ i m', py_index 5 [5%Z] = Some i ∧ [5%Z] !! i = Some 5%Z ∧
    update_road_cost "X" "Y" 5 9 example_map = (Ok true, m') ∧
    get_cities m' = get_cities example_map ∧
    ∀ x y, costs_from m' x y =
      if decide (slots "X" "Y" x y) then Some (<[i := 9%Z]> [5%Z])
      else costs_from example_map x y.
Proof.
  apply (proj2 (update_road_cost_contract example_map "X" "Y" 5 9
                  example_map_sym ltac:(discriminate)) [5%Z]).
  - reflexivity.
  - apply list_elem_of_singleton. reflexivity.
Defined.

(** Property X7. [remove_city] cascades: it refuses for a city that is not
    on the map; otherwise it returns [True], takes the city out of the list
    of cities (the others keep their order) and leaves no road from or to
    it, every other pair keeping its costs. *)
Theorem remove_city_cascades (m : CityMap) (name : string) :
  (dict_mem name m = false → remove_city name m = (Ok false, m)) ∧
  (dict_mem name m = true →
   ∃ m', remove_city name m = (Ok true, m') ∧
     get_cities m' = filter (λ x, x ≠ name) (get_cities m) ∧
     (∀ city, get_roads_from_city name m' = [] ∧
              dict_get name (get_roads_from_city city m') = None) ∧
     ∀ x y, costs_from m' x y =
       if decide (x = name ∨ y = name) then None else costs_from m x y).
Proof.
  rewrite remove_city_run. split; intros ->; [done|].
  eexists. split; [done|]. split; [|split].
  - unfold get_cities. by rewrite dict_keys_del, dict_keys_map_values.
  - intros city. unfold get_roads_from_city.
    pose proof (costs_from_remove_city name m city name) as Hc.
    rewrite decide_True in Hc by auto. unfold costs_from in Hc.
    split.
    + rewrite dict_get_del. by rewrite decide_True.
    + destruct (dict_get city _); [exact Hc|done].
  - apply costs_from_remove_city.
Qed.

(** Property X8. [rename_city] on a symmetric map: it refuses when the old
    name is not on the map or the new name is taken (so also when the two
    names are equal); otherwise it returns [True], the renamed city moves to
    the end of the list of cities, and every road of the old name, in both
    directions, is found under the new name with its costs. *)
Theorem rename_city_contract (m : CityMap) (old_name new_name : string) :
  sym m →
  (dict_mem old_name m = false ∨ dict_mem new_name m = true →
   rename_city old_name new_name m = (Ok false, m)) ∧
  (dict_mem old_name m = true → dict_mem new_name m = false →
   ∃ m', rename_city old_name new_name m = (Ok true, m') ∧
     get_cities m' = filter (λ x, x ≠ old_name) (get_cities m) ++ [new_name] ∧
     ∀ x y, costs_from m' x y =
       if decide (x = old_name ∨ y = old_name) then None
       else costs_from m (unrename old_name new_name x)
                         (unrename old_name new_name y)).
Proof.
  intros Hs. rewrite rename_city_run. split.
  - unfold dict_mem at 1. intros [H|H].
    + by destruct (dict_get old_name m).
    + rewrite H. by destruct (dict_get old_name m).
  - unfold dict_mem at 1. intros Ho Hn.
    destruct (dict_get old_name m) as [d|] eqn:E; [|done]. rewrite Hn.
    eexists. split; [done|]. split.
    + unfold get_cities. rewrite dict_keys_map_values, dict_keys_set.
      rewrite dict_mem_del, Hn, andb_false_r. by rewrite dict_keys_del.
    + intros x y. by apply costs_from_rename_city.
Qed.

Lemma rename_city_contract_witness :
  ∃ m', rename_city "X" "W" example_map = (Ok true, m') ∧
    get_cities m' = filter (λ x, x ≠ "X") (get_cities example_map) ++ ["W"] ∧
    ∀ x y, costs_from m' x y =
      if decide (x = "X" ∨ y = "X") then None
      else costs_from example_map (unrename "X" "W" x) (unrename "X" "W" y).
Proof.
  apply (proj2 (rename_city_contract example_map "X" "W" example_map_sym));
    reflexivity.
Defined.

(** Property X9. A road from a city to itself. [add_road] accepts it and
    appends the cost twice to the one list the two directions share;
    [remove_road] without a cost then deletes the entry and raises
    [KeyError] at its second [del]. *)
Theorem self_road_behaviour (m : CityMap) (a : string) :
  dict_mem a m = true →
  (∀ c, ∃ m', add_road a a c m = (Ok true, m') ∧
     costs_from m' a a = Some (default [] (costs_from m a a) ++ [c; c]) ∧
     ∀ x y, ¬ slot a a x y → costs_from m' x y = costs_from m x y) ∧
  (∀ l, costs_from m a a = Some l →
     ∃ m', remove_road a a None m = (Raised KeyError, m') ∧
       costs_from m' a a = None).
Proof.
  intros Ha. split.
  - intros c. unfold add_road. run.
    destruct (getitem_mem_run a a m Ha) as (d & -> & ->). simpl.
    destruct (costs_from m a a) as [l|] eqn:E; simpl; run.
    + eexists. split; [done|]. split.
      * run. by rewrite <- app_assoc.
      * intros x y Hxy. run. by rewrite ?decide_False by done.
    + eexists. split; [done|]. split.
      * by run.
      * intros x y Hxy. run. by rewrite ?decide_False by done.
  - intros l E. unfold remove_road. run.
    destruct (getitem_mem_run a a m Ha) as (d & -> & ->). simpl.
    rewrite E. rewrite bool_decide_true by eauto. simpl. run.
    eexists. split; [done|]. by run.
Qed.

Lemma self_road_behaviour_witness :
  (∀ c, ∃ m', add_road "X" "X" c example_map = (Ok true, m') ∧
     costs_from m' "X" "X" =
       Some (default [] (costs_from example_map "X" "X") ++ [c; c]) ∧
     ∀ x y, ¬ slot "X" "X" x y → costs_from m' x y = costs_from example_map x y) ∧
  (∀ l, costs_from example_map "X" "X" = Some l →
     ∃ m', remove_road "X" "X" None example_map = (Raised KeyError, m') ∧
       costs_from m' "X" "X" = None).
Proof. apply (self_road_behaviour example_map "X"). reflexivity. Defined.

(** Property X10. A pair stored in one direction only (a map [from_dict]
    can load, since it checks no symmetry). Each road operation changes the
    direction that exists and then raises [KeyError] on the other one, so the
    map is left half updated. *)
Theorem one_way_road_raises (m : CityMap) (a b : string) (l : list Z) :
  a ≠ b → dict_mem b m = true →
  costs_from m a b = Some l → costs_from m b a = None →
  (∀ c, ∃ m', add_road a b c m = (Raised KeyError, m') ∧
     costs_from m' a b = Some (l ++ [c]) ∧ costs_from m' b a = None) ∧
  (∃ m', remove_road a b None m = (Raised KeyError, m') ∧
     costs_from m' a b = None ∧ costs_from m' b a = None) ∧
  (∀ old new i, py_index old l = Some i →
     ∃ m', update_road_cost a b old new m = (Raised KeyError, m') ∧
       costs_from m' a b = Some (<[i := new]> l) ∧ costs_from m' b a = None).
Proof.
  intros Hab Hb E E'.
  pose proof (costs_from_Some_mem _ _ _ _ E) as Ha.
  split; [|split].
  - intros c. unfold add_road. run.
    destruct (getitem_mem_run a b m Ha) as (d & -> & ->). simpl.
    rewrite E. rewrite bool_decide_true by eauto. simpl. run.
    eexists. split; [done|]. by run.
  - unfold remove_road. run.
    destruct (getitem_mem_run a b m Ha) as (d & -> & ->). simpl.
    rewrite E. rewrite bool_decide_true by eauto. simpl. run.
    eexists. split; [done|]. by run.
  - intros old new i Hi.
    pose proof (py_index_lt _ _ _ Hi) as Hlt.
    assert (py_in old l = true) as Hin.
    { apply py_in_true. apply py_index_lookup in Hi.
      by eapply list_elem_of_lookup_2. }
    unfold update_road_cost. run.
    destruct (getitem_mem_run a b m Ha) as (d & -> & ->). simpl.
    rewrite E. rewrite bool_decide_true by eauto. simpl. run.
    rewrite (bool_decide_eq_true_2 _ Hlt). simpl. run.
    eexists. split; [done|]. by run.
Qed.

Lemma one_way_road_raises_witness :
  let m : CityMap := [("A", [("B", [5%Z])]); ("B", [])] in
  (∀ c, ∃ m', add_road "A" "B" c m = (Raised KeyError, m') ∧
     costs_from m' "A" "B" = Some ([5%Z] ++ [c]) ∧ costs_from m' "B" "A" = None) ∧
  (∃ m', remove_road "A" "B" None m = (Raised KeyError, m') ∧
     costs_from m' "A" "B" = None ∧ costs_from m' "B" "A" = None) ∧
  (∀ old new i, py_index old [5%Z] = Some i →
     ∃ m', update_road_cost "A" "B" old new m = (Raised KeyError, m') ∧
       costs_from m' "A" "B" = Some (<[i := new]> [5%Z]) ∧
       costs_from m' "B" "A" = None).
Proof.
  apply (one_way_road_raises [("A", [("B", [5%Z])]); ("B", [])] "A" "B" [5%Z]).
  - discriminate.
  - reflexivity.
  - reflexivity.
  - reflexivity.
Defined.

Lemma run_op_returns (op : GraphOp) (m : CityMap) :
  sym m → (∀ a, costs_from m a a = None) →
  (∀ a b c, op = OpAddRoad a b c → a ≠ b) →
  ∃ result m', run_op op m = (Ok result, m').
Proof.
  intros Hs Hl Hop. destruct op as [n|n|o n|a b c|a b cost|a b old new]; simpl.
  - rewrite add_city_run. destruct (dict_mem n m); eauto.
  - rewrite remove_city_run. destruct (dict_mem n m); eauto.
  - rewrite rename_city_run.
    destruct (dict_get o m), (dict_mem n m); eauto.
  - destruct (dict_mem a m && dict_mem b m) eqn:E.
    + apply andb_true_iff in E as [Ha Hb].
      destruct (add_road_ok m a b c Hs (Hop a b c eq_refl) Ha Hb)
        as (m' & -> & _); eauto.
    + rewrite add_road_missing by done. eauto.
  - destruct (costs_from m a b) as [l|] eqn:E;
      [|rewrite remove_road_missing by auto; eauto].
    assert (a ≠ b) as Hab by (intros ->; rewrite Hl in E; done).
    destruct cost as [c|].
    + destruct (decide (c ∈ l)) as [Hc|Hc].
      * destruct (py_remove_is_Some _ _ Hc) as [l' Hl'].
        destruct (remove_road_present m a b l l' c Hs Hab E Hl')
          as (m' & -> & _); eauto.
      * rewrite (remove_road_absent m a b l c); eauto using sym_mem_r.
    + destruct (remove_road_all_ok m a b l Hs Hab E) as (m' & -> & _); eauto.
  - destruct (costs_from m a b) as [l|] eqn:E;
      [|rewrite update_road_cost_missing by auto; eauto].
    assert (a ≠ b) as Hab by (intros ->; rewrite Hl in E; done).
    destruct (decide (old ∈ l)) as [Hc|Hc].
    + destruct (py_index_is_Some _ _ Hc) as [i Hi].
      destruct (update_road_cost_ok m a b l i old new Hs Hab E Hi)
        as (m' & -> & _); eauto.
    + rewrite update_road_cost_missing; eauto.
Qed.

(** Property X11. On a map that is symmetric and has no road from a city
    to itself, no operation of the graph store raises, provided [add_road]
    is not asked to join a city to itself: every call returns [True] or
    [False]. *)
Theorem operations_return_on_sound_maps (op : GraphOp) (m : CityMap) :
  sym m → (∀ a, costs_from m a a = None) →
  (∀ a b c, op = OpAddRoad a b c → a ≠ b) →
  ∃ result m', run_op op m = (Ok result, m').
Proof. apply run_op_returns. Qed.

Lemma operations_return_on_sound_maps_witness :
  ∃ result m', run_op (OpRemoveRoad "X" "Y" (Some 5%Z)) example_map = (Ok result, m').
Proof.
  apply (operations_return_on_sound_maps (OpRemoveRoad "X" "Y" (Some 5%Z))
           example_map).
  - exact example_map_sym.
  - intros a. apply (ok_no_loop _ example_map_ok).
  - discriminate.
Defined.

Lemma foldl_bind {A B C} (f : A → C → A) (g : B → list C) (l : list B) acc :
  foldl f acc (l ≫= g) = foldl (λ acc x, foldl f acc (g x)) acc l.
Proof.
  revert acc. induction l as [|x l IH]; intros acc; [done|].
  cbn [mbind list_bind]. rewrite foldl_app. apply IH.
Qed.

Lemma foldl_fmap_l {A B C} (f : A → C → A) (g : B → C) (l : list B) acc :
  foldl f acc (g <$> l) = foldl (λ acc x, f acc (g x)) acc l.
Proof.
  revert acc. induction l as [|x l IH]; intros acc; [done|]. apply IH.
Qed.

Lemma foldl_same {A B} (f g : A → B → A) (l : list B) acc :
  (∀ acc x, f acc x = g acc x) → foldl f acc l = foldl g acc l.
Proof.
  intros Hfg. revert acc. induction l as [|x l IH]; intros acc; [done|].
  simpl. by rewrite Hfg, IH.
Qed.

Lemma get_all_roads_pairs m :
  get_all_roads m =
    omap (λ p, pair p <$> costs_from m p.1 p.2)
      (foldl note_pair [] (visited_pairs m)).
Proof.
  unfold get_all_roads, visited_pairs. f_equal. rewrite foldl_bind.
  apply foldl_same. intros roads city1. by rewrite foldl_fmap_l.
Qed.

Lemma note_pair_mono roads p q : q ∈ roads → q ∈ note_pair roads p.
Proof.
  unfold note_pair. intros Hq. repeat case_bool_decide; try done.
  apply elem_of_app. by left.
Qed.

Lemma note_pair_elem roads p q :
  q ∈ note_pair roads p → q ∈ roads ∨ q = p.
Proof.
  unfold note_pair. repeat case_bool_decide; auto.
  intros [? | ->%list_elem_of_singleton]%elem_of_app; auto.
Qed.

Lemma note_pair_covers roads p :
  p ∈ note_pair roads p ∨ (p.2, p.1) ∈ note_pair roads p.
Proof.
  unfold note_pair. repeat case_bool_decide; auto.
  left. apply elem_of_app. right. by apply list_elem_of_singleton.
Qed.

Lemma note_pair_NoDup roads p : NoDup roads → NoDup (note_pair roads p).
Proof.
  unfold note_pair. intros Hnd. repeat case_bool_decide; try done.
  apply NoDup_app. split; [done|]. split; [|apply NoDup_singleton].
  by intros q Hq ->%list_elem_of_singleton.
Qed.

Lemma note_pair_one_direction roads p :
  one_direction roads → one_direction (note_pair roads p).
Proof.
  unfold note_pair. intros Ho. repeat case_bool_decide; try done.
  intros a b Hab [Hin | Hp%list_elem_of_singleton]%elem_of_app
    [Hin' | Hq%list_elem_of_singleton]%elem_of_app; subst; simpl in *.
  - by eapply Ho.
  - done.
  - done.
  - injection Hq as Hq1 Hq2. congruence.
Qed.

Section collected.
Implicit Types (roads ps : list (string * string)) (p q : string * string).

Lemma collected_mono ps roads q :
  q ∈ roads → q ∈ foldl note_pair roads ps.
Proof.
  revert roads. induction ps as [|p ps IH]; intros roads Hq; [done|].
  simpl. by apply IH, note_pair_mono.
Qed.

Lemma collected_elem ps roads q :
  q ∈ foldl note_pair roads ps → q ∈ roads ∨ q ∈ ps.
Proof.
  revert roads. induction ps as [|p ps IH]; intros roads; simpl; [auto|].
  intros [[? | ->]%note_pair_elem | ?]%IH; [by left|right; left|right; by right].
Qed.

Lemma collected_covers ps roads q :
  q ∈ ps →
  q ∈ foldl note_pair roads ps ∨ (q.2, q.1) ∈ foldl note_pair roads ps.
Proof.
  revert roads. induction ps as [|p ps IH]; intros roads; simpl.
  - by intros ?%elem_of_nil.
  - intros [-> | Hq]%elem_of_cons; [|by apply IH].
    destruct (note_pair_covers roads p); [left|right];
      by apply collected_mono.
Qed.

Lemma collected_NoDup ps roads :
  NoDup roads → NoDup (foldl note_pair roads ps).
Proof.
  revert roads. induction ps as [|p ps IH]; intros roads Hnd; [done|].
  simpl. by apply IH, note_pair_NoDup.
Qed.

Lemma collected_one_direction ps roads :
  one_direction roads → one_direction (foldl note_pair roads ps).
Proof.
  revert roads. induction ps as [|p ps IH]; intros roads Ho; [done|].
  simpl. by apply IH, note_pair_one_direction.
Qed.
End collected.

Lemma visited_pairs_costs m a b :
  (a, b) ∈ visited_pairs m ↔ is_Some (costs_from m a b).
Proof.
  unfold visited_pairs, costs_from. rewrite list_elem_of_bind. split.
  - intros (city1 & Hin & _). apply list_elem_of_fmap in Hin as (c & [= -> ->] & Hc).
    destruct (dict_get city1 m) as [d|]; simpl in *.
    + by apply elem_of_dict_keys.
    + by apply elem_of_nil in Hc.
  - intros Hl. exists a. destruct (dict_get a m) as [d|] eqn:E; simpl in *.
    + split.
      * apply list_elem_of_fmap. exists b. split; [done|].
        by apply elem_of_dict_keys.
      * apply elem_of_dict_keys. by rewrite E.
    + by destruct Hl.
Qed.

Lemma elem_of_get_all_roads m a b l :
  (a, b, l) ∈ get_all_roads m ↔
  (a, b) ∈ foldl note_pair [] (visited_pairs m) ∧ costs_from m a b = Some l.
Proof.
  rewrite get_all_roads_pairs, list_elem_of_omap. split.
  - intros ([x y] & Hin & Hf). simpl in Hf.
    destruct (costs_from m x y) as [l'|] eqn:E; simpl in Hf; [|done].
    by injection Hf as -> -> ->.
  - intros [Hin E]. exists (a, b). split; [done|]. simpl. by rewrite E.
Qed.

Lemma fst_omap_sublist {A B} (g : A → option B) (l : list A) :
  (fst <$> omap (λ p, pair p <$> g p) l) `sublist_of` l.
Proof.
  induction l as [|x l IH]; simpl; [done|].
  destruct (g x); simpl.
  - by apply sublist_skip.
  - by apply sublist_cons.
Qed.

(** Property X12. [get_all_roads] lists every joined pair once: each entry
    carries the costs stored for its direction; every stored direction
    appears itself or through its opposite; a pair of distinct cities never
    appears in both directions; and no direction appears twice. On a
    symmetric map the entry that stands for a direction carries the costs of
    that direction. *)
Theorem get_all_roads_lists_each_pair_once (m : CityMap) :
  (∀ a b l, (a, b, l) ∈ get_all_roads m → costs_from m a b = Some l) ∧
  (∀ a b l, costs_from m a b = Some l →
     (a, b, l) ∈ get_all_roads m ∨ ∃ l', (b, a, l') ∈ get_all_roads m) ∧
  (sym m → ∀ a b l, costs_from m a b = Some l →
     (a, b, l) ∈ get_all_roads m ∨ (b, a, l) ∈ get_all_roads m) ∧
  (∀ a b l l', a ≠ b →
     (a, b, l) ∈ get_all_roads m → (b, a, l') ∉ get_all_roads m) ∧
  NoDup (fst <$> get_all_roads m).
Proof.
  assert (∀ a b l, costs_from m a b = Some l →
     (a, b, l) ∈ get_all_roads m ∨ ∃ l', (b, a, l') ∈ get_all_roads m) as Hcover.
  { intros a b l E.
    assert ((a, b) ∈ visited_pairs m) as Hv
      by (apply visited_pairs_costs; eauto).
    destruct (collected_covers _ [] _ Hv) as [Hin|Hin]; simpl in Hin.
    - left. by apply elem_of_get_all_roads.
    - right. pose proof Hin as Hin'.
      apply collected_elem in Hin' as [?%elem_of_nil|Hin']; [done|].
      apply visited_pairs_costs in Hin' as [l' E'].
      exists l'. by apply elem_of_get_all_roads. }
  split; [|split; [|split; [|split]]].
  - by intros a b l [_ E]%elem_of_get_all_roads.
  - done.
  - intros Hs a b l E. destruct (Hcover a b l E) as [?|[l' Hl']]; [by left|].
    right. pose proof Hl' as [_ E']%elem_of_get_all_roads.
    rewrite Hs, E in E'. by injection E' as <-.
  - intros a b l l' Hab [Hin _]%elem_of_get_all_roads
      [Hin' _]%elem_of_get_all_roads.
    eapply (collected_one_direction (visited_pairs m) []); [|done..].
    by intros ? ? ? ?%elem_of_nil.
  - rewrite get_all_roads_pairs.
    eapply sublist_NoDup; [|apply fst_omap_sublist].
    apply collected_NoDup, NoDup_nil_2.
Qed.

Lemma set_lists_city_map_same s :
  set_lists (lists s) (set_city_map (city_map s) s) = s.
Proof. by destruct s. Qed.

Lemma set_city_map_same s : set_city_map (city_map s) s = s.
Proof. by destruct s. Qed.

Lemma execute_command_run c s :
  execute_command c s =
    match execute (held (lists s) c) (city_map s) with
    | (Ok (true, after), m') =>
        (Ok true, saved (set_redo_stack []
                    (set_undo_stack (undo_stack s ++ [c])
                       (set_lists (written c after (lists s))
                          (set_city_map m' s)))))
    | (Ok (false, _), _) => (Ok false, s)
    | (Raised e, m') => (Raised e, set_city_map m' s)
    end.
Proof.
  destruct (execute (held (lists s) c) (city_map s)) as [[[[] after]|e] m'] eqn:E.
  - by apply execute_command_true.
  - destruct (execute_false _ _ _ _ E) as [-> ->].
    unfold execute_command. rewrite bind_run, execute_held_run, E. simpl.
    by rewrite written_held, set_lists_city_map_same.
  - unfold execute_command. by rewrite bind_run, execute_held_run, E.
Qed.

Lemma manager_undo_run s :
  manager_undo s =
    match last (undo_stack s) with
    | None => (Ok false, s)
    | Some c =>
        let s0 := set_undo_stack (removelast (undo_stack s)) s in
        match undo (held (lists s) c) (city_map s) with
        | (Ok true, m') =>
            (Ok true, saved (set_redo_stack (redo_stack s ++ [c])
                        (set_city_map m' s0)))
        | (Ok false, m') => (Ok false, set_city_map m' s0)
        | (Raised e, m') => (Raised e, set_city_map m' s0)
        end
    end.
Proof.
  unfold manager_undo. rewrite bind_run. simpl.
  destruct (last (undo_stack s)) as [c|]; [|done].
  repeat (first [rewrite bind_run | rewrite modify_run]; simpl).
  rewrite undo_held_run. simpl.
  destruct (undo (held (lists s) c) (city_map s)) as [[[]|e] m']; simpl; [|done..].
  repeat (first [rewrite bind_run | rewrite modify_run]; simpl).
  by rewrite _save_state_run.
Qed.

Lemma manager_redo_run s :
  manager_redo s =
    match last (redo_stack s) with
    | None => (Ok false, s)
    | Some c =>
        let s0 := set_redo_stack (removelast (redo_stack s)) s in
        match execute (held (lists s) c) (city_map s) with
        | (Ok (true, after), m') =>
            (Ok true, saved (set_undo_stack (undo_stack s ++ [c])
                        (set_lists (written c after (lists s))
                           (set_city_map m' s0))))
        | (Ok (false, _), _) => (Ok false, s0)
        | (Raised e, m') => (Raised e, set_city_map m' s0)
        end
    end.
Proof.
  unfold manager_redo. rewrite bind_run. simpl.
  destruct (last (redo_stack s)) as [c|]; [|done].
  repeat (first [rewrite bind_run | rewrite modify_run]; simpl).
  rewrite execute_held_run. simpl.
  destruct (execute (held (lists s) c) (city_map s)) as [[[[] after]|e] m'] eqn:E;
    simpl; [| |done].
  - repeat (first [rewrite bind_run | rewrite modify_run]; simpl).
    by rewrite _save_state_run.
  - destruct (execute_false _ _ _ _ E) as [-> ->].
    rewrite written_held. by destruct s.
Qed.

(** Property X13. [CommandManager.redo]: with an empty redo stack it
    returns [False] and changes nothing. Otherwise the top command is popped
    and executed again. On success that same command object is pushed on the
    undo stack, the rest of the redo stack is kept, a snapshot is appended
    to the snapshots kept, and the call returns [True]. The command is not
    copied: what [execute] appends to the list of a [RemoveCityCommand], the
    roads of its city once more, is appended to the one list that the
    stacks and every snapshot already in the timeline point at, so those
    snapshots show the grown list from then on; no other list changes. On
    failure the command is dropped from the redo stack, nothing else
    changes, and the call returns [False]. *)
Theorem manager_redo_spec (s : CommandManager) :
  (redo_stack s = [] → manager_redo s = (Ok false, s)) ∧
  (∀ rest command after m',
     redo_stack s = rest ++ [command] →
     execute (held (lists s) command) (city_map s) = (Ok (true, after), m') →
     ∃ s', manager_redo s = (Ok true, s') ∧
       city_map s' = m' ∧
       redo_stack s' = rest ∧
       undo_stack s' = undo_stack s ++ [command] ∧
       history s' = kept_history s ++ [snapshot s'] ∧
       current_history_index s' = (Z.of_nat (length (history s')) - 1)%Z ∧
       match command with
       | RemoveCityCommand name a =>
           ∃ d, dict_get name (city_map s) = Some d ∧
             lists s' = <[a := roads_at (lists s) a ++ roads_of name d]> (lists s) ∧
             (a < length (lists s) →
              shown (lists s') (Shared a) =
                JList (road_to_json <$> (roads_at (lists s) a ++ roads_of name d)))
       | _ => lists s' = lists s
       end) ∧
  (∀ rest command after m',
     redo_stack s = rest ++ [command] →
     execute (held (lists s) command) (city_map s) = (Ok (false, after), m') →
     manager_redo s = (Ok false, set_redo_stack rest s)).
Proof.
  split; [|split].
  - intros Hr. rewrite manager_redo_run. by rewrite Hr.
  - intros rest command after m' Hr Hc.
    rewrite (manager_redo_true rest command after m' s Hr Hc).
    eexists. split; [done|]. simpl.
    repeat (split; [done || (rewrite length_app; simpl; lia)|]).
    destruct command as [|name a| | | |]; try done.
    simpl in Hc. destruct (dict_mem name (city_map s)) eqn:Hn.
    + destruct (execute_remove_city name (roads_at (lists s) a) _ Hn)
        as (d & Hd & He).
      simpl in He. rewrite He in Hc. injection Hc as <- <-.
      exists d. split; [done|]. split; [done|]. intros Ha.
      simpl. by rewrite roads_at_insert.
    + rewrite bind_run, has_city_run in Hc. simpl in Hc. by rewrite Hn in Hc.
  - intros rest command after m' Hr Hc.
    rewrite manager_redo_run, Hr, last_snoc, removelast_snoc. by rewrite Hc.
Qed.

(** Property X14. [_save_state] keeps the timeline linear. The snapshots
    up to the cursor are kept, the ones after it are dropped, the snapshot of
    the current state is appended and the cursor moves onto it; the map and
    the stacks are not touched. A cursor of [-1] therefore drops the whole
    timeline, and a cursor below [-1] counts from the end, as a Python slice
    does. *)
Theorem _save_state_timeline (s : CommandManager) :
  ∃ s', _save_state s = (Ok tt, s') ∧
    city_map s' = city_map s ∧
    undo_stack s' = undo_stack s ∧
    redo_stack s' = redo_stack s ∧
    current_history_index s' = (Z.of_nat (length (history s')) - 1)%Z ∧
    ((-1 ≤ current_history_index s)%Z →
     history s' =
       take (Z.to_nat (current_history_index s + 1)) (history s) ++ [snapshot s]) ∧
    ((current_history_index s < -1)%Z →
     history s' =
       take (Z.to_nat (current_history_index s + 1 +
                       Z.of_nat (length (history s)))) (history s)
         ++ [snapshot s]).
Proof.
  rewrite _save_state_run. eexists. split; [done|]. simpl.
  split; [done|]. split; [done|]. split; [done|].
  split; [rewrite length_app; simpl; lia|].
  unfold kept_history, py_slice_to.
  destruct (Z.ltb_spec (current_history_index s)
              (Z.of_nat (length (history s)) - 1)) as [Hlt|Hge].
  - destruct (Z.ltb_spec (current_history_index s + 1) 0) as [Hneg|Hpos].
    + split; [lia|]. intros _. do 2 f_equal. lia.
    + split; [|lia]. intros _. do 2 f_equal. lia.
  - split; [|lia]. intros _. by rewrite take_ge by lia.
Qed.

Lemma for_add_one_sound calls m :
  graph_ok m → Forall (λ call, call.1.1 ≠ call.1.2) calls →
  ∃ m', for_ calls add_one m = (Ok tt, m') ∧ graph_ok m'.
Proof.
  intros Hok Hcalls. revert m Hok.
  induction Hcalls as [|[[a b] c] calls Hab _ IH]; intros m Hok.
  - by exists m.
  - simpl in Hab. cbn [for_]. rewrite bind_run. unfold add_one at 1. simpl.
    pose proof (graph_ok_add_road m a b c Hok Hab) as Hok'.
    destruct (run_op_returns (OpAddRoad a b c) m (ok_sym _ Hok)
                (ok_no_loop _ Hok)) as (r & m1 & Hr).
    { by intros ? ? ? [= -> -> ->]. }
    simpl in Hr. rewrite Hr in *. simpl in *. by apply IH.
Qed.

Lemma run_op_sound op m :
  graph_ok m → (∀ a b c, op = OpAddRoad a b c → a ≠ b) →
  ∃ result m', run_op op m = (Ok result, m') ∧ graph_ok m'.
Proof.
  intros Hok Hop.
  destruct (run_op_returns op m (ok_sym _ Hok) (ok_no_loop _ Hok) Hop)
    as (r & m' & Hr).
  exists r, m'. split; [done|].
  destruct op as [n|n|o n|a b c|a b cost|a b old new]; simpl in Hr.
  - pose proof (graph_ok_add_city m n Hok) as H. by rewrite Hr in H.
  - pose proof (graph_ok_remove_city m n Hok) as H. by rewrite Hr in H.
  - pose proof (graph_ok_rename_city m o n Hok) as H. by rewrite Hr in H.
  - pose proof (graph_ok_add_road m a b c Hok (Hop a b c eq_refl)) as H.
    by rewrite Hr in H.
  - destruct (decide (a = b)) as [->|Hab].
    + rewrite remove_road_missing in Hr
        by (right; apply (ok_no_loop _ Hok)).
      by injection Hr as <- <-.
    + pose proof (graph_ok_remove_road m a b cost Hok Hab) as H.
      by rewrite Hr in H.
  - destruct (decide (a = b)) as [->|Hab].
    + rewrite update_road_cost_missing in Hr
        by (right; left; apply (ok_no_loop _ Hok)).
      by injection Hr as <- <-.
    + pose proof (graph_ok_update_road_cost m a b old new Hok Hab) as H.
      by rewrite Hr in H.
Qed.

Lemma execute_op c m :
  (∀ name roads, c ≠ RemoveCityCommand name roads) →
  execute c m = (result ← run_op (op_of c); ret (result, c)) m.
Proof. intros Hc. destruct c; try done. by destruct (Hc name roads). Qed.

Lemma roads_of_distinct name d :
  dict_get name d = None →
  Forall (λ road : string * string * list Z, road.1.1 ≠ road.1.2)
    (roads_of name d).
Proof.
  intros Hn. apply dict_get_None_keys in Hn. unfold roads_of.
  apply Forall_forall. intros road [[nb l] [-> Hin]]%list_elem_of_fmap.
  simpl. intros ->. apply Hn. apply list_elem_of_fmap. by exists (nb, l).
Qed.

Lemma execute_guarded c m :
  graph_ok m → guarded c →
  ∃ ok c' m', execute c m = (Ok (ok, c'), m') ∧ graph_ok m' ∧
    (ok = true → reversible c').
Proof.
  intros Hok Hg.
  assert ((∃ name roads, c = RemoveCityCommand name roads) ∨
          ∀ name roads, c ≠ RemoveCityCommand name roads)
    as [(name & roads & ->)|Hc] by (destruct c; eauto).
  - destruct (dict_mem name m) eqn:Hn.
    + destruct (execute_remove_city name roads m Hn) as (d & Hd & ->).
      do 3 eexists. split; [done|]. split.
      * pose proof (graph_ok_remove_city m name Hok) as H.
        by rewrite remove_city_run, Hn in H.
      * intros _. split; [|done]. simpl. apply Forall_app. split; [done|].
        apply roads_of_distinct.
        pose proof (ok_no_loop _ Hok name) as Hl. unfold costs_from in Hl.
        by rewrite Hd in Hl.
    + exists false, (RemoveCityCommand name roads), m. split; [|done].
      simpl. rewrite bind_run, has_city_run. simpl. by rewrite Hn.
  - rewrite execute_op by done.
    destruct (run_op_sound (op_of c) m Hok) as (r & m' & Hr & Hok').
    { intros a b cost Hop. destruct c; try done. simpl in Hop, Hg. congruence. }
    rewrite bind_run, Hr. simpl. exists r, c, m'. split; [done|].
    split; [done|]. intros ->. split; [done|].
    destruct c; try done. simpl in Hr.
    apply remove_road_true_inv in Hr as [l Hl]. intros ->.
    by rewrite (ok_no_loop _ Hok) in Hl.
Qed.

Lemma flat_roads_distinct (roads : list (string * string * list Z)) :
  Forall (λ road, road.1.1 ≠ road.1.2) roads →
  Forall (λ call : string * string * Z, call.1.1 ≠ call.1.2) (flat_roads roads).
Proof.
  rewrite !Forall_forall. intros Hr call (road & Hin & Heq & _)%elem_of_flat_roads.
  rewrite Heq. by apply Hr.
Qed.

Lemma undo_reversible c m :
  graph_ok m → reversible c →
  ∃ ok m', undo c m = (Ok ok, m') ∧ graph_ok m'.
Proof.
  intros Hok [Hg Hr].
  destruct c as [n|n roads|o n|a b cost|a b cost|a b old new]; simpl in *.
  - apply (run_op_sound (OpRemoveCity n) m Hok). by intros.
  - rewrite bind_run, add_city_run.
    destruct (dict_mem n m) eqn:Hn; simpl; [by exists false, m|].
    rewrite bind_run, undo_loop_flat.
    pose proof (graph_ok_add_city m n Hok) as Hok1.
    rewrite add_city_run, Hn in Hok1. simpl in Hok1.
    destruct (for_add_one_sound (flat_roads roads) _ Hok1
                (flat_roads_distinct _ Hg)) as (m' & -> & Hok').
    by exists true, m'.
  - apply (run_op_sound (OpRenameCity n o) m Hok). by intros.
  - apply (run_op_sound (OpRemoveRoad a b (Some cost)) m Hok). by intros.
  - apply (run_op_sound (OpAddRoad a b cost) m Hok).
    by intros ? ? ? [= -> -> ->].
  - apply (run_op_sound (OpUpdateRoadCost a b new old) m Hok). by intros.
Qed.

(** The in-place growth on a run: a city with two roads is removed, the
    removal undone and redone. The entry the first [execute_command] appended
    is still the second entry of the timeline, and the redo has changed what
    it shows. *)
Example redo_rewrites_earlier_snapshot :
  let s2 := ((command ← on_lists (new_RemoveCityCommand "X");
              execute_command command;; manager_undo)
             (new_manager example_map)).2 in
  let s3 := (manager_redo s2).2 in
  ∃ entry, history s2 !! 1%nat = Some entry ∧ history s3 !! 1%nat = Some entry ∧
    shown (lists s2) entry ≠ shown (lists s3) entry.
Proof.
  eexists. split; [vm_compute; reflexivity|]. split; [vm_compute; reflexivity|].
  vm_compute. discriminate.
Qed.

Lemma kept_history_at_end s :
  current_history_index s = (Z.of_nat (length (history s)) - 1)%Z →
  kept_history s = history s.
Proof.
  intros Hc. unfold kept_history.
  destruct (Z.ltb_spec (current_history_index s)
              (Z.of_nat (length (history s)) - 1)); [lia|done].
Qed.

Lemma same_below_refl n lists : same_below n lists lists.
Proof. by intros a _. Qed.

Lemma same_below_app lists more : same_below (length lists) lists (lists ++ more).
Proof.
  intros a Ha. unfold roads_at. by rewrite lookup_app_l.
Qed.

Lemma same_below_insert n a roads lists :
  n ≤ a → same_below n lists (<[a := roads]> lists).
Proof.
  intros Hn b Hb. unfold roads_at. rewrite list_lookup_insert_ne by lia. done.
Qed.

Lemma same_below_mono n n' lists lists' :
  n ≤ n' → same_below n' lists lists' → same_below n lists lists'.
Proof. intros Hn H a Ha. apply H. lia. Qed.

Lemma held_same n lists lists' c :
  in_heap n c → same_below n lists lists' → held lists' c = held lists c.
Proof.
  destruct c as [|name a| | | |]; try done. simpl. intros Ha Hs.
  by rewrite (Hs a Ha).
Qed.

Lemma Forall_held_same n lists lists' (P : Command → Prop) cs :
  Forall (in_heap n) cs → same_below n lists lists' →
  Forall (λ c, P (held lists c)) cs → Forall (λ c, P (held lists' c)) cs.
Proof.
  intros Hn Hs Hp. induction Hp as [|c cs Hc _ IH]; [done|].
  apply Forall_cons in Hn as [Hn1 Hn2]. constructor; [|by apply IH].
  by rewrite (held_same n lists lists' c).
Qed.

Lemma in_heap_mono n n' c : n ≤ n' → in_heap n c → in_heap n' c.
Proof. destruct c; simpl; try done. lia. Qed.

Lemma allocated_mono n n' v : n ≤ n' → allocated n v → allocated n' v.
Proof.
  intros Hn Hv lists lists' Hs. apply Hv. by apply (same_below_mono n n').
Qed.

Lemma allocated_command n c : in_heap n c → allocated n (_command_to_dict c).
Proof.
  intros Hc lists lists' Hs. destruct c as [|name a| | | |]; try done.
  simpl. by rewrite (Hs a Hc).
Qed.

Lemma allocated_commands n cs :
  Forall (in_heap n) cs → allocated n (_serialize_commands cs).
Proof.
  intros Hcs lists lists' Hs. unfold _serialize_commands. simpl. f_equal.
  induction Hcs as [|c cs Hc _ IH]; [done|]. simpl. f_equal; [|done].
  by apply (allocated_command n c Hc).
Qed.

Lemma allocated_snapshot n s :
  Forall (in_heap n) (undo_stack s) → Forall (in_heap n) (redo_stack s) →
  allocated n (snapshot s).
Proof.
  intros Hu Hr lists lists' Hs. unfold snapshot.
  pose proof (allocated_commands n _ Hu lists lists' Hs) as Eu.
  pose proof (allocated_commands n _ Hr lists lists' Hs) as Er.
  cbn [shown map fst snd]. by rewrite Eu, Er.
Qed.

Lemma shown_same n lists lists' h :
  Forall (allocated n) h → same_below n lists lists' →
  shown lists' <$> h = shown lists <$> h.
Proof.
  intros Hh Hs. induction Hh as [|v h Hv _ IH]; [done|].
  simpl. f_equal; [by apply Hv|done].
Qed.

(** [_save_state] on a state that is sound but for its timeline, which has
    the cursor at its end. *)
Lemma engine_ok_saved s :
  graph_ok (city_map s) →
  Forall (λ c, reversible (held (lists s) c)) (undo_stack s) →
  Forall (λ c, reversible (held (lists s) c)) (redo_stack s) →
  current_history_index s = (Z.of_nat (length (history s)) - 1)%Z →
  Forall (in_heap (length (lists s))) (undo_stack s) →
  Forall (in_heap (length (lists s))) (redo_stack s) →
  Forall (allocated (length (lists s))) (history s) →
  engine_ok (saved s) ∧ history (saved s) = history s ++ [snapshot (saved s)].
Proof.
  intros Hm Hu Hr Hc Hun Hrn Hh. unfold saved. rewrite (kept_history_at_end s Hc).
  split; [split|]; simpl; try done.
  - rewrite length_app. simpl. lia.
  - by destruct (history s).
  - apply Forall_app. split; [done|]. apply Forall_singleton.
    by apply allocated_snapshot.
Qed.

Lemma engine_ok_new : engine_ok new_app.
Proof.
  split; simpl; try done; try apply graph_ok_empty.
  apply Forall_singleton. by apply allocated_snapshot.
Qed.

Lemma Forall_removelast {A} (P : A → Prop) (l : list A) :
  Forall P l → Forall P (removelast l).
Proof.
  destruct (last l) as [x|] eqn:E.
  - apply last_Some in E as [l' ->]. rewrite removelast_snoc.
    by intros [? _]%Forall_app.
  - apply last_None in E as ->. done.
Qed.

Lemma Forall_last {A} (P : A → Prop) (l : list A) x :
  Forall P l → last l = Some x → P x.
Proof.
  intros Hl [l' ->]%last_Some. apply Forall_app in Hl as [_ Hx].
  by apply Forall_cons in Hx as [Hx _].
Qed.

Lemma written_other c after lists :
  (∀ name a, c ≠ RemoveCityCommand name a) → written c after lists = lists.
Proof. intros Hc. destruct c; try done. by destruct (Hc name roads). Qed.

Lemma held_other lists (c : CommandRef) :
  (∀ name a, c ≠ RemoveCityCommand name a) →
  ∀ name roads, held lists c ≠ RemoveCityCommand name roads.
Proof. intros Hc. destruct c; try done. by destruct (Hc name roads). Qed.

(** [execute_command] for a command that is not a [RemoveCityCommand]. *)
Lemma execute_command_engine c s :
  engine_ok s → (∀ name a, c ≠ RemoveCityCommand name a) →
  guarded (held (lists s) c) → engine_step false (execute_command c) s.
Proof.
  intros [Hm Hu Hr Hc Hh Hun Hrn Hal] Hne Hg. unfold engine_step.
  rewrite execute_command_run.
  destruct (execute_guarded _ (city_map s) Hm Hg)
    as (ok & c' & m' & He & Hm' & Hc').
  rewrite He. destruct ok.
  - do 2 eexists. split; [done|].
    assert (c' = held (lists s) c) as ->.
    { rewrite execute_op in He by by apply held_other.
      rewrite bind_run in He. destruct (run_op _ _) as [[r|e] m1]; [|done].
      by injection He as _ <- _. }
    rewrite written_held.
    destruct (engine_ok_saved
      (set_redo_stack [] (set_undo_stack (undo_stack s ++ [c])
         (set_lists (lists s) (set_city_map m' s)))))
      as [Hok Hhist]; simpl; try done.
    + apply Forall_app. split; [done|]. apply Forall_singleton. auto.
    + apply Forall_app. split; [done|]. apply Forall_singleton.
      destruct c; try done. by destruct (Hne name roads).
    + split; [done|]. split; [by right|done].
  - exists false, s. split; [done|]. split; [by split|]. split; [by left|done].
Qed.

Lemma on_lists_new name s :
  on_lists (new_RemoveCityCommand name) s =
    (Ok (RemoveCityCommand name (length (lists s))),
     set_lists (lists s ++ [[]]) s).
Proof. reflexivity. Qed.

Lemma engine_ok_grown s more :
  engine_ok s → engine_ok (set_lists (lists s ++ more) s).
Proof.
  intros [Hm Hu Hr Hc Hh Hun Hrn Hal].
  pose proof (same_below_app (lists s) more) as Hs.
  assert (length (lists s) ≤ length (lists s ++ more)) as Hle
    by (rewrite length_app; lia).
  split; simpl; try done.
  - by apply (Forall_held_same (length (lists s)) (lists s)).
  - by apply (Forall_held_same (length (lists s)) (lists s)).
  - eapply Forall_impl; [exact Hun|]. intros c. by apply in_heap_mono.
  - eapply Forall_impl; [exact Hrn|]. intros c. by apply in_heap_mono.
  - eapply Forall_impl; [exact Hal|]. intros v. by apply allocated_mono.
Qed.

(** The handler [remove_city] builds its command, with a list of its own,
    before the engine looks at the map. *)
Lemma app_remove_city_engine name s :
  engine_ok s → engine_step false (app_remove_city (Some name)) s.
Proof.
  intros Hs. pose proof Hs as [Hm Hu Hr Hc Hh Hun Hrn Hal].
  unfold engine_step, app_remove_city. rewrite bind_run, on_lists_new.
  pose proof (same_below_app (lists s) [[]]) as Hsame.
  rewrite execute_command_run.
  cbn [held lists set_lists city_map undo_stack]. rewrite roads_at_new.
  destruct (dict_mem name (city_map s)) eqn:Hn.
  - destruct (execute_remove_city name [] _ Hn) as (d & Hd & He).
    rewrite He. do 2 eexists. split; [done|].
    cbn [written app]. rewrite insert_app_r_alt, Nat.sub_diag by done.
    cbn [list_insert insert].
    pose proof (same_below_app (lists s) [roads_of name d]) as Hsame'.
    assert (length (lists s) ≤ length (lists s ++ [roads_of name d])) as Hle
      by (rewrite length_app; lia).
    destruct (engine_ok_saved
      (set_redo_stack [] (set_undo_stack
         (undo_stack s ++ [RemoveCityCommand name (length (lists s))])
         (set_lists (lists s ++ [roads_of name d])
            (set_city_map
               (dict_del name (dict_map_values (drop_neighbor name) (city_map s)))
               (set_lists (lists s ++ [[]]) s))))))
      as [Hok Hhist]; simpl; try done.
    + pose proof (graph_ok_remove_city (city_map s) name Hm) as H.
      by rewrite remove_city_run, Hn in H.
    + apply Forall_app. split.
      * by apply (Forall_held_same (length (lists s)) (lists s)).
      * apply Forall_singleton. simpl. rewrite roads_at_new.
        split; [|done]. simpl. apply roads_of_distinct.
        pose proof (ok_no_loop _ Hm name) as Hl. unfold costs_from in Hl.
        by rewrite Hd in Hl.
    + apply Forall_app. split.
      * eapply Forall_impl; [exact Hun|]. intros c. by apply in_heap_mono.
      * apply Forall_singleton. simpl. rewrite length_app. simpl. lia.
    + eapply Forall_impl; [exact Hal|]. intros v. by apply allocated_mono.
    + split; [done|]. split; [by right|]. intros _.
      cbn [lists saved set_index set_history set_redo_stack set_undo_stack
           set_lists].
      by apply (shown_same (length (lists s))).
  - assert (execute (RemoveCityCommand name []) (city_map s) =
            (Ok (false, RemoveCityCommand name []), city_map s)) as ->.
    { simpl. rewrite bind_run, has_city_run. simpl. by rewrite Hn. }
    do 2 eexists. split; [done|]. split; [by apply engine_ok_grown|].
    split; [by left|]. intros _. simpl.
    by apply (shown_same (length (lists s))).
Qed.

Lemma manager_undo_engine s : engine_ok s → engine_step false manager_undo s.
Proof.
  intros [Hm Hu Hr Hc Hh Hun Hrn Hal]. unfold engine_step.
  rewrite manager_undo_run.
  destruct (last (undo_stack s)) as [c|] eqn:El.
  - pose proof (Forall_last _ _ _ Hu El) as Hrev.
    destruct (undo_reversible _ (city_map s) Hm Hrev) as (ok & m' & He & Hm').
    simpl. rewrite He. destruct ok.
    + do 2 eexists. split; [done|].
      destruct (engine_ok_saved
        (set_redo_stack (redo_stack s ++ [c])
           (set_city_map m' (set_undo_stack (removelast (undo_stack s)) s))))
        as [Hok Hhist]; simpl; try done.
      * by apply Forall_removelast.
      * apply Forall_app. split; [done|]. by apply Forall_singleton.
      * by apply Forall_removelast.
      * apply Forall_app. split; [done|]. apply Forall_singleton.
        by apply (Forall_last _ _ _ Hun El).
      * split; [done|]. split; [by right|done].
    + do 2 eexists. split; [done|]. split; [|split; [by left|done]].
      split; simpl; try done; by apply Forall_removelast.
  - exists false, s. split; [done|]. split; [by split|]. split; [by left|done].
Qed.

Lemma roads_at_insert_cases (lists : heap) a b roads :
  roads_at (<[a := roads]> lists) b = roads ∨
  roads_at (<[a := roads]> lists) b = roads_at lists b.
Proof.
  unfold roads_at. destruct (decide (a = b)) as [->|Hab].
  - destruct (decide (b < length lists)) as [Hb|Hb].
    + left. by rewrite list_lookup_insert_eq.
    + right. by rewrite list_insert_ge by lia.
  - right. by rewrite list_lookup_insert_ne.
Qed.

Lemma Forall_reversible_insert (lists : heap) a roads cs :
  Forall (λ road : string * string * list Z, road.1.1 ≠ road.1.2) roads →
  Forall (λ c, reversible (held lists c)) cs →
  Forall (λ c, reversible (held (<[a := roads]> lists) c)) cs.
Proof.
  intros Hroads Hcs. eapply Forall_impl; [exact Hcs|].
  intros [|name b| | | |]; try done. simpl. intros [Hg _]. split; [|done].
  simpl in *. by destruct (roads_at_insert_cases lists a b roads) as [->| ->].
Qed.

Lemma manager_redo_engine s : engine_ok s → engine_step true manager_redo s.
Proof.
  intros [Hm Hu Hr Hc Hh Hun Hrn Hal]. unfold engine_step.
  rewrite manager_redo_run.
  destruct (last (redo_stack s)) as [c|] eqn:El.
  - pose proof (Forall_last _ _ _ Hr El) as [Hg _].
    destruct (execute_guarded _ (city_map s) Hm Hg)
      as (ok & c' & m' & He & Hm' & Hc').
    simpl. rewrite He. destruct ok.
    + do 2 eexists. split; [done|].
      assert (length (written c c' (lists s)) = length (lists s)) as Hlen.
      { destruct c, c'; try done. simpl. by rewrite length_insert. }
      assert (∀ cs, Forall (λ c0, reversible (held (lists s) c0)) cs →
                Forall (λ c0, reversible (held (written c c' (lists s)) c0)) cs)
        as Hkeep.
      { intros cs Hcs. destruct c as [|name a| | | |], c' as [|name' roads'| | | |];
          try done.
        apply Forall_reversible_insert; [|done]. by apply Hc'. }
      destruct (engine_ok_saved
        (set_undo_stack (undo_stack s ++ [c])
           (set_lists (written c c' (lists s))
              (set_city_map m' (set_redo_stack (removelast (redo_stack s)) s)))))
        as [Hok Hhist]; simpl; try rewrite Hlen; try done.
      * apply Forall_app. split; [by apply Hkeep|]. apply Hkeep.
        apply Forall_singleton. by apply (Forall_last _ _ _ Hr El).
      * apply Hkeep. by apply Forall_removelast.
      * apply Forall_app. split; [done|]. apply Forall_singleton.
        by apply (Forall_last _ _ _ Hrn El).
      * by apply Forall_removelast.
      * split; [done|]. split; [by right|done].
    + do 2 eexists. split; [done|]. split; [|split; [by left|done]].
      split; simpl; try done; by apply Forall_removelast.
  - exists false, s. split; [done|]. split; [by split|]. split; [by left|done].
Qed.

Lemma engine_step_refused redo s : engine_ok s → engine_step redo (ret false) s.
Proof.
  intros Hs. exists false, s. split; [done|]. split; [done|].
  split; [by left|done].
Qed.

Lemma road_city2_run {S} road_text (s : S) :
  road_city2 road_text s =
    match entry_at (py_split " (" road_text) 0 with
    | Some city2 => (Ok city2, s)
    | None => (Raised IndexError, s)
    end.
Proof. unfold road_city2. apply py_getitem_run. Qed.

Lemma road_cost_run {S} py_int road_text (s : S) :
  road_cost py_int road_text s =
    match entry_at (py_split ": " road_text) 1 with
    | Some part =>
        match py_int (py_rstrip ")" part) with
        | Some cost => (Ok cost, s)
        | None => (Raised ValueError, s)
        end
    | None => (Raised IndexError, s)
    end.
Proof.
  unfold road_cost. rewrite bind_run, py_getitem_run.
  destruct (entry_at _ 1) as [part|]; [|done].
  by destruct (py_int _).
Qed.

Section handlers.
Variable py_strip : string → string.
Variable py_int : string → option Z.
Variable py_str : Z → string.
Variable json_loads : string → option json.

Local Abbreviation perform' := (perform py_strip py_int py_str json_loads).
Local Abbreviation edited' := (edited py_strip py_int py_str json_loads).

(** A handler other than a load on a sound state: it makes one sound call
    of the engine, or it raises before calling the engine, on the text of
    the selected road. *)
Lemma perform_engine a s :
  engine_ok s → loads_file a = false →
  engine_step (is_redo a) (perform' a) s ∨
  ∃ e, perform' a s = (Raised e, s) ∧
    (e = IndexError ∨ e = ValueError) ∧ reads_road_text a = true.
Proof.
  intros Hs Hload.
  destruct a as [text|sel|sel text|c1 c2 cost|sel c1|sel c1 new|city|sel| |
                 |created filename|filename file];
    cbn [perform reads_road_text is_redo].
  - left. unfold app_add_city. case_decide; [by apply engine_step_refused|].
    by apply execute_command_engine.
  - left. destruct sel as [name|]; [|by apply engine_step_refused].
    by apply app_remove_city_engine.
  - left. destruct sel as [name|]; simpl; [|by apply engine_step_refused].
    repeat case_decide; try by apply engine_step_refused.
    by apply execute_command_engine.
  - left. unfold app_add_road.
    destruct (_ || _); [by apply engine_step_refused|].
    case_decide; [by apply engine_step_refused|].
    by apply execute_command_engine.
  - destruct sel as [road_text|]; [|left; by apply engine_step_refused].
    unfold app_remove_road, engine_step. rewrite bind_run, road_city2_run.
    destruct (entry_at _ 0) as [city2|]; [|right; eauto 6].
    rewrite bind_run, road_cost_run.
    destruct (entry_at _ 1) as [part|]; [|right; eauto 6].
    destruct (py_int _) as [cost|]; [|right; eauto 6].
    left. by apply (execute_command_engine (RemoveRoadCommand c1 city2 cost)).
  - destruct sel as [road_text|]; [|left; by apply engine_step_refused].
    unfold app_update_road_cost, engine_step. rewrite bind_run, road_city2_run.
    destruct (entry_at _ 0) as [city2|]; [|right; eauto 6].
    rewrite bind_run, road_cost_run.
    destruct (entry_at _ 1) as [part|]; [|right; eauto 6].
    destruct (py_int _) as [cost|]; [|right; eauto 6].
    left. case_decide; [by apply engine_step_refused|].
    by apply (execute_command_engine (UpdateRoadCommand c1 city2 cost new)).
  - left. by apply (engine_step_refused false).
  - destruct sel as [road_text|]; [|left; by apply engine_step_refused].
    unfold app_on_road_selected, engine_step. rewrite bind_run, road_city2_run.
    destruct (entry_at _ 0) as [city2|]; [|right; eauto 6].
    rewrite bind_run, road_cost_run.
    destruct (entry_at _ 1) as [part|]; [|right; eauto 6].
    destruct (py_int _) as [cost|]; [|right; eauto 6].
    left. by apply (engine_step_refused false).
  - left. by apply manager_undo_engine.
  - left. by apply manager_redo_engine.
  - left. unfold app_save_to_file.
    case_decide; by apply (engine_step_refused false).
  - left. unfold app_load_from_file. simpl in Hload.
    case_decide as Hf; [by apply engine_step_refused|].
    by rewrite bool_decide_eq_true_2 in Hload.
Qed.

Lemma edited_engine_ok s : edited' s → engine_ok s.
Proof.
  induction 1 as [|s a _ IH Hload]; [apply engine_ok_new|].
  destruct (perform_engine a s IH Hload)
    as [(ok & s' & -> & Hs' & _)|(e & -> & _)]; done.
Qed.

(** Property X15. Behind a window whose load handler was never given a
    file (a load that fails counts as one), the map is always sound:
    symmetric in order, with no road from a city to itself, no empty cost
    list and no repeated neighbour. The handlers keep it so through every
    command, undo and redo, because [add_road] refuses equal cities before
    a command is built. *)
Theorem edited_map_sound (s : CommandManager) :
  edited' s → graph_ok (city_map s).
Proof. intros Hs. apply eo_map. by apply edited_engine_ok. Qed.

(** Property X16. Behind such a window the engine never raises. Of all
    the slots of the window, loading apart, only [remove_road],
    [update_road_cost] and [on_road_selected] can raise, [IndexError] or
    [ValueError], while they read the text of the selected road, and the
    engine state is then untouched. *)
Theorem edited_handlers_raise_only_on_road_text (s : CommandManager)
    (a : Action) (e : exn) (s' : CommandManager) :
  edited' s → loads_file a = false →
  perform' a s = (Raised e, s') →
  s' = s ∧ (e = IndexError ∨ e = ValueError) ∧ reads_road_text a = true.
Proof.
  intros Hs Hload Hr. apply edited_engine_ok in Hs.
  destruct (perform_engine a s Hs Hload)
    as [(ok & s1 & H1 & _)|(e1 & H1 & He & Ha)];
    rewrite H1 in Hr; [done|].
  by injection Hr as <- <-.
Qed.

(** Property X17. Behind such a window the cursor is always on the last
    entry of the timeline, so [_save_state] never drops one: every handler
    but a load leaves the entries as they were or appends the snapshot of
    the state it leaves. What the entries already there show is the same
    after every handler except redo, which can grow a list of captured
    roads that older entries share. *)
Theorem edited_timeline_only_grows (s : CommandManager) (a : Action) :
  edited' s → loads_file a = false →
  let s' := (perform' a s).2 in
  current_history_index s = (Z.of_nat (length (history s)) - 1)%Z ∧
  history s ≠ [] ∧
  (history s' = history s ∨ history s' = history s ++ [snapshot s']) ∧
  (is_redo a = false →
   shown (lists s') <$> history s = shown (lists s) <$> history s).
Proof.
  intros Hs Hload. apply edited_engine_ok in Hs. simpl.
  split; [apply (eo_cursor _ Hs)|]. split; [apply (eo_history _ Hs)|].
  destruct (perform_engine a s Hs Hload)
    as [(ok & s1 & -> & _ & Hh & Hshown)|(e1 & -> & _)]; [done|].
  split; [by left|done].
Qed.
End handlers.

Lemma edited_map_sound_witness :
  graph_ok (city_map (perform id (λ _, None) (λ _, "") (λ _, None)
                        (ActAddCity "A") new_app).2).
Proof.
  apply (edited_map_sound id (λ _, None) (λ _, "") (λ _, None)).
  apply edited_step; [apply edited_new|reflexivity].
Defined.

Lemma edited_handlers_raise_only_on_road_text_witness :
  new_app = new_app ∧ (IndexError = IndexError ∨ IndexError = ValueError) ∧
  reads_road_text (ActSelectRoad (Some "B")) = true.
Proof.
  apply (edited_handlers_raise_only_on_road_text id (λ _, None) (λ _, "")
           (λ _, None) new_app (ActSelectRoad (Some "B")) IndexError new_app).
  - apply edited_new.
  - reflexivity.
  - vm_compute. reflexivity.
Defined.

Lemma edited_timeline_only_grows_witness :
  let s' := (perform id (λ _, None) (λ _, "") (λ _, None)
               (ActRemoveCity (Some "A")) new_app).2 in
  current_history_index new_app = (Z.of_nat (length (history new_app)) - 1)%Z ∧
  history new_app ≠ [] ∧
  (history s' = history new_app ∨
   history s' = history new_app ++ [snapshot s']) ∧
  (is_redo (ActRemoveCity (Some "A")) = false →
   shown (lists s') <$> history new_app = shown (lists new_app) <$> history new_app).
Proof.
  apply (edited_timeline_only_grows id (λ _, None) (λ _, "") (λ _, None)
           new_app (ActRemoveCity (Some "A"))).
  - apply edited_new.
  - reflexivity.
Defined.

Lemma string_app_nil_l (s : string) : EmptyString +:+ s = s.
Proof. reflexivity. Qed.

Lemma string_app_cons x (a b : string) : String x a +:+ b = String x (a +:+ b).
Proof. reflexivity. Qed.

Section cut.
(** A separator of two characters, as the two the window splits on. *)
Variables c1 c2 : Ascii.ascii.
Implicit Types a b : string.
Local Abbreviation sep2 := (String c1 (String c2 EmptyString)).

Lemma prefix_sep2 x y a :
  String.prefix sep2 (String x (String y a)) =
    bool_decide (c1 = x) && bool_decide (c2 = y).
Proof.
  simpl.
  destruct (Ascii.ascii_dec c1 x), (Ascii.ascii_dec c2 y), a;
    repeat case_bool_decide; done.
Qed.

Lemma prefix_sep2_short x :
  String.prefix sep2 (String x EmptyString) = false.
Proof. simpl. by destruct (Ascii.ascii_dec c1 x). Qed.

Lemma py_cut_cons x a :
  py_cut sep2 (String x a) =
    if String.prefix sep2 (String x a)
    then Some (EmptyString, string_drop 2 (String x a))
    else (λ cut, (String x cut.1, cut.2)) <$> py_cut sep2 a.
Proof. reflexivity. Qed.

Lemma prefix_sep2_app x a ch b b' :
  String.prefix sep2 (String x (a +:+ String ch b)) =
  String.prefix sep2 (String x (a +:+ String ch b')).
Proof.
  destruct a; rewrite ?string_app_nil_l, ?string_app_cons;
    by rewrite !prefix_sep2.
Qed.

(** A separator that does not occur in [a] followed by the first
    character of the rest is first found in the rest. *)
Lemma py_cut_app_None a ch b :
  py_cut sep2 (a +:+ String ch EmptyString) = None →
  py_cut sep2 (a +:+ String ch b) =
    (λ cut, (a +:+ cut.1, cut.2)) <$> py_cut sep2 (String ch b).
Proof.
  induction a as [|x a IH]; intros Hn.
  - rewrite string_app_nil_l.
    destruct (py_cut sep2 (String ch b)) as [[p q]|]; reflexivity.
  - rewrite string_app_cons in Hn. rewrite string_app_cons.
    rewrite py_cut_cons in Hn. rewrite py_cut_cons.
    rewrite (prefix_sep2_app x a ch b EmptyString).
    destruct (String.prefix _ _); [done|].
    destruct (py_cut sep2 (a +:+ String ch EmptyString)) eqn:E;
      [done|].
    rewrite IH by done.
    destruct (py_cut sep2 (String ch b)) as [[p q]|]; reflexivity.
Qed.

(** The first occurrence inside [a] is the first occurrence in [a]
    followed by anything. *)
Lemma py_cut_app_Some a b before after :
  py_cut sep2 a = Some (before, after) →
  py_cut sep2 (a +:+ b) = Some (before, after +:+ b) ∧
  (String.length before < String.length a)%nat.
Proof.
  revert before. induction a as [|x a IH]; intros before; [done|].
  rewrite string_app_cons. rewrite !py_cut_cons. destruct a as [|y a].
  - rewrite prefix_sep2_short. done.
  - replace (String.prefix sep2 (String x (String y a +:+ b)))
      with (String.prefix sep2 (String x (String y a)))
      by (by rewrite string_app_cons, !prefix_sep2).
    destruct (String.prefix _ _).
    + intros [= <- <-]. split; [done|]. simpl. lia.
    + destruct (py_cut sep2 (String y a)) as [[p q]|] eqn:E;
        [|done].
      intros [= <- <-].
      destruct (IH p eq_refl) as [-> Hlt]. split; [done|].
      cbn [String.length] in *. lia.
Qed.

Lemma py_split_cut s before after :
  py_cut sep2 s = Some (before, after) →
  py_split sep2 s =
    before :: py_split_from (String.length s - 1) sep2 after.
Proof.
  intros Hc. unfold py_split. destruct s as [|x s]; [done|].
  cbn [String.length py_split_from]. rewrite Hc.
  by replace (S (String.length s) - 1)%nat with (String.length s) by lia.
Qed.

Lemma py_split_from_None n s :
  py_cut sep2 s = None → py_split_from n sep2 s = [s].
Proof. intros Hc. destruct n; [done|]. simpl. by rewrite Hc. Qed.
End cut.

Lemma string_app_empty_r (s : string) : s +:+ EmptyString = s.
Proof.
  induction s as [|x s IH]; [done|]. by rewrite string_app_cons, IH.
Qed.

Lemma entry_at_0 {A} (x : A) l : entry_at (x :: l) 0 = Some x.
Proof. reflexivity. Qed.

Lemma entry_at_1 {A} (x y : A) l : entry_at (x :: y :: l) 1 = Some y.
Proof.
  unfold entry_at. simpl. done.
Qed.

Section road_text.
Variable py_int : string → option Z.
Variable py_str : Z → string.

Lemma road_item_cut_paren neighbor cost :
  py_cut " (" (neighbor +:+ " ") = None →
  py_cut " (" (road_item py_str neighbor cost) =
    Some (neighbor, "стоимость: " +:+ py_str cost +:+ ")").
Proof.
  intros Hn. rewrite <- (string_app_empty_r neighbor) at 2.
  exact (py_cut_app_None _ _ neighbor _
           ("(стоимость: " +:+ py_str cost +:+ ")") Hn).
Qed.

Lemma road_item_cut_colon neighbor cost :
  py_cut ": " (neighbor +:+ " ") = None →
  py_cut ": " (road_item py_str neighbor cost) =
    Some (neighbor +:+ " (стоимость", py_str cost +:+ ")").
Proof.
  intros Hn. etransitivity.
  - exact (py_cut_app_None _ _ neighbor _
             ("(стоимость: " +:+ py_str cost +:+ ")") Hn).
  - rewrite !string_app_cons, string_app_nil_l.
    repeat (rewrite py_cut_cons, prefix_sep2). reflexivity.
Qed.

Lemma road_city2_item {S} neighbor cost (s : S) :
  py_cut " (" (neighbor +:+ " ") = None →
  road_city2 (road_item py_str neighbor cost) s = (Ok neighbor, s).
Proof.
  intros Hn. rewrite road_city2_run.
  by rewrite (py_split_cut _ _ _ _ _ (road_item_cut_paren neighbor cost Hn)).
Qed.

Lemma road_cost_item {S} neighbor cost (s : S) :
  py_cut ": " (neighbor +:+ " ") = None →
  py_cut ": " (py_str cost +:+ ")") = None →
  py_rstrip ")" (py_str cost +:+ ")") = py_str cost →
  py_int (py_str cost) = Some cost →
  road_cost py_int (road_item py_str neighbor cost) s = (Ok cost, s).
Proof.
  intros Hn Hc Hr Hi. rewrite road_cost_run.
  rewrite (py_split_cut _ _ _ _ _ (road_item_cut_colon neighbor cost Hn)).
  rewrite (py_split_from_None _ _ _ _ Hc).
  rewrite entry_at_1. by rewrite Hr, Hi.
Qed.

(** Property X18. The text of a road item is read back as it was
    written. For a neighbour name that, followed by a space, contains
    neither [" ("] nor [": "] (and a number text as [str] writes an
    integer: no [": "], no closing parenthesis at its end, read back by
    [int]), the handlers recover the neighbour and the cost from the item
    [update_roads_list] shows, so removing the selected road submits
    [RemoveRoadCommand] for exactly that road. A name that contains [" ("]
    is cut at its first occurrence: the handlers then address another
    city. *)
Theorem road_item_round_trip (neighbor : string) (cost : Z) :
  py_cut ": " (py_str cost +:+ ")") = None →
  py_rstrip ")" (py_str cost +:+ ")") = py_str cost →
  py_int (py_str cost) = Some cost →
  (py_cut " (" (neighbor +:+ " ") = None →
   py_cut ": " (neighbor +:+ " ") = None →
   ∀ city1 s,
     road_city2 (road_item py_str neighbor cost) s = (Ok neighbor, s) ∧
     road_cost py_int (road_item py_str neighbor cost) s = (Ok cost, s) ∧
     app_remove_road py_int (Some (road_item py_str neighbor cost)) city1 s =
       execute_command (RemoveRoadCommand city1 neighbor cost) s) ∧
  (∀ before after (s : CommandManager),
     py_cut " (" neighbor = Some (before, after) →
     road_city2 (road_item py_str neighbor cost) s = (Ok before, s) ∧
     before ≠ neighbor).
Proof.
  intros Hc Hr Hi. split.
  - intros Hn1 Hn2 city1 s.
    pose proof (road_city2_item neighbor cost s Hn1) as H1.
    pose proof (road_cost_item neighbor cost s Hn2 Hc Hr Hi) as H2.
    split; [done|]. split; [done|].
    unfold app_remove_road. by rewrite bind_run, H1, bind_run, H2.
  - intros before after s Hcut.
    destruct (py_cut_app_Some _ _ neighbor
                (road_item_tail (py_str cost)) before after Hcut)
      as [Happ Hlt].
    split.
    + rewrite road_city2_run.
      change (road_item py_str neighbor cost)
        with (neighbor +:+ road_item_tail (py_str cost)).
      by rewrite (py_split_cut _ _ _ _ _ Happ).
    + intros ->. lia.
Qed.
End road_text.

Lemma road_item_round_trip_witness :
  (py_cut " (" ("B" +:+ " ") = None →
   py_cut ": " ("B" +:+ " ") = None →
   ∀ city1 s,
     road_city2 (road_item (λ _, "5") "B" 5) s = (Ok "B", s) ∧
     road_cost (λ _, Some 5%Z) (road_item (λ _, "5") "B" 5) s = (Ok 5%Z, s) ∧
     app_remove_road (λ _, Some 5%Z) (Some (road_item (λ _, "5") "B" 5)) city1 s =
       execute_command (RemoveRoadCommand city1 "B" 5) s) ∧
  (∀ before after (s : CommandManager),
     py_cut " (" "B" = Some (before, after) →
     road_city2 (road_item (λ _, "5") "B" 5) s = (Ok before, s) ∧
     before ≠ "B").
Proof.
  apply (road_item_round_trip (λ _, Some 5%Z) (λ _, "5") "B" 5); reflexivity.
Defined.

(** A city named [A (B], joined to [A]: its road item is read as a road to
    [A]. *)
Example road_item_cut_short :
  road_city2 (road_item (λ _, "5") "A (B" 5) new_app = (Ok "A", new_app).
Proof. vm_compute. reflexivity. Qed.

Lemma held_command_shown lists lists' (c c' : CommandRef) :
  held lists c = held lists' c' →
  shown lists (_command_to_dict c) = shown lists' (_command_to_dict c').
Proof.
  destruct c, c'; simpl; try done; intros H; injection H as H1;
    repeat match goal with H : _ = _ |- _ => rewrite H; clear H end; done.
Qed.

Lemma held_commands_shown lists lists' (cs cs' : list CommandRef) :
  held lists <$> cs = held lists' <$> cs' →
  shown lists (_serialize_commands cs) = shown lists' (_serialize_commands cs').
Proof.
  intros H. unfold _serialize_commands. simpl. f_equal. revert cs' H.
  induction cs as [|c cs IH]; intros [|c' cs']; try done.
  rewrite !fmap_cons. intros [= Hc Hcs]. simpl. f_equal.
  - by apply held_command_shown.
  - by apply IH.
Qed.

(** Property X19. Loading the document [save_to_file] writes restores the
    engine: the map with the order of its cities and neighbours, and both
    stacks command by command, each [RemoveCityCommand] with the roads it
    had captured, now in a list of its own that the loaded entry of the
    timeline shares. The timeline is not saved: whatever it held, the loaded
    engine has one entry, which is the snapshot of its state and shows what
    the snapshot of the saved state shows, with the cursor on it. *)
Theorem save_load_restores_engine (json_loads : string → option json)
    (created : string) (s s0 : CommandManager) :
  map_wf (city_map s) →
  ∃ s', load_from_file json_loads (Some (save_to_file created s)) s0 = (Ok true, s') ∧
    city_map s' = city_map s ∧
    held (lists s') <$> undo_stack s' = held (lists s) <$> undo_stack s ∧
    held (lists s') <$> redo_stack s' = held (lists s) <$> redo_stack s ∧
    history s' = [snapshot s'] ∧
    shown (lists s') (snapshot s') = shown (lists s) (snapshot s) ∧
    current_history_index s' = 0%Z.
Proof.
  intros Hwf. eexists. split; [by apply load_saved|].
  assert (held (lists (reloaded s s0)) <$> undo_stack (reloaded s s0) =
          held (lists s) <$> undo_stack s) as Hu.
  { cbn [reloaded lists undo_stack]. rewrite <- app_assoc. apply held_rebased. }
  assert (held (lists (reloaded s s0)) <$> redo_stack (reloaded s s0) =
          held (lists s) <$> redo_stack s) as Hr.
  { cbn [reloaded lists redo_stack].
    rewrite <- (app_nil_r (captured (lists s) (redo_stack s))) at 1.
    apply held_rebased. }
  split; [done|]. split; [done|]. split; [done|]. split; [done|].
  split; [|done]. unfold snapshot. cbn [shown map fst snd].
  rewrite (held_commands_shown _ _ _ _ Hu), (held_commands_shown _ _ _ _ Hr).
  done.
Qed.

Lemma example_manager_wf : map_wf (city_map example_manager).
Proof.
  split.
  - unfold dict_wf. apply (bool_decide_unpack _). vm_compute. exact I.
  - intros a d. vm_compute (city_map example_manager). simpl.
    repeat case_decide; intros [= <-]; unfold dict_wf;
      apply (bool_decide_unpack _); vm_compute; exact I.
Qed.

Lemma save_load_restores_engine_witness :
  ∃ s', load_from_file (λ _, None)
          (Some (save_to_file "2024-01-01T00:00:00" example_manager))
          (new_manager empty_map) = (Ok true, s') ∧
    city_map s' = city_map example_manager ∧
    held (lists s') <$> undo_stack s' =
      held (lists example_manager) <$> undo_stack example_manager ∧
    held (lists s') <$> redo_stack s' =
      held (lists example_manager) <$> redo_stack example_manager ∧
    history s' = [snapshot s'] ∧
    shown (lists s') (snapshot s') =
      shown (lists example_manager) (snapshot example_manager) ∧
    current_history_index s' = 0%Z.
Proof.
  apply (save_load_restores_engine (λ _, None) "2024-01-01T00:00:00"
           example_manager (new_manager empty_map)).
  exact example_manager_wf.
Defined.

Lemma json_index_run {S} d key (s : S) :
  json_index (JDict d) key s =
    match dict_get key d with
    | Some v => (Ok v, s)
    | None => (Raised KeyError, s)
    end.
Proof. unfold json_index. by destruct (dict_get key d). Qed.

Lemma deserialize_command_skipped v (lists : heap) :
  skipped_record v → deserialize_command v lists = (Ok (None, Plain v), lists).
Proof.
  destruct v as [| | | | |d]; try done.
  unfold skipped_record, deserialize_command, try_except.
  rewrite bind_run, json_index_run.
  destruct (dict_get "type" d) as [[| | |type| |]|]; try done.
  unfold fields_of, json_is_str.
  repeat (case_decide; [subst type; rewrite bool_decide_true by done
                       |rewrite bool_decide_false by done]);
    try done;
    intros (field & Hin & Hnone);
    repeat (rewrite bind_run, json_index_run;
            match goal with
            | |- context [dict_get ?k d] =>
                destruct (dict_get k d) eqn:?; [|done]
            end);
    repeat (apply elem_of_cons in Hin as [->|Hin]; [congruence|]);
    by apply elem_of_nil in Hin.
Qed.

Lemma rebuilt_cons v items (lists : heap) :
  rebuilt (v :: items) lists =
    match deserialize_command v lists with
    | (Ok c, lists1) =>
        match rebuilt items lists1 with
        | (Ok cs, lists2) => (Ok (from_option (λ c, [c]) [] c.1 ++ cs), lists2)
        | (Raised e, lists2) => (Raised e, lists2)
        end
    | (Raised e, lists1) => (Raised e, lists1)
    end.
Proof.
  unfold rebuilt. cbn [map_m]. rewrite !bind_run.
  destruct (deserialize_command v lists) as [[[c data]|e] lists1]; [|done].
  rewrite !bind_run.
  destruct (map_m deserialize_command items lists1) as [[cs|e] lists2]; [|done].
  rewrite !ret_run. by destruct c.
Qed.

Lemma rebuilt_skip pre v post (lists : heap) :
  skipped_record v → rebuilt (pre ++ v :: post) lists = rebuilt (pre ++ post) lists.
Proof.
  intros Hv. revert lists. induction pre as [|x pre IH]; intros lists.
  - rewrite !app_nil_l, rebuilt_cons, (deserialize_command_skipped v lists Hv).
    by destruct (rebuilt post lists) as [[cs|e] lists1].
  - rewrite <- !app_comm_cons, !rebuilt_cons.
    destruct (deserialize_command x lists) as [[c|e] lists1]; [|done].
    by rewrite IH.
Qed.

Lemma map_m_all_skipped items (lists : heap) :
  Forall skipped_record items →
  map_m deserialize_command items lists = (Ok ((λ v, (None, Plain v)) <$> items), lists).
Proof.
  induction 1 as [|v items Hv _ IH]; [done|].
  cbn [map_m]. rewrite bind_run, (deserialize_command_skipped v lists Hv).
  cbv beta iota. by rewrite bind_run, IH.
Qed.

Lemma omap_all_skipped (items : list json) :
  omap fst ((λ v, (None : option CommandRef, Plain v)) <$> items) = [].
Proof. by induction items. Qed.

Lemma commands_of_rebuilt items (lists : heap) :
  commands_of (_deserialize_commands (JList items)) lists = rebuilt items lists.
Proof.
  unfold commands_of, _deserialize_commands, rebuilt.
  rewrite !bind_run. cbn [json_iter]. rewrite ret_run. cbv beta iota.
  rewrite !bind_run.
  by destruct (map_m deserialize_command items lists) as [[results|e] lists1].
Qed.

(** Property X20. [_deserialize_commands] tolerates records it cannot
    rebuild. A record that is not an object, has no type tag or an unknown
    one, or lacks a field of its type is passed over: the commands, the
    lists they get and the way the call ends are the same as if the record
    were not in the data. Data that is an object or a string instead of a
    list gives no command at all, and no list. *)
Theorem unknown_records_are_skipped (pre post : list json) (v : json)
    (lists : heap) :
  (skipped_record v →
   commands_of (_deserialize_commands (JList (pre ++ v :: post))) lists =
   commands_of (_deserialize_commands (JList (pre ++ post))) lists) ∧
  (∀ d, _deserialize_commands (JDict d) lists =
          (Ok ([], Plain (JDict d)), lists)) ∧
  (∀ text, _deserialize_commands (JStr text) lists =
             (Ok ([], Plain (JStr text)), lists)).
Proof.
  split; [|split].
  - intros Hv. rewrite !commands_of_rebuilt. by apply rebuilt_skip.
  - intros d. unfold _deserialize_commands. rewrite bind_run. cbn [json_iter].
    rewrite ret_run. cbv beta iota. rewrite bind_run, map_m_all_skipped
      by by apply Forall_fmap, Forall_true.
    cbv beta iota. by rewrite ret_run, omap_all_skipped.
  - intros text. unfold _deserialize_commands. rewrite bind_run. cbn [json_iter].
    rewrite ret_run. cbv beta iota. rewrite bind_run, map_m_all_skipped
      by by apply Forall_fmap, Forall_true.
    cbv beta iota. by rewrite ret_run, omap_all_skipped.
Qed.

Lemma pure_as_costs {S} v : pure_m (as_costs v : M S _).
Proof.
  destruct v; unfold as_costs;
    first [ apply pure_map_m; intros ?; apply pure_as_int
          | apply pure_bind; [apply pure_as_int|intros ?; apply pure_ret] ].
Qed.

(** [load_neighbors] writes into the neighbour map of its city only. *)
Lemma load_neighbors_frame city neighbors m :
  dict_keys (load_neighbors city neighbors m).2 = dict_keys m ∧
  ∀ x, x ≠ city → dict_get x (load_neighbors city neighbors m).2 = dict_get x m.
Proof.
  revert m. induction neighbors as [|[nb costs] rest IH]; intros m; [done|].
  rewrite load_neighbors_cons, bind_run, bind_run.
  pose proof (pure_as_costs (S := CityMap) costs m) as Hp.
  destruct (as_costs costs m) as [[l|e] m1]; simpl in Hp; subst m1; [|done].
  rewrite setitem2_run. destruct (dict_mem city m); [|done].
  destruct (IH (upd2 city nb (Some l) m)) as [Hk Hg].
  rewrite Hk, dict_keys_upd2. split; [done|].
  intros x Hx. rewrite Hg by done. rewrite dict_get_upd2.
  by rewrite decide_False.
Qed.

Lemma load_legacy_city_run city v m :
  dict_mem city m = false →
  ∃ r m', load_legacy_city (city, v) m = (r, m') ∧
    dict_keys m' = dict_keys m ++ [city] ∧
    (∀ x, x ≠ city → dict_get x m' = dict_get x m) ∧
    (is_object v = false → r = Ok tt ∧ dict_get city m' = Some []).
Proof.
  intros Hc. unfold load_legacy_city. cbn [fst snd].
  rewrite bind_run. unfold setitem. rewrite modify_run.
  assert (dict_keys (dict_set city ([] : dict (list Z)) m) =
            dict_keys m ++ [city]) as Hk
    by (by rewrite dict_keys_set, Hc).
  assert (∀ x, x ≠ city →
            dict_get x (dict_set city ([] : dict (list Z)) m) = dict_get x m)
    as Hg by (intros x Hx; by rewrite dict_get_set, decide_False).
  destruct v as [| | | | |neighbors];
    try (do 2 eexists; split; [done|]; split; [done|]; split; [done|];
         intros _; split; [done|]; by rewrite dict_get_set, decide_True).
  destruct (load_neighbors_frame city neighbors (dict_set city [] m)) as [Hk' Hg'].
  destruct (load_neighbors city neighbors (dict_set city [] m)) as [r m'] eqn:E.
  simpl in *. exists r, m'. split; [done|]. split; [by rewrite Hk'|].
  split; [|done]. intros x Hx. by rewrite Hg', Hg.
Qed.

Lemma load_legacy_cities items pre m' :
  NoDup (dict_keys pre ++ dict_keys items) →
  for_ items load_legacy_city pre = (Ok tt, m') →
  dict_keys m' = dict_keys pre ++ dict_keys items ∧
  (∀ x, x ∈ dict_keys pre → dict_get x m' = dict_get x pre) ∧
  (∀ city v, (city, v) ∈ items → is_object v = false →
     dict_get city m' = Some []).
Proof.
  revert pre. induction items as [|[city v] items IH]; intros pre Hnd.
  - intros [= <-]. rewrite app_nil_r. split; [done|]. split; [done|].
    by intros ? ? ?%elem_of_nil.
  - cbn [for_]. rewrite bind_run.
    cbn [dict_keys map fst] in Hnd. pose proof Hnd as Hnd'.
    apply NoDup_app in Hnd' as (_ & Hdisj & Hitems).
    assert (city ∉ dict_keys pre) as Hfresh.
    { intros Hin. apply (Hdisj _ Hin). left. }
    destruct (load_legacy_city_run city v pre) as (r & m1 & -> & Hk & Hg & Hv).
    { by apply dict_mem_false, dict_get_None_keys. }
    destruct r as [[]|e]; [|done]. intros Hrest.
    destruct (IH m1) as (Hk' & Hg' & Hv'); [| done |].
    { rewrite Hk, <- app_assoc. exact Hnd. }
    split; [|split].
    + rewrite Hk', Hk, <- app_assoc. done.
    + intros x Hx. rewrite Hg'.
      * apply Hg. by intros ->.
      * rewrite Hk. apply elem_of_app. by left.
    + intros c w [[= -> ->]|Hin]%elem_of_cons Hw.
      * rewrite Hg'; [by apply Hv|]. rewrite Hk. apply elem_of_app. right.
        by apply list_elem_of_singleton.
      * by eapply Hv'.
Qed.

Lemma from_dict_legacy_run d m0 :
  json_is_str (doc_version d) "1.2" = false →
  from_dict (JDict d) m0 = for_ d load_legacy_city [].
Proof.
  intros Hv. unfold from_dict. rewrite bind_run. cbn [json_get].
  rewrite ret_run. cbv beta iota. fold (doc_version d). rewrite Hv.
  by rewrite bind_run, modify_run.
Qed.

Lemma dict_get_Some_elem {V} (d : dict V) k v :
  dict_get k d = Some v → (k, v) ∈ d.
Proof.
  induction d as [|[k0 v0] d IH]; simpl; [done|].
  case_decide; [intros [= ->]; subst; left|right; auto].
Qed.

Lemma from_dict_legacy_keys (d : dict json) (m0 m' : CityMap) :
  NoDup (dict_keys d) →
  json_is_str (doc_version d) "1.2" = false →
  from_dict (JDict d) m0 = (Ok tt, m') →
  get_cities m' = dict_keys d ∧
  ∀ city v, dict_get city d = Some v → is_object v = false →
    dict_mem city m' = true ∧ get_roads_from_city city m' = [].
Proof.
  intros Hnd Hv. rewrite from_dict_legacy_run by done. intros Hrun.
  destruct (load_legacy_cities d [] m' Hnd Hrun) as (Hk & _ & Hc).
  split; [done|]. intros city v Hd Hobj.
  pose proof (Hc city v (dict_get_Some_elem _ _ _ Hd) Hobj) as Hget.
  unfold dict_mem, get_roads_from_city. by rewrite Hget.
Qed.

(** Property X21. The legacy branch of [from_dict] (any document without
    the version tag ['1.2']): when it returns, the cities of the map are
    exactly the top-level keys of the document, in their order, whatever the
    map held before; a key whose value is not an object becomes a city
    without roads. So a tag such as ["_version": "1.0"] is loaded as a city
    named [_version]. *)
Theorem from_dict_legacy_cities (d : dict json) (m0 m' : CityMap) :
  NoDup (dict_keys d) →
  json_is_str (doc_version d) "1.2" = false →
  from_dict (JDict d) m0 = (Ok tt, m') →
  get_cities m' = dict_keys d ∧
  ∀ city v, dict_get city d = Some v → is_object v = false →
    dict_mem city m' = true ∧ get_roads_from_city city m' = [].
Proof. apply from_dict_legacy_keys. Qed.

Lemma from_dict_legacy_cities_witness :
  let d := [("_version", JStr "1.0"); ("A", JDict [("B", JInt 5)]); ("B", JNull)] in
  let m' : CityMap := [("_version", []); ("A", [("B", [5%Z])]); ("B", [])] in
  get_cities m' = dict_keys d ∧
  ∀ city v, dict_get city d = Some v → is_object v = false →
    dict_mem city m' = true ∧ get_roads_from_city city m' = [].
Proof.
  apply (from_dict_legacy_cities
           [("_version", JStr "1.0"); ("A", JDict [("B", JInt 5)]); ("B", JNull)]
           example_map).
  - apply (bool_decide_unpack _). vm_compute. exact I.
  - reflexivity.
  - vm_compute. reflexivity.
Defined.

(** Property X22. [to_dict] is not read back by [from_dict]. For every
    map [to_dict] writes an object with the two keys [cities] and
    [_serializer] and no version tag, so [from_dict] does not find the tag
    ['1.2'] and takes its legacy branch, which reads top-level keys as city
    names (X21). On the empty map that branch returns, and the map it
    leaves has the two cities [cities] and [_serializer], whatever it held
    before. *)
Theorem to_dict_is_not_read_back (m m0 : CityMap) :
  (∃ d, to_dict m = JDict d ∧
     dict_keys d = ["cities"; "_serializer"] ∧
     dict_get "_version" d = None ∧
     json_is_str (doc_version d) "1.2" = false) ∧
  from_dict (to_dict empty_map) m0 =
    (Ok tt, [("cities", []); ("_serializer", [])]).
Proof.
  split; [|reflexivity]. unfold to_dict. eexists. split; [done|]. done.
Qed.

Lemma hold_linked index key data s :
  hold index key data s = set_history (linked index key data (history s)) s.
Proof. reflexivity. Qed.

(** [load_tail] step by step. *)
Lemma load_tail_steps i fields map_state s :
  load_tail i (JDict fields) map_state s =
    match from_dict map_state (city_map s) with
    | (Ok _, m') =>
        match _deserialize_commands (entry_commands "undo_stack" fields) (lists s) with
        | (Ok (undo, undo_data), lists1) =>
            match _deserialize_commands (entry_commands "redo_stack" fields) lists1 with
            | (Ok (redo, redo_data), lists2) =>
                (Ok true,
                 {| city_map := m'; undo_stack := undo; redo_stack := redo;
                    history := linked i "redo_stack" redo_data
                                 (linked i "undo_stack" undo_data (history s));
                    current_history_index := current_history_index s;
                    lists := lists2 |})
            | (Raised e, lists2) =>
                (Raised e,
                 set_lists lists2
                   (set_undo_stack undo
                      (hold i "undo_stack" undo_data
                         (set_lists lists1 (set_city_map m' s)))))
            end
        | (Raised e, lists1) => (Raised e, set_lists lists1 (set_city_map m' s))
        end
    | (Raised e, m') => (Raised e, set_city_map m' s)
    end.
Proof.
  unfold load_tail, entry_commands. rewrite bind_run. unfold on_city_map at 1.
  destruct (from_dict map_state (city_map s)) as [[[]|e] m1]; [|done].
  rewrite bind_run. cbn [json_get]. rewrite ret_run. cbv beta iota.
  rewrite bind_run, on_lists_run. cbn [lists set_city_map].
  destruct (_deserialize_commands _ (lists s)) as [[[undo undo_data]|e] lists1];
    [|done].
  cbv beta iota. rewrite bind_run, modify_run. cbv beta iota.
  rewrite bind_run, modify_run. cbv beta iota.
  rewrite bind_run, ret_run. cbv beta iota.
  rewrite bind_run, on_lists_run. cbn [lists set_city_map set_lists hold
    set_history set_undo_stack].
  destruct (_deserialize_commands _ lists1) as [[[redo redo_data]|e] lists2];
    [|done].
  cbv beta iota. rewrite bind_run, modify_run. cbv beta iota.
  by rewrite bind_run, modify_run.
Qed.

Lemma load_true_inv json_loads d s s' :
  load_from_file json_loads (Some (JDict d)) s = (Ok true, s') →
  ∃ h i fields map_state,
    doc_history d = JList h ∧ doc_index d = JInt i ∧
    entry_at h i = Some (JDict fields) ∧
    entry_map_state json_loads (JDict fields) = Some map_state.
Proof.
  unfold load_from_file, try_except, doc_history, doc_index.
  rewrite bind_run, ret_run. cbv beta iota.
  rewrite bind_run. cbn [json_get]. rewrite ret_run. cbv beta iota.
  rewrite bind_run.
  destruct (from_option id (JList []) (dict_get "history" d))
    as [| | | |h|]; cbn [as_list]; try done.
  rewrite ret_run. cbv beta iota.
  rewrite bind_run, modify_run. cbv beta iota. rewrite bind_run, ret_run.
  cbv beta iota. rewrite bind_run.
  destruct (from_option id (JInt 0) (dict_get "current_index" d))
    as [| |i| | |]; cbn [as_int]; try done.
  rewrite ret_run. cbv beta iota. rewrite bind_run, modify_run.
  cbv beta iota. intros H. exists h, i.
  destruct h as [|e0 h0]; [done|].
  rewrite bind_run, py_getitem_run in H.
  destruct (entry_at (e0 :: h0) i) as [entry|] eqn:Ee; [|done].
  destruct entry as [| | | | |fields]; try done.
  rewrite bind_run in H. cbn [json_get] in H. rewrite ret_run in H.
  cbv beta iota in H. rewrite bind_run in H. cbn [entry_map_state].
  exists fields.
  destruct (from_option id (JDict []) (dict_get "map_state" fields))
    as [|b|n|text|l|ms] eqn:Ems; eauto.
  destruct (json_loads text) as [parsed|] eqn:Ep; [eauto|done].
Qed.

(** Property X23. What a successful load does. [load_from_file] returns
    [True] exactly when the history of the document has an entry at its
    cursor (a negative cursor counting from the end), that entry is an
    object with a map state (given as a value, or as a text that parses)
    that [from_dict] accepts, and the commands data of both stacks can be
    iterated and rebuilt, the undo stack first. The engine then holds the
    whole history and the cursor of the document, the map read from that
    entry, and the two stacks rebuilt from it. The timeline shows the
    history of the document, the snapshots after the cursor included; its
    entry at the cursor shares the lists of roads of its records with the
    commands rebuilt from them. *)
Theorem successful_load_effect (json_loads : string → option json)
    (d : dict json) (s : CommandManager) :
  (∀ s', load_from_file json_loads (Some (JDict d)) s = (Ok true, s') →
     ∃ h i fields map_state undo_data redo_data lists1,
       doc_history d = JList h ∧ doc_index d = JInt i ∧
       entry_at h i = Some (JDict fields) ∧
       entry_map_state json_loads (JDict fields) = Some map_state ∧
       from_dict map_state (city_map s) = (Ok tt, city_map s') ∧
       _deserialize_commands (entry_commands "undo_stack" fields) (lists s) =
         (Ok (undo_stack s', undo_data), lists1) ∧
       _deserialize_commands (entry_commands "redo_stack" fields) lists1 =
         (Ok (redo_stack s', redo_data), lists s') ∧
       history s' =
         linked i "redo_stack" redo_data
           (linked i "undo_stack" undo_data (Plain <$> h)) ∧
       shown (lists s') <$> history s' = h ∧
       current_history_index s' = i) ∧
  (∀ h i fields map_state m' undo undo_data lists1 redo redo_data lists2,
     doc_history d = JList h → doc_index d = JInt i →
     entry_at h i = Some (JDict fields) →
     entry_map_state json_loads (JDict fields) = Some map_state →
     from_dict map_state (city_map s) = (Ok tt, m') →
     _deserialize_commands (entry_commands "undo_stack" fields) (lists s) =
       (Ok (undo, undo_data), lists1) →
     _deserialize_commands (entry_commands "redo_stack" fields) lists1 =
       (Ok (redo, redo_data), lists2) →
     load_from_file json_loads (Some (JDict d)) s =
       (Ok true, {| city_map := m'; undo_stack := undo; redo_stack := redo;
                    history := linked i "redo_stack" redo_data
                                 (linked i "undo_stack" undo_data (Plain <$> h));
                    current_history_index := i; lists := lists2 |})).
Proof.
  split.
  - intros s' H.
    destruct (load_true_inv _ _ _ _ H) as (h & i & fields & ms & Hh & Hi & He & Hm).
    rewrite (load_reaches json_loads d h i s Hh Hi), He, Hm in H.
    destruct (load_tail i (JDict fields) ms _) as [r s2] eqn:Et.
    assert (r = Ok true ∧ s2 = s') as [-> ->]
      by (destruct r as [?|[]]; by simplify_eq).
    destruct (load_tail_run h i fields ms _ _ _ (shows_plain h _) He Et)
      as [[Hs2 _] _].
    rewrite load_tail_steps in Et.
    cbn [city_map lists history current_history_index set_index set_history]
      in Et.
    destruct (from_dict ms (city_map s)) as [[[]|e] m1] eqn:Ef; [|done].
    destruct (_deserialize_commands (entry_commands "undo_stack" fields) (lists s))
      as [[[undo undo_data]|e] lists1] eqn:Eu; [|done].
    destruct (_deserialize_commands (entry_commands "redo_stack" fields) lists1)
      as [[[redo redo_data]|e] lists2] eqn:Er; [|done].
    injection Et as <-. exists h, i, fields, ms, undo_data, redo_data, lists1.
    repeat (split; [done|]). split; [|done].
    specialize (Hs2 []). by rewrite app_nil_r in Hs2.
  - intros h i fields ms m' undo undo_data lists1 redo redo_data lists2
      Hh Hi He Hm Hf Hu Hr.
    rewrite (load_reaches json_loads d h i s Hh Hi), He, Hm, load_tail_steps.
    cbn [city_map lists history current_history_index set_index set_history].
    by rewrite Hf, Hu, Hr.
Qed.

Lemma roads_from_city_costs m city nb costs :
  inner_wf m → (nb, costs) ∈ get_roads_from_city city m →
  costs_from m city nb = Some costs.
Proof.
  unfold get_roads_from_city, costs_from. intros Hwf Hin.
  destruct (dict_get city m) as [d|] eqn:E; simpl.
  - apply dict_get_elem_of; [by apply (Hwf city)|done].
  - by apply elem_of_nil in Hin.
Qed.

Section selected_road.
Variable py_int : string → option Z.
Variable py_str : Z → string.

Lemma road_item_shown city nb costs cost m :
  city ≠ "" → (nb, costs) ∈ get_roads_from_city city m → cost ∈ costs →
  road_item py_str nb cost ∈ update_roads_list py_str city m.
Proof.
  intros Hc Hin Hcost. unfold update_roads_list.
  rewrite decide_False by done. apply list_elem_of_bind.
  exists (nb, costs). split; [|done].
  apply list_elem_of_fmap. by exists cost.
Qed.

(** Property X24. Removing the selected road, end to end. On a sound map,
    for a road of the city of the first combo box whose neighbour name and
    cost are read back from their item (the conditions of X18), the
    handler [remove_road] returns through [update_ui], takes one instance
    of that cost, the first, out of both directions of the pair (the pair
    goes when no cost is left), changes no other pair, pushes the command
    on the undo stack and empties the redo stack. The item is the one
    [update_roads_list] shows for that road. *)
Theorem remove_selected_road (s : CommandManager) (city1 neighbor : string)
    (costs : list Z) (cost : Z) :
  graph_ok (city_map s) →
  (neighbor, costs) ∈ get_roads_from_city city1 (city_map s) →
  cost ∈ costs →
  py_cut " (" (neighbor +:+ " ") = None →
  py_cut ": " (neighbor +:+ " ") = None →
  py_cut ": " (py_str cost +:+ ")") = None →
  py_rstrip ")" (py_str cost +:+ ")") = py_str cost →
  py_int (py_str cost) = Some cost →
  (city1 ≠ "" →
   road_item py_str neighbor cost ∈
     update_roads_list py_str city1 (city_map s)) ∧
  ∃ rest s',
    py_remove cost costs = Some rest ∧
    app_remove_road py_int (Some (road_item py_str neighbor cost)) city1 s =
      (Ok true, s') ∧
    undo_stack s' = undo_stack s ++ [RemoveRoadCommand city1 neighbor cost] ∧
    redo_stack s' = [] ∧
    ∀ x y, costs_from (city_map s') x y =
      if decide (slots city1 neighbor x y)
      then (if decide (rest = []) then None else Some rest)
      else costs_from (city_map s) x y.
Proof.
  intros Hok Hin Hcost Hn1 Hn2 Hc Hr Hi.
  split; [intros Hcity; by apply (road_item_shown city1 neighbor costs)|].
  pose proof (roads_from_city_costs _ _ _ _ (ok_inner _ Hok) Hin) as E.
  assert (city1 ≠ neighbor) as Hab.
  { intros ->. by rewrite (ok_no_loop _ Hok) in E. }
  destruct (py_remove_is_Some _ _ Hcost) as [rest Hrest].
  destruct (remove_road_present _ _ _ _ _ _ (ok_sym _ Hok) Hab E Hrest)
    as (m' & Hrun & _ & Hv).
  exists rest. eexists. split; [done|].
  unfold app_remove_road.
  rewrite bind_run, (road_city2_item py_str neighbor cost s Hn1).
  rewrite bind_run, (road_cost_item py_int py_str neighbor cost s Hn2 Hc Hr Hi).
  rewrite (execute_command_true (RemoveRoadCommand city1 neighbor cost)
             (RemoveRoadCommand city1 neighbor cost) m')
    by (simpl; by rewrite bind_run, Hrun).
  split; [done|]. simpl. split; [done|]. split; [done|]. exact Hv.
Qed.
End selected_road.

Lemma remove_selected_road_witness :
  let s := new_manager example_map in
  ("X" ≠ "" →
   road_item (λ _, "5") "Y" 5 ∈ update_roads_list (λ _, "5") "X" (city_map s)) ∧
  ∃ rest s',
    py_remove 5 [5%Z] = Some rest ∧
    app_remove_road (λ _, Some 5%Z) (Some (road_item (λ _, "5") "Y" 5)) "X" s =
      (Ok true, s') ∧
    undo_stack s' = undo_stack s ++ [RemoveRoadCommand "X" "Y" 5] ∧
    redo_stack s' = [] ∧
    ∀ x y, costs_from (city_map s') x y =
      if decide (slots "X" "Y" x y)
      then (if decide (rest = []) then None else Some rest)
      else costs_from (city_map s) x y.
Proof.
  apply (remove_selected_road (λ _, Some 5%Z) (λ _, "5")
           (new_manager example_map) "X" "Y" [5%Z] 5).
  - exact example_map_ok.
  - vm_compute. left.
  - apply list_elem_of_singleton. reflexivity.
  - reflexivity.
  - reflexivity.
  - reflexivity.
  - reflexivity.
  - reflexivity.
Defined.

(** Property X25. Undo followed by redo puts the stacks back. When both
    calls succeed, the redo stack is the one before the undo and the undo
    stack holds the same command objects again. No list changes, except
    when the command on top is a [RemoveCityCommand]: its list then holds,
    after the roads it held, the roads its city had on the map the undo
    left, which [execute] has captured once more. *)
Theorem undo_then_redo_restores_stacks (s s1 s2 : CommandManager)
    (rest : list CommandRef) (c : CommandRef) :
  undo_stack s = rest ++ [c] →
  manager_undo s = (Ok true, s1) →
  manager_redo s1 = (Ok true, s2) →
  redo_stack s2 = redo_stack s ∧
  undo_stack s2 = undo_stack s ∧
  match c with
  | RemoveCityCommand name a =>
      ∃ d, dict_get name (city_map s1) = Some d ∧
        lists s2 = <[a := roads_at (lists s) a ++ roads_of name d]> (lists s) ∧
        (a < length (lists s) →
         held (lists s2) c =
           RemoveCityCommand name (roads_at (lists s) a ++ roads_of name d))
  | _ => lists s2 = lists s
  end.
Proof.
  intros Hu. rewrite manager_undo_run, Hu, last_snoc, removelast_snoc.
  cbv zeta. destruct (undo (held (lists s) c) (city_map s)) as [[[]|e] m1];
    [|done..].
  intros [= <-]. rewrite manager_redo_run. cbn [redo_stack saved set_index
    set_history set_redo_stack set_city_map set_undo_stack city_map undo_stack
    lists].
  rewrite last_snoc, removelast_snoc. cbv zeta.
  destruct (execute (held (lists s) c) m1) as [[[[] after]|e] m2] eqn:He;
    [|done..].
  intros [= <-]. simpl. split; [done|]. split; [done|].
  destruct c as [|name a| | | |]; try done.
  simpl in He. destruct (dict_mem name m1) eqn:Hn.
  - destruct (execute_remove_city name (roads_at (lists s) a) m1 Hn)
      as (d & Hd & He').
    simpl in He'. rewrite He' in He. injection He as <- <-.
    exists d. split; [done|]. split; [done|]. intros Ha. simpl.
    by rewrite roads_at_insert.
  - rewrite bind_run, has_city_run in He. simpl in He. by rewrite Hn in He.
Qed.

Lemma undo_then_redo_restores_stacks_witness :
  let s := ((command ← on_lists (new_RemoveCityCommand "X");
             execute_command command) (new_manager example_map)).2 in
  let s1 := (manager_undo s).2 in
  let s2 := (manager_redo s1).2 in
  redo_stack s2 = redo_stack s ∧
  undo_stack s2 = undo_stack s ∧
  ∃ d, dict_get "X" (city_map s1) = Some d ∧
    lists s2 = <[0%nat := roads_at (lists s) 0 ++ roads_of "X" d]> (lists s) ∧
    (0 < length (lists s) →
     held (lists s2) (RemoveCityCommand "X" 0%nat) =
       RemoveCityCommand "X" (roads_at (lists s) 0 ++ roads_of "X" d)).
Proof.
  apply (undo_then_redo_restores_stacks _ _ _ [] (RemoveCityCommand "X" 0%nat));
    vm_compute; reflexivity.
Defined.
